(** * CCSDS application / data-link pipeline: a shallow embedding

    The development follows the Python sources of the repository:

    - [Crc32c], [Sender], [Receiver]: the L7 Space-Packet tools
      (tools/l7_sender.py, tools/l7_receiver.py);
    - [SppTagger], [TmFramer], [Randomizer], [RsEncoder], [ConvEncoder]:
      the transmit-side embedded Python blocks of the flowgraph;
    - [Viterbi]: the receive-side soft decoder block.

    Bytes are integers in [0, 256) held in [list Z]; Python's unbounded
    integers are [Z]; exceptions are the [Raise] branch of [result]. *)

From Stdlib Require Import ZArith Lia Bool Ascii String.
From stdpp Require Import base list gmap strings.

Local Open Scope Z_scope.

(** ** Python values shared by all modules *)

Inductive pyerr : Type :=
| ValueError | KeyError | AssertionError | StructError | OSError.

Inductive result (A : Type) : Type :=
| Ok (a : A)
| Raise (e : pyerr).
Arguments Ok {A} a.
Arguments Raise {A} e.

#[global] Instance result_ret : MRet result := fun A a => Ok a.

#[global] Instance result_bind : MBind result := fun A B k r =>
  match r with
  | Ok a => k a
  | Raise e => Raise e
  end.

Definition is_byte (b : Z) : Prop := 0 <= b < 256.
Definition bytes_ok (l : list Z) : Prop := Forall is_byte l.

(** [l[i]] for an index that the caller keeps inside the list. *)
Definition getZ (l : list Z) (i : Z) : Z := default 0 (l !! Z.to_nat i).

(** [range(n)] over [Z]. *)
Definition rangeZ (n : nat) : list Z := map Z.of_nat (seq 0 n).

(** [all(P(i) for i in range(s, s + fuel))], counting in [Z]. *)
Fixpoint all_from (fuel : nat) (s : Z) (P : Z -> bool) {struct fuel} : bool :=
  match fuel with
  | O => true
  | S fuel' => P s && all_from fuel' (s + 1) P
  end.

(** Python slice bounds: a negative bound counts from the end, and every
    bound is clamped into [0, len]. *)
Definition py_bound (n : Z) (len : nat) : nat :=
  if n <? 0 then Z.to_nat (Z.max 0 (Z.of_nat len + n))
  else Nat.min (Z.to_nat n) len.

Definition slice_to {A} (l : list A) (n : Z) : list A :=
  take (py_bound n (length l)) l.

Definition slice_from {A} (l : list A) (n : Z) : list A :=
  drop (py_bound n (length l)) l.

Definition slice {A} (l : list A) (a b : Z) : list A :=
  take (py_bound b (length l) - py_bound a (length l))
       (drop (py_bound a (length l)) l).

(** [buf[a:b] = v] on a bytearray or a NumPy array. *)
Definition set_slice {A} (l : list A) (a b : Z) (v : list A) : list A :=
  let ia := py_bound a (length l) in
  let ib := py_bound b (length l) in
  take ia l ++ v ++ drop (Nat.max ia ib) l.

(** [int.from_bytes(bs, "big")]. *)
Definition from_bytes_big (bs : list Z) : Z :=
  fold_left (fun acc b => acc * 256 + b) bs 0.

(** Big-endian bytes of [x], [n] of them. *)
Fixpoint be_bytes (n : nat) (x : Z) : list Z :=
  match n with
  | O => []
  | S n' => be_bytes n' (x / 256) ++ [x mod 256]
  end.

(** [struct.pack(">I", x)] and [struct.pack(">Q", x)]. *)
Definition be_u32 (x : Z) : result (list Z) :=
  if (0 <=? x) && (x <? 2 ^ 32) then Ok (be_bytes 4 x) else Raise StructError.

Definition be_u64 (x : Z) : result (list Z) :=
  if (0 <=? x) && (x <? 2 ^ 64) then Ok (be_bytes 8 x) else Raise StructError.

(** *** Text helpers: [str.upper], [int(s, base)], [bytes.fromhex], formats *)

Definition code (c : ascii) : Z := Z.of_N (N_of_ascii c).

Definition is_space (c : ascii) : bool :=
  let n := code c in ((9 <=? n) && (n <=? 13)) || (n =? 32).

Definition upper_char (c : ascii) : ascii :=
  let n := code c in
  if (97 <=? n) && (n <=? 122) then ascii_of_N (Z.to_N (n - 32)) else c.

Fixpoint upper (s : string) : string :=
  match s with
  | EmptyString => EmptyString
  | String c s' => String (upper_char c) (upper s')
  end.

Definition digit_val (c : ascii) : option Z :=
  let n := code c in
  if (48 <=? n) && (n <=? 57) then Some (n - 48)
  else if (97 <=? n) && (n <=? 122) then Some (n - 87)
  else if (65 <=? n) && (n <=? 90) then Some (n - 55)
  else None.

Fixpoint lstrip (s : list ascii) : list ascii :=
  match s with
  | c :: s' => if is_space c then lstrip s' else s
  | [] => []
  end.

Definition strip (s : list ascii) : list ascii :=
  rev (lstrip (rev (lstrip s))).

(** Digits of a literal in [base]; one underscore may separate two digits.
    [prev] tells whether the previous character was a digit. *)
Fixpoint digits (base : Z) (prev : bool) (acc : Z) (s : list ascii) : option Z :=
  match s with
  | [] => if prev then Some acc else None
  | c :: s' =>
      if (code c =? 95) then
        if prev then digits base false acc s' else None
      else
        match digit_val c with
        | Some d => if d <? base then digits base true (acc * base + d) s' else None
        | None => None
        end
  end.

Definition is_prefix_char (c : ascii) (lo up : Z) : bool :=
  (code c =? lo) || (code c =? up).

(** The unsigned part of [int(s, base)] for [base] 0, 10 or 16. *)
Definition unsigned_literal (base : Z) (s : list ascii) : option Z :=
  match s with
  | z :: p :: rest =>
      if (code z =? 48) && is_prefix_char p 120 88 && ((base =? 16) || (base =? 0))
      then digits 16 true 0 rest
      else if (code z =? 48) && is_prefix_char p 111 79 && (base =? 0)
      then digits 8 true 0 rest
      else if (code z =? 48) && is_prefix_char p 98 66 && (base =? 0)
      then digits 2 true 0 rest
      else if base =? 0 then
        match digits 10 false 0 s with
        | Some v => if (code z =? 48) && negb (v =? 0) then None else Some v
        | None => None
        end
      else digits base false 0 s
  | _ => digits (if base =? 0 then 10 else base) false 0 s
  end.

(** [int(s, base)]; [None] stands for the ValueError. *)
Definition py_int (base : Z) (s : string) : option Z :=
  match strip (list_ascii_of_string s) with
  | c :: rest =>
      if code c =? 45 then Z.opp <$> unsigned_literal base rest
      else if code c =? 43 then unsigned_literal base rest
      else unsigned_literal base (c :: rest)
  | [] => None
  end.

(** [bytes.fromhex(s)]: pairs of hex digits, white space between pairs. *)
Fixpoint fromhex_chars (s : list ascii) : option (list Z) :=
  match s with
  | [] => Some []
  | c :: s' =>
      if is_space c then fromhex_chars s'
      else
        match s' with
        | d :: s'' =>
            match digit_val c, digit_val d with
            | Some h, Some l =>
                if (h <? 16) && (l <? 16)
                then cons (16 * h + l) <$> fromhex_chars s''
                else None
            | _, _ => None
            end
        | [] => None
        end
  end.

Definition fromhex (s : string) : option (list Z) :=
  fromhex_chars (list_ascii_of_string s).

Definition hex_digit (d : Z) : ascii :=
  ascii_of_N (Z.to_N (if d <? 10 then 48 + d else 87 + d)).

Fixpoint hex_chars (fuel : nat) (n : Z) (acc : list ascii) : list ascii :=
  match fuel with
  | O => acc
  | S f =>
      let acc' := hex_digit (n mod 16) :: acc in
      if n / 16 =? 0 then acc' else hex_chars f (n / 16) acc'
  end.

(** [f"0x{n:08x}"] for [n >= 0]. *)
Definition fmt_0x08x (n : Z) : string :=
  let ds := hex_chars (S (Z.to_nat (Z.log2 n))) n [] in
  string_of_list_ascii
    ("0"%char :: "x"%char :: replicate (8 - length ds)%nat "0"%char ++ ds).

Fixpoint dec_chars (fuel : nat) (n : Z) (acc : list ascii) : list ascii :=
  match fuel with
  | O => acc
  | S f =>
      let acc' := ascii_of_N (Z.to_N (48 + n mod 10)) :: acc in
      if n / 10 =? 0 then acc' else dec_chars f (n / 10) acc'
  end.

(** [str(n)] for [n >= 0]. *)
Definition fmt_dec (n : Z) : string :=
  string_of_list_ascii (dec_chars (S (Z.to_nat (Z.log2 n))) n []).

(** ** CRC-32C (Castagnoli), as in both L7 tools *)

Module Crc32c.

Definition _CRC32C_POLY : Z := 0x82F63B78.

Definition table_step (crc : Z) : Z :=
  if negb (Z.land crc 1 =? 0)
  then Z.lxor (Z.shiftr crc 1) _CRC32C_POLY
  else Z.shiftr crc 1.

Definition table_entry (i : Z) : Z := Nat.iter 8 table_step i.

Definition _crc32c_table : list Z :=
  Eval vm_compute in map table_entry (rangeZ 256).

Definition crc_update (crc b : Z) : Z :=
  Z.lxor (getZ _crc32c_table (Z.land (Z.lxor crc b) 0xFF)) (Z.shiftr crc 8).

Definition crc32c_init (data : list Z) (init : Z) : Z :=
  Z.lxor (fold_left crc_update data (Z.lxor init 0xFFFFFFFF)) 0xFFFFFFFF.

Definition crc32c (data : list Z) : Z := crc32c_init data 0.

End Crc32c.

(** ** tools/l7_sender.py *)

Module Sender.
Import Crc32c.

(** A profile of apps.json.  A field is [None] when its key is absent, so
    that [dict.get(key, default)] reads as [default dflt field]. *)
Inductive json_apid : Type :=
| ApidInt (n : Z)
| ApidStr (s : string).

Record sec_hdr_spec : Type := {
  sh_mode : option string;
  sh_hex : option string
}.

Record body_spec : Type := {
  b_mode : option string;
  b_text : option string;
  b_pad_byte : option string;
  b_pattern16 : option bool;
  b_extra_bytes : option Z;
  b_path : option string
}.

Record profile : Type := {
  p_name : option string;
  p_apid : option json_apid;
  p_type : option string;
  p_sec_hdr : option sec_hdr_spec;
  p_body : option body_spec;
  p_use_mic : option bool;
  p_data_field_len : option Z
}.

(** What the sender reads from its environment: the clock
    ([time.time_ns()], and [time.time()] as whole seconds and microseconds)
    and the files a body may name. *)
Record env : Type := {
  time_ns : Z;
  time_sec : Z;
  time_usec : Z;
  read_file : string -> option (list Z)
}.

Record ProfileState : Type := {
  prof : profile;
  seq : Z;
  golden_written : bool
}.

Definition empty_sec_hdr : sec_hdr_spec := {| sh_mode := None; sh_hex := None |}.

Definition empty_body : body_spec :=
  {| b_mode := None; b_text := None; b_pad_byte := None;
     b_pattern16 := None; b_extra_bytes := None; b_path := None |}.

Definition pack_primary_header (version pkt_type shf apid seq_flags seq_count length : Z)
  : result (list Z) :=
  if negb ((0 <=? version) && (version <=? 7)) then Raise AssertionError
  else if negb ((pkt_type =? 0) || (pkt_type =? 1)) then Raise AssertionError
  else if negb ((shf =? 0) || (shf =? 1)) then Raise AssertionError
  else if negb ((0 <=? apid) && (apid <=? 0x7FF)) then Raise AssertionError
  else if negb ((0 <=? seq_flags) && (seq_flags <=? 3)) then Raise AssertionError
  else if negb ((0 <=? seq_count) && (seq_count <=? 0x3FFF)) then Raise AssertionError
  else if negb ((0 <=? length) && (length <=? 0xFFFF)) then Raise AssertionError
  else
    let w1 := Z.lor (Z.lor (Z.lor (Z.shiftl version 13) (Z.shiftl pkt_type 12))
                           (Z.shiftl shf 11)) apid in
    let w2 := Z.lor (Z.shiftl seq_flags 14) seq_count in
    let w3 := length in
    Ok (be_bytes 2 w1 ++ be_bytes 2 w2 ++ be_bytes 2 w3).

Definition make_time_tag_ns8 (e : env) : result (list Z) := be_u64 (time_ns e).

Definition make_sec_hdr (e : env) (spec : sec_hdr_spec) : result (list Z) :=
  match sh_mode spec with
  | None => Ok []
  | Some mode =>
      if String.eqb mode "none" then Ok []
      else if String.eqb mode "ns8" then make_time_tag_ns8 e
      else if String.eqb mode "sec_us32" then
        s ← be_u32 (time_sec e); u ← be_u32 (time_usec e); Ok (s ++ u)
      else if String.eqb mode "fixed" then
        let hx := default ""%string (sh_hex spec) in
        if negb (Nat.even (String.length hx)) then Raise ValueError
        else match fromhex hx with
             | Some bs => Ok bs
             | None => Raise ValueError
             end
      else Raise ValueError
  end.

(** [text.encode("ascii", errors="replace")]. *)
Definition encode_ascii (text : string) : list Z :=
  map (fun c => if code c <? 128 then code c else 63) (list_ascii_of_string text).

Definition body_from_spec (e : env) (spec : body_spec) (counter : Z)
  : result (list Z) :=
  let mode := default "pattern"%string (b_mode spec) in
  if String.eqb mode "ascii" then
    Ok (encode_ascii (default ""%string (b_text spec)))
  else if String.eqb mode "pattern" then
    let chunk16 := if default true (b_pattern16 spec) then rangeZ 16 else [] in
    let extra := default 0 (b_extra_bytes spec) in
    let chunkx :=
      if 0 <? extra then map (fun i => Z.land i 0xFF) (rangeZ (Z.to_nat extra))
      else [] in
    Ok (chunk16 ++ chunkx)
  else if String.eqb mode "file" then
    let p := default ""%string (b_path spec) in
    if String.eqb p "" then Raise ValueError
    else match read_file e p with
         | Some bs => Ok bs
         | None => Raise OSError
         end
  else Raise ValueError.

Definition pad_or_truncate_to_len (user_no_mic : list Z)
    (desired_len_without_mic : Z) (pad_byte : Z) : result (list Z) :=
  let cur := Z.of_nat (length user_no_mic) in
  if cur =? desired_len_without_mic then Ok user_no_mic
  else if cur <? desired_len_without_mic then
    if (0 <=? pad_byte) && (pad_byte <? 256)
    then Ok (user_no_mic ++ replicate (Z.to_nat (desired_len_without_mic - cur)) pad_byte)
    else Raise ValueError
  else Ok (slice_to user_no_mic desired_len_without_mic).

Definition parse_apid (v : json_apid) : result Z :=
  match v with
  | ApidInt n => Ok n
  | ApidStr s => match py_int 0 s with
                 | Some n => Ok n
                 | None => Raise ValueError
                 end
  end.

(** Returns [(packet_bytes, total_len, mic_hex_or_empty)]. *)
Definition build_packet_for_profile (e : env) (pstate : ProfileState) (counter : Z)
  : result (list Z * Z * string) :=
  let prof := prof pstate in
  apid ← match p_apid prof with
          | Some v => parse_apid v
          | None => Raise KeyError
          end;
  let pkt_type_bit :=
    if String.eqb (upper (default "TC"%string (p_type prof))) "TC" then 1 else 0 in
  sec_hdr ← make_sec_hdr e (default empty_sec_hdr (p_sec_hdr prof));
  let bspec := default empty_body (p_body prof) in
  user_no_mic ← body_from_spec e bspec counter;
  let pad_byte :=
    match b_mode bspec with
    | Some m =>
        if String.eqb m "ascii"
        then default 0 (py_int 16 (default "00"%string (b_pad_byte bspec)))
        else 0
    | None => 0
    end in
  let use_mic := default false (p_use_mic prof) in
  let mic_len := if use_mic then 4 else 0 in
  let data_field_len :=
    default (Z.of_nat (length sec_hdr) + Z.of_nat (length user_no_mic) + mic_len)
            (p_data_field_len prof) in
  let desired_user_len_wo_mic :=
    data_field_len - Z.of_nat (length sec_hdr) - mic_len in
  if desired_user_len_wo_mic <? 0 then Raise ValueError
  else
    user_wo_mic_padded ←
      pad_or_truncate_to_len user_no_mic desired_user_len_wo_mic pad_byte;
    '(user, mic_hex) ←
      (if use_mic then
         let mic_val := crc32c user_wo_mic_padded in
         mic ← be_u32 mic_val;
         Ok (user_wo_mic_padded ++ mic, fmt_0x08x mic_val)
       else Ok (user_wo_mic_padded, ""%string));
    let shf := if (0 <? Z.of_nat (length sec_hdr)) then 1 else 0 in
    let version := 0 in
    let seq_flags := 3 in
    let seq_count := Z.land (seq pstate) 0x3FFF in
    let prim_len := Z.of_nat (length sec_hdr) + Z.of_nat (length user) - 1 in
    hdr ← pack_primary_header version pkt_type_bit shf apid seq_flags seq_count prim_len;
    let pkt := hdr ++ sec_hdr ++ user in
    Ok (pkt, Z.of_nat (length pkt), mic_hex).

(** The profile of the "MIC OK" scenario. *)
Definition cfdp_meta : profile :=
  {| p_name := Some "CFDP_META"%string;
     p_apid := Some (ApidStr "0x0B3");
     p_type := Some "TC"%string;
     p_sec_hdr := Some {| sh_mode := Some "ns8"%string; sh_hex := None |};
     p_body := Some {| b_mode := Some "ascii"%string;
                       b_text := Some "0.21/data/"%string;
                       b_pad_byte := Some "00"%string;
                       b_pattern16 := None; b_extra_bytes := None;
                       b_path := None |};
     p_use_mic := Some true;
     p_data_field_len := Some 138 |}.

Definition clock0 : env :=
  {| time_ns := 0; time_sec := 0; time_usec := 0; read_file := fun _ => None |}.

Definition fresh (p : profile) : ProfileState :=
  {| prof := p; seq := 0; golden_written := false |}.

End Sender.

(** ** tools/l7_receiver.py *)

Module Receiver.
Import Crc32c.

(** The fields of the parsed primary header that [process_packet] reads. *)
Record primary_header : Type := {
  ph_version : Z;
  ph_type : Z;
  ph_shf : Z;
  ph_apid : Z;
  ph_seq_flags : Z;
  ph_seq_count : Z;
  ph_data_field_len : Z;
  ph_total_len : Z
}.

Definition parse_primary_header (hdr : list Z) : result primary_header :=
  if (length hdr <? 6)%nat then Raise ValueError
  else
    let w1 := from_bytes_big (slice hdr 0 2) in
    let w2 := from_bytes_big (slice hdr 2 4) in
    let w3 := from_bytes_big (slice hdr 4 6) in
    Ok {| ph_version := Z.land (Z.shiftr w1 13) 0x7;
          ph_type := Z.land (Z.shiftr w1 12) 0x1;
          ph_shf := Z.land (Z.shiftr w1 11) 0x1;
          ph_apid := Z.land w1 0x7FF;
          ph_seq_flags := Z.land (Z.shiftr w2 14) 0x3;
          ph_seq_count := Z.land w2 0x3FFF;
          ph_data_field_len := w3;
          ph_total_len := 6 + (w3 + 1) |}.

Definition starts_with (p s : string) : bool :=
  String.eqb (String.substring 0 (String.length p) s) p.

Definition sec_len_from_mode (mode : string) : result Z :=
  if String.eqb mode "none" || String.eqb mode "auto" then Ok 0
  else if String.eqb mode "ns8" then Ok 8
  else if String.eqb mode "sec_us32" then Ok 8
  else if starts_with "fixed:" mode then
    match py_int 10 (String.substring 6 (String.length mode - 6) mode) with
    | Some n => Ok n
    | None => Raise ValueError
    end
  else Raise ValueError.

(** The profile fields the receiver looks at (same schema as the sender). *)
Record rx_sec_hdr : Type := {
  rsh_mode : option string;
  rsh_hex : option string
}.

Record rx_profile : Type := {
  rp_sec_hdr : option rx_sec_hdr;
  rp_use_mic : option bool
}.

(** Returns [(sec_mode_str, mic_bool_or_None)].  Every profile that
    [load_profiles] put into the map has an "apid" key, so [not prof] holds
    only when the lookup found nothing. *)
Definition expected_sec_mode_and_mic_for_apid (apid : Z) (apid_map : gmap Z rx_profile)
  : result (string * option bool) :=
  match apid_map !! apid with
  | None => Ok ("auto"%string, None)
  | Some prof =>
      let sh := default {| rsh_mode := None; rsh_hex := None |} (rp_sec_hdr prof) in
      let mode := default "none"%string (rsh_mode sh) in
      let mic := Some (default false (rp_use_mic prof)) in
      if String.eqb mode "fixed" then
        match fromhex (default ""%string (rsh_hex sh)) with
        | Some bs => Ok (("fixed:" ++ fmt_dec (Z.of_nat (length bs)))%string, mic)
        | None => Raise ValueError
        end
      else if String.eqb mode "none" || String.eqb mode "ns8"
              || String.eqb mode "sec_us32"
      then Ok (mode, mic)
      else Ok ("auto"%string, mic)
  end.

(** What [process_packet] logs for one packet: the CSV row's fields that
    depend on the packet (the time stamp and the source address apart). *)
Record row : Type := {
  r_sec_mode : string;
  r_sec_len : Z;
  r_sec_hdr : list Z;
  r_mic_state : string;
  r_mic_hex : string;
  r_user : list Z
}.

(** The MIC detection / verification block of [process_packet]:
    returns [(mic_state, mic_hex, user)]. *)
Definition mic_check (mic_mode : string) (mic_expect : option bool)
    (user_and_maybe_mic : list Z) : string * string * list Z :=
  if String.eqb mic_mode "off" then ("OFF"%string, ""%string, user_and_maybe_mic)
  else
    let expecting := String.eqb mic_mode "on" || bool_decide (mic_expect = Some true) in
    if (4 <=? length user_and_maybe_mic)%nat then
      let candidate_user := slice_to user_and_maybe_mic (-4) in
      let candidate_mic := from_bytes_big (slice_from user_and_maybe_mic (-4)) in
      let calc := crc32c candidate_user in
      if candidate_mic =? calc then
        ("OK"%string, fmt_0x08x candidate_mic, candidate_user)
      else if expecting then
        ("BAD"%string, fmt_0x08x candidate_mic, user_and_maybe_mic)
      else ("none"%string, ""%string, user_and_maybe_mic)
    else if expecting then ("SHORT"%string, ""%string, user_and_maybe_mic)
    else ("none"%string, ""%string, user_and_maybe_mic).

(** The secondary-header length [process_packet] starts from, before it
    compares it with the data field. *)
Definition configured_sec_len (shf : Z) (sec_mode : string) : Z :=
  if shf =? 1 then
    match sec_len_from_mode sec_mode with
    | Ok n => n
    | Raise _ => 0
    end
  else 0.

(** "Decide sec-mode for this APID": the mode and the MIC expectation
    [process_packet] works with. *)
Definition decide_sec_mode (sec_mode_cli : string) (apid : Z)
    (apid_map : gmap Z rx_profile) : result (string * option bool) :=
  if String.eqb sec_mode_cli "auto"
  then expected_sec_mode_and_mic_for_apid apid apid_map
  else Ok (sec_mode_cli, None).

Definition process_packet (pkt : list Z) (ph : primary_header)
    (sec_mode_cli mic_mode : string) (apid_map : gmap Z rx_profile) : result row :=
  let apid := ph_apid ph in
  let shf := ph_shf ph in
  '(sec_mode, mic_expect) ← decide_sec_mode sec_mode_cli apid apid_map;
  let sec_len := configured_sec_len shf sec_mode in
  let data_field := slice_from pkt 6 in
  let sec_len := if Z.of_nat (length data_field) <? sec_len then 0 else sec_len in
  let sec_hdr := slice_to data_field sec_len in
  let user_and_maybe_mic := slice_from data_field sec_len in
  let '(mic_state, mic_hex, user) := mic_check mic_mode mic_expect user_and_maybe_mic in
  Ok {| r_sec_mode := sec_mode; r_sec_len := sec_len; r_sec_hdr := sec_hdr;
        r_mic_state := mic_state; r_mic_hex := mic_hex; r_user := user |}.

End Receiver.

(** ** Tagged streams between the flowgraph blocks

    A length tag is a pair of an item offset and its integer value; every
    block below reads and writes only the tags of its length key. *)

Definition tag : Type := (Z * Z)%type.

(** [sorted(tags, key=offset)]: Python's sort is stable. *)
Fixpoint insert_by_offset (t : tag) (l : list tag) : list tag :=
  match l with
  | [] => [t]
  | u :: l' => if t.1 <? u.1 then t :: l else u :: insert_by_offset t l'
  end.

Definition sort_by_offset (l : list tag) : list tag :=
  foldr insert_by_offset [] l.

(** ** sync_coding/default_epy_block_6.py: the SPP length tagger *)

Module SppTagger.

Record blk : Type := {
  _buf : list Z;
  _abs_out : Z
}.

Definition init : blk := {| _buf := []; _abs_out := 0 |}.

(** The state of one [general_work] call inside its [while True] loop. *)
Record loop_state : Type := {
  l_buf : list Z;
  l_abs_out : Z;
  l_out : list Z;          (* out[:produced] *)
  l_tags : list tag        (* tags added so far, oldest first *)
}.

(** One call's [while True] loop.  Every iteration that does not break
    removes a whole packet (at least 7 bytes) from the buffer, so
    [length buf] iterations always suffice. *)
Fixpoint tag_loop (fuel : nat) (n_out : Z) (s : loop_state) : loop_state :=
  match fuel with
  | O => s
  | S fuel' =>
      let buf := l_buf s in
      if (length buf <? 6)%nat then s
      else
        let pkt_len_field := Z.lor (Z.shiftl (getZ buf 4) 8) (getZ buf 5) in
        let total_len := 6 + (pkt_len_field + 1) in
        if Z.of_nat (length buf) <? total_len then s
        else
          let tags' := l_tags s ++ [(l_abs_out s, total_len)] in
          let produced := Z.of_nat (length (l_out s)) in
          let n := Z.min (n_out - produced) total_len in
          if n <? total_len
          then {| l_buf := buf; l_abs_out := l_abs_out s;
                  l_out := l_out s; l_tags := tags' |}
          else
            tag_loop fuel' n_out
              {| l_buf := slice_from buf total_len;
                 l_abs_out := l_abs_out s + total_len;
                 l_out := l_out s ++ slice_to buf total_len;
                 l_tags := tags' |}
  end.

Record work_result : Type := {
  w_blk : blk;
  w_out : list Z;
  w_tags : list tag;
  w_consumed : Z
}.

(** [general_work] on an input window [inp] and [n_out] items of output
    space. *)
Definition general_work (b : blk) (inp : list Z) (n_out : Z) : work_result :=
  let buf := _buf b ++ inp in
  let s := tag_loop (S (length buf)) n_out
             {| l_buf := buf; l_abs_out := _abs_out b; l_out := []; l_tags := [] |} in
  let produced := Z.of_nat (length (l_out s)) in
  let spill := Z.min (n_out - produced) (Z.of_nat (length (l_buf s))) in
  if negb (spill =? 0) then
    {| w_blk := {| _buf := slice_from (l_buf s) spill;
                   _abs_out := l_abs_out s + spill |};
       w_out := l_out s ++ slice_to (l_buf s) spill;
       w_tags := l_tags s;
       w_consumed := Z.of_nat (length inp) |}
  else
    {| w_blk := {| _buf := l_buf s; _abs_out := l_abs_out s |};
       w_out := l_out s;
       w_tags := l_tags s;
       w_consumed := Z.of_nat (length inp) |}.

End SppTagger.

(** ** sync_coding/sync_coding_v0_epy_block_1.py: the TM randomizer *)

Module Randomizer.

Record params : Type := {
  seed : Z;
  restart_per_frame : bool;
  enabled : bool
}.

(** [__init__] masks the seed to 15 bits. *)
Definition make (seed0 : Z) (restart en : bool) : params :=
  {| seed := Z.land seed0 0x7FFF; restart_per_frame := restart; enabled := en |}.

Record blk : Type := {
  _lfsr : Z;
  _frame_bytes_left : Z
}.

Definition init (p : params) : blk := {| _lfsr := seed p; _frame_bytes_left := 0 |}.

Definition _step_lfsr (state : Z) : Z :=
  let new_bit := Z.land (Z.lxor (Z.shiftr state 14) (Z.shiftr state 13)) 0x1 in
  Z.lor (Z.land (Z.shiftl state 1) 0x7FFF) new_bit.

(** One pass of the [for _ in range(8)] loop of [_next_pn_byte]. *)
Definition pn_bit_step (acc : Z * Z) : Z * Z :=
  let '(out_byte, lfsr) := acc in
  let pn_bit := Z.land (Z.shiftr lfsr 14) 0x1 in
  (Z.land (Z.lor (Z.shiftl out_byte 1) pn_bit) 0xFF, _step_lfsr lfsr).

(** Returns the PN byte and the register after it. *)
Definition _next_pn_byte (lfsr : Z) : Z * Z := Nat.iter 8 pn_bit_step (0, lfsr).

(** [for i in range(to_rand): out[produced+i] = inp[cursor+i] ^ next_pn_byte()]. *)
Fixpoint xor_pn (lfsr : Z) (bytes : list Z) {struct bytes} : list Z * Z :=
  match bytes with
  | [] => ([], lfsr)
  | b :: rest =>
      let pn := _next_pn_byte lfsr in
      match xor_pn (snd pn) rest with
      | (out, lfsr') => (Z.lxor b (fst pn) :: out, lfsr')
      end
  end.

(** The variables of one [general_work] call that [process_chunk] updates. *)
Record work_state : Type := {
  s_blk : blk;
  s_out : list Z;          (* out[:produced] *)
  s_consumed : Z;
  s_cursor : Z;
  s_tags : list tag
}.

Definition produced (s : work_state) : Z := Z.of_nat (length (s_out s)).

Definition process_chunk (p : params) (inp : list Z) (n_out : Z)
    (chunk_len : Z) (s : work_state) : work_state :=
  if chunk_len <=? 0 then s
  else
    let n := Z.min chunk_len (n_out - produced s) in
    if n <=? 0 then s
    else
      let cursor := s_cursor s in
      let left := _frame_bytes_left (s_blk s) in
      let '(bytes, b') :=
        if negb (enabled p) || (left <=? 0) then
          (slice inp cursor (cursor + n), s_blk s)
        else
          let to_rand := Z.min n left in
          let '(r, lfsr') := xor_pn (_lfsr (s_blk s)) (slice inp cursor (cursor + to_rand)) in
          let rest := if to_rand <? n then slice inp (cursor + to_rand) (cursor + n) else [] in
          (r ++ rest, {| _lfsr := lfsr'; _frame_bytes_left := left - to_rand |}) in
      {| s_blk := b'; s_out := s_out s ++ bytes;
         s_consumed := s_consumed s + n; s_cursor := cursor + n;
         s_tags := s_tags s |}.

(** [_consume_length_tags]: the positive length tags of the window, sorted. *)
Definition _consume_length_tags (tags : list tag) : list tag :=
  sort_by_offset (filter (fun t => 0 < t.2) tags).

(** The [for rel_off, frame_len in starts] loop; [nwritten] is
    [nitems_written(0)]. *)
Fixpoint walk_starts (p : params) (inp : list Z) (n_out nwritten : Z)
    (starts : list tag) (s : work_state) {struct starts} : work_state :=
  match starts with
  | [] => s
  | (rel_off, frame_len) :: rest =>
      let pre := rel_off - s_cursor s in
      let s1 := if 0 <? pre then process_chunk p inp n_out pre s else s in
      if (0 <? pre) && (n_out <=? produced s1) then s1
      else
        let lfsr := if restart_per_frame p then seed p else _lfsr (s_blk s1) in
        let s2 :=
          {| s_blk := {| _lfsr := lfsr; _frame_bytes_left := frame_len |};
             s_out := s_out s1; s_consumed := s_consumed s1;
             s_cursor := s_cursor s1;
             s_tags := s_tags s1 ++ [(nwritten + produced s1, frame_len)] |} in
        walk_starts p inp n_out nwritten rest s2
  end.

Record work_result : Type := {
  w_blk : blk;
  w_out : list Z;
  w_tags : list tag;
  w_consumed : Z
}.

(** [general_work]; [tags] are the length tags of the input window, with
    offsets relative to its first item. *)
Definition general_work (p : params) (b : blk) (inp : list Z) (tags : list tag)
    (n_out nwritten : Z) : work_result :=
  let n_in := Z.of_nat (length inp) in
  if (n_in =? 0) || (n_out =? 0) then
    {| w_blk := b; w_out := []; w_tags := []; w_consumed := 0 |}
  else
    let starts := _consume_length_tags tags in
    let s0 := {| s_blk := b; s_out := []; s_consumed := 0; s_cursor := 0;
                 s_tags := [] |} in
    let s1 := walk_starts p inp n_out nwritten starts s0 in
    let s2 :=
      if (produced s1 <? n_out) && (s_cursor s1 <? n_in)
      then process_chunk p inp n_out (n_in - s_cursor s1) s1
      else s1 in
    {| w_blk := s_blk s2; w_out := s_out s2; w_tags := s_tags s2;
       w_consumed := s_consumed s2 |}.

(** One whole frame through a block: the frame is the input window, its
    length tag sits on its first byte, and the output has room for it. *)
Definition randomize_from (p : params) (b : blk) (frame : list Z) : list Z :=
  let n := Z.of_nat (length frame) in
  w_out (general_work p b frame [(0, n)] n 0).

Definition randomize (frame : list Z) (seed0 : Z) : list Z :=
  let p := make seed0 true true in
  randomize_from p (init p) frame.

End Randomizer.

(** ** sync_coding/sync_coding_v0_epy_block_3.py: the convolutional encoder *)

Module ConvEncoder.

Definition K : Z := 7.
Definition gen0 : Z := 0x79 (* 0o171 *).
Definition gen1 : Z := 0x5B (* 0o133 *).
Definition _mask : Z := Z.shiftl 1 K - 1.

(** [while x: x &= (x - 1); cnt ^= 1]: one pass clears the lowest set bit,
    so 32 passes empty a 32-bit word. *)
Fixpoint parity_loop (fuel : nat) (x cnt : Z) : Z :=
  match fuel with
  | O => cnt
  | S fuel' =>
      if x =? 0 then cnt
      else parity_loop fuel' (Z.land x (x - 1)) (Z.lxor cnt 1)
  end.

Definition _parity_u32 (x : Z) : Z := Z.land (parity_loop 32 x 0) 1.

(** [shifts] for [msb_first=True]: 7, 6, ..., 0. *)
Definition shifts : list Z := [7; 6; 5; 4; 3; 2; 1; 0].

Definition _bytes_to_bits (b : list Z) : list Z :=
  concat (map (fun byte => map (fun sh => Z.land (Z.shiftr byte sh) 1) shifts) b).

Definition pack8 (bits : list Z) : Z :=
  (foldr Z.add 0 (zip_with (fun bit sh => bit * Z.shiftl 1 sh) bits shifts)) mod 256.

Fixpoint chunks8 (fuel : nat) (bits : list Z) : list (list Z) :=
  match fuel with
  | O => []
  | S fuel' =>
      match bits with
      | [] => []
      | _ => take 8 bits :: chunks8 fuel' (drop 8 bits)
      end
  end.

Definition _bits_to_bytes (bits : list Z) : list Z :=
  let n := length bits in
  let pad := ((8 - (n mod 8)) mod 8)%nat in
  let bits := bits ++ replicate pad 0 in
  map pack8 (chunks8 (length bits) bits).

(** The loop of [_conv_encode_bits], from shift-register [state]. *)
Fixpoint encode_loop (state : Z) (in_bits : list Z) {struct in_bits} : list Z :=
  match in_bits with
  | [] => []
  | b :: rest =>
      let state := Z.land (Z.lor (Z.shiftl state 1) (Z.land b 1)) _mask in
      _parity_u32 (Z.land state gen0) :: _parity_u32 (Z.land state gen1)
        :: encode_loop state rest
  end.

(** With [reset_each_frame=True] the register is zero at every frame start. *)
Definition _conv_encode_bits (in_bits : list Z) : list Z := encode_loop 0 in_bits.

(** One frame through [_process_frames_to_outbuf]. *)
Definition encode_frame (frame : list Z) : list Z :=
  _bits_to_bytes (_conv_encode_bits (_bytes_to_bits frame)).

End ConvEncoder.

(** ** Rx_TM/new_rx_chain_v0_epy_block_0.py: the soft Viterbi decoder

    Soft values are modelled by integers.  The decoder is only run here on
    pm1 softs that are exactly +1 or -1; on these every float64 value the
    block computes (squared distances 0 or 4, their sums, and the constant
    1e12) is an integer far below 2^53, so the floating-point arithmetic of
    the source is exact and agrees with the integer arithmetic below. *)

Module Viterbi.

Definition K : Z := 7.
Definition gen0 : Z := 0x79 (* 0o171 *).
Definition gen1 : Z := 0x5B (* 0o133 *).
Definition NSTATES : nat := Z.to_nat (Z.shiftl 1 (K - 1)).
Definition BIG : Z := 10 ^ 12.

Definition _parity_u32 (x : Z) : Z :=
  let v := x in
  let v := Z.lxor v (Z.shiftr v 16) in
  let v := Z.lxor v (Z.shiftr v 8) in
  let v := Z.lxor v (Z.shiftr v 4) in
  let v := Z.land v 0xF in
  Z.land (Z.shiftr 0x6996 v) 1.

(** What [_build_trellis] stores for state [s] and input bit [u]:
    the next state and the two expected output bits. *)
Definition trellis_entry (s u : Z) : Z * (Z * Z) :=
  let maskK := Z.shiftl 1 K - 1 in
  let maskS := Z.shiftl 1 (K - 1) - 1 in
  let full := Z.land (Z.lor (Z.shiftl s 1) u) maskK in
  let ns := Z.land (Z.shiftr full 1) maskS in
  let b0 := _parity_u32 (Z.land full gen0) in
  let b1 := _parity_u32 (Z.land full gen1) in
  (ns, (b0, b1)).

(** [_trellis_ns] and [_trellis_obit], one row per state: the entries for
    [u = 0] and [u = 1]. *)
Definition _trellis : list ((Z * (Z * Z)) * (Z * (Z * Z))) :=
  Eval vm_compute in
    map (fun s => (trellis_entry s 0, trellis_entry s 1)) (rangeZ NSTATES).

(** The rest of the block reads the tables through [self]; they are the
    [trellis] of this section. *)
Section Decoder.
Variable trellis : list ((Z * (Z * Z)) * (Z * (Z * Z))).

Definition trellis_row (s : Z) : (Z * (Z * Z)) * (Z * (Z * Z)) :=
  default ((0, (0, 0)), (0, (0, 0))) (trellis !! Z.to_nat s).

Definition _trellis_ns (s u : Z) : Z :=
  if u =? 0 then (trellis_row s).1.1 else (trellis_row s).2.1.

Definition _trellis_obit (s u k : Z) : Z :=
  let e := if u =? 0 then (trellis_row s).1.2 else (trellis_row s).2.2 in
  if k =? 0 then e.1 else e.2.

Definition _euclid_pair (r0 r1 e0 e1 : Z) : Z :=
  let t0 := if e0 =? 0 then 1 else -1 in
  let t1 := if e1 =? 0 then 1 else -1 in
  let d0 := r0 - t0 in
  let d1 := r1 - t1 in
  d0 * d0 + d1 * d1.

(** The arrays one symbol step writes: [pm_new] and row [t] of
    [prev_state] and [decided_bit]. *)
Record acs : Type := {
  pm_new : list Z;
  prev_row : list Z;
  dec_row : list Z
}.

(** One branch of the add-compare-select step. *)
Definition branch (r0 r1 cost_s s u : Z) (a : acs) : acs :=
  let ns := _trellis_ns s u in
  let e0 := _trellis_obit s u 0 in
  let e1 := _trellis_obit s u 1 in
  let bm := _euclid_pair r0 r1 e0 e1 in
  let c := cost_s + bm in
  if c <? getZ (pm_new a) ns then
    {| pm_new := <[Z.to_nat ns := c]> (pm_new a);
       prev_row := <[Z.to_nat ns := s]> (prev_row a);
       dec_row := <[Z.to_nat ns := u]> (dec_row a) |}
  else a.

(** The body of [for s in range(self.NSTATES)]. *)
Definition state_step (r0 r1 : Z) (pm : list Z) (a : acs) (s : Z) : acs :=
  let cost_s := getZ pm s in
  if BIG <=? cost_s then a
  else branch r0 r1 cost_s s 1 (branch r0 r1 cost_s s 0 a).

(** [for t in range(nsym)]: consumes the softs two at a time; returns the
    final path metrics and the rows of [prev_state] and [decided_bit]. *)
Fixpoint forward (soft_bits : list Z) (pm : list Z) (rows : list (list Z * list Z))
    {struct soft_bits} : list Z * list (list Z * list Z) :=
  match soft_bits with
  | r0 :: r1 :: rest =>
      let a0 := {| pm_new := replicate NSTATES BIG;
                   prev_row := replicate NSTATES 0;
                   dec_row := replicate NSTATES 0 |} in
      let a := fold_left (state_step r0 r1 pm) (rangeZ NSTATES) a0 in
      forward rest (pm_new a) (rows ++ [(prev_row a, dec_row a)])
  | _ => (pm, rows)
  end.

(** [np.argmin]: the first index of the least element. *)
Fixpoint argmin_from (i best_i best : Z) (l : list Z) {struct l} : Z :=
  match l with
  | [] => best_i
  | x :: l' =>
      if x <? best then argmin_from (i + 1) i x l'
      else argmin_from (i + 1) best_i best l'
  end.

Definition argmin (l : list Z) : Z :=
  match l with
  | [] => 0
  | x :: l' => argmin_from 1 0 x l'
  end.

(** [for t in range(nsym-1, -1, -1)]: walks the rows from the last one. *)
Fixpoint traceback (rows_rev : list (list Z * list Z)) (s : Z) (bits : list Z)
    {struct rows_rev} : list Z :=
  match rows_rev with
  | [] => bits
  | (prev, dec) :: rest => traceback rest (getZ prev s) (getZ dec s :: bits)
  end.

(** [_viterbi_soft_decode] with [reset_each_frame=True] and
    [soft_mode="pm1"].  Its last lines pack the decoded bits MSB-first
    with the same code as the encoder's [_bits_to_bytes]. *)
Definition decode (soft_bits : list Z) : list Z :=
  let soft_bits :=
    if Nat.odd (length soft_bits) then slice_to soft_bits (-1) else soft_bits in
  let pm := <[0%nat := 0]> (replicate NSTATES BIG) in
  let '(pm, rows) := forward soft_bits pm [] in
  let end_state := argmin pm in
  let bits_dec := traceback (rev rows) end_state [] in
  ConvEncoder._bits_to_bytes bits_dec.

End Decoder.

(** The decoder of a block, with the tables its [__init__] built. *)
Definition _viterbi_soft_decode (soft_bits : list Z) : list Z :=
  decode _trellis soft_bits.

(** The noiseless channel of the round-trip property: every coded bit [b]
    of the encoded frame becomes the soft value [1 - 2*b]. *)
Definition to_pm1 (coded : list Z) : list Z :=
  map (fun b => 1 - 2 * b) (ConvEncoder._bytes_to_bits coded).

Definition round_trip (B : list Z) : list Z :=
  _viterbi_soft_decode (to_pm1 (ConvEncoder.encode_frame B)).

End Viterbi.

(** ** sync_coding/sync_coding_v0_epy_block_0.py: the TM framer *)

Module TmFramer.

Record params : Type := {
  scid : Z;
  vcid : Z;
  ocf_present : bool;
  frame_len : Z;
  include_fecf : bool;
  idle_fill : Z;
  emit_idle : bool
}.

Definition header_len : Z := 6.
Definition fecf_len (p : params) : Z := if include_fecf p then 2 else 0.
Definition tfdf_len (p : params) : Z := frame_len p - header_len - fecf_len p.

(** [__init__]: masks the identifiers and the idle byte and asserts that
    the frame has room for at least one data byte. *)
Definition make (scid0 vcid0 : Z) (ocf : bool) (frame_len0 : Z) (fecf : bool)
    (idle_fill0 : Z) (emit_idle_when_empty : bool) : result params :=
  let p := {| scid := Z.land scid0 0x3FF; vcid := Z.land vcid0 0x7;
              ocf_present := ocf; frame_len := frame_len0;
              include_fecf := fecf; idle_fill := Z.land idle_fill0 0xFF;
              emit_idle := emit_idle_when_empty |} in
  if header_len + fecf_len p + 1 <=? frame_len0 then Ok p else Raise AssertionError.

(** A queued Space Packet: the dict [{'data', 'pos', 'len'}]. *)
Record spp : Type := {
  data : list Z;
  pos : Z;
  len : Z
}.

Record blk : Type := {
  mc_cnt : Z;
  vc_cnt : Z;
  _inbuf : list Z;
  _pending_tags : list tag;
  _spp_queue : list spp;
  _cur_pkt : option spp
}.

Definition init : blk :=
  {| mc_cnt := 0; vc_cnt := 0; _inbuf := []; _pending_tags := [];
     _spp_queue := []; _cur_pkt := None |}.

Definition crc16_bit (crc : Z) : Z :=
  if negb (Z.land crc 0x8000 =? 0)
  then Z.land (Z.lxor (Z.shiftl crc 1) 0x1021) 0xFFFF
  else Z.land (Z.shiftl crc 1) 0xFFFF.

Definition _crc16_ibm (bytes : list Z) : Z :=
  Z.land
    (fold_left (fun crc b =>
                  Nat.iter 8 crc16_bit (Z.lxor crc (Z.land (Z.shiftl b 8) 0xFFFF)))
               bytes 0xFFFF)
    0xFFFF.

(** [_pack_primary_header(fhp, sync_flag=0, sec_hdr_flag=0,
    pkt_order_flag=0, seg_len_id=0)]. *)
Definition _pack_primary_header (p : params) (b : blk) (fhp : Z) : list Z :=
  let tfvn := 0 in
  let sync_flag := 0 in
  let sec_hdr_flag := 0 in
  let pkt_order_flag := 0 in
  let seg_len_id := 0 in
  let word0 :=
    Z.lor (Z.lor (Z.lor (Z.shiftl (Z.land tfvn 0x3) 14)
                        (Z.shiftl (Z.land (scid p) 0x3FF) 4))
                 (Z.shiftl (Z.land (vcid p) 0x7) 1))
          (if ocf_present p then 1 else 0) in
  let b0 := Z.land (Z.shiftr word0 8) 0xFF in
  let b1 := Z.land (Z.shiftr word0 0) 0xFF in
  let dfs :=
    Z.lor (Z.lor (Z.lor (Z.lor (Z.shiftl (Z.land sec_hdr_flag 1) 15)
                               (Z.shiftl (Z.land sync_flag 1) 14))
                        (Z.shiftl (Z.land pkt_order_flag 1) 13))
                 (Z.shiftl (Z.land seg_len_id 0x3) 11))
          (Z.land fhp 0x7FF) in
  let b4 := Z.land (Z.shiftr dfs 8) 0xFF in
  let b5 := Z.land (Z.shiftr dfs 0) 0xFF in
  [b0; b1; Z.land (mc_cnt b) 0xFF; Z.land (vc_cnt b) 0xFF; b4; b5].

(** The First Header Pointer a frame carries in its bytes 4 and 5. *)
Definition fhp_field (frame : list Z) : Z :=
  Z.land (Z.lor (Z.shiftl (getZ frame 4) 8) (getZ frame 5)) 0x7FF.

Definition _advance_counters (b : blk) : blk :=
  {| mc_cnt := Z.land (mc_cnt b + 1) 0xFF; vc_cnt := Z.land (vc_cnt b + 1) 0xFF;
     _inbuf := _inbuf b; _pending_tags := _pending_tags b;
     _spp_queue := _spp_queue b; _cur_pkt := _cur_pkt b |}.

(** [_collect_spp_tags]: the positive length tags of the window, sorted by
    offset, offsets relative to the window. *)
Definition _collect_spp_tags (tags : list tag) : list tag :=
  filter (fun t => 0 < t.2) (sort_by_offset tags).

(** The loop that carves complete packets out of [_inbuf]; every pass
    removes the head tag or stops. *)
Fixpoint carve (fuel : nat) (inbuf : list Z) (pending : list tag) (queue : list spp)
  : list Z * list tag * list spp :=
  match fuel with
  | O => (inbuf, pending, queue)
  | S fuel' =>
      match pending with
      | [] => (inbuf, pending, queue)
      | (rel_off, L) :: rest =>
          if rel_off <? 0 then carve fuel' inbuf rest queue
          else if Z.of_nat (length inbuf) <? rel_off + L then (inbuf, pending, queue)
          else
            let pkt := slice inbuf rel_off (rel_off + L) in
            carve fuel'
              (slice_from inbuf (rel_off + L))
              (map (fun t : tag => (t.1 - (rel_off + L), t.2)) rest)
              (queue ++ [{| data := pkt; pos := 0; len := L |}])
      end
  end.

(** The local variables of one pass of the frame loop. *)
Record asm : Type := {
  a_tfdf : list Z;
  a_cursor : Z;
  a_header_starts : list Z;
  a_queue : list spp;
  a_cur : option spp
}.

(** Step 1: the continuation of a split packet goes first. *)
Definition place_continuation (p : params) (a : asm) : asm :=
  match a_cur a with
  | None => a
  | Some pkt =>
      let cursor := a_cursor a in
      let rem := len pkt - pos pkt in
      let take := Z.min rem (tfdf_len p - cursor) in
      let '(tfdf, pkt, cursor) :=
        if 0 <? take then
          (set_slice (a_tfdf a) cursor (cursor + take)
                     (slice (data pkt) (pos pkt) (pos pkt + take)),
           {| data := data pkt; pos := pos pkt + take; len := len pkt |},
           cursor + take)
        else (a_tfdf a, pkt, cursor) in
      {| a_tfdf := tfdf; a_cursor := cursor;
         a_header_starts := a_header_starts a; a_queue := a_queue a;
         a_cur := if len pkt <=? pos pkt then None else Some pkt |}
  end.

(** Step 2: [while cursor < self.tfdf_len and self._spp_queue]. *)
Fixpoint place_new (p : params) (queue : list spp) (a : asm) {struct queue} : asm :=
  match queue with
  | [] => a
  | pkt :: rest =>
      let cursor := a_cursor a in
      if negb (cursor <? tfdf_len p) then a
      else
        let header_starts := a_header_starts a ++ [cursor] in
        let L := len pkt in
        let room := tfdf_len p - cursor in
        if L <=? room then
          place_new p rest
            {| a_tfdf := set_slice (a_tfdf a) cursor (cursor + L) (data pkt);
               a_cursor := cursor + L; a_header_starts := header_starts;
               a_queue := rest; a_cur := a_cur a |}
        else
          let take := room in
          if 0 <? take then
            {| a_tfdf := set_slice (a_tfdf a) cursor (cursor + take)
                                   (slice_to (data pkt) take);
               a_cursor := tfdf_len p; a_header_starts := header_starts;
               a_queue := rest;
               a_cur := Some {| data := data pkt; pos := take; len := len pkt |} |}
          else
            {| a_tfdf := a_tfdf a; a_cursor := tfdf_len p;
               a_header_starts := header_starts; a_queue := queue;
               a_cur := a_cur a |}
  end.

(** One emitted frame, with the quantities its header was computed from. *)
Record frame : Type := {
  f_bytes : list Z;
  f_tfdf : list Z;
  f_cursor : Z;
  f_header_starts : list Z;
  f_only_idle : bool;
  f_fhp : Z
}.

(** One pass of [while n_out - produced >= self.frame_len], steps 1 to 7. *)
Definition assemble (p : params) (b : blk) : frame * blk :=
  let a0 := {| a_tfdf := replicate (Z.to_nat (tfdf_len p)) 0; a_cursor := 0;
               a_header_starts := []; a_queue := _spp_queue b;
               a_cur := _cur_pkt b |} in
  let a1 := place_continuation p a0 in
  let a2 := place_new p (a_queue a1) a1 in
  let cursor := a_cursor a2 in
  let only_idle :=
    (cursor <? tfdf_len p) && emit_idle p
    && bool_decide (a_header_starts a2 = []) && bool_decide (a_cur a2 = None)
    && bool_decide (a_queue a2 = []) in
  let tfdf :=
    if only_idle
    then set_slice (a_tfdf a2) cursor (tfdf_len p)
                   (replicate (Z.to_nat (tfdf_len p - cursor)) (idle_fill p))
    else a_tfdf a2 in
  let fhp :=
    if only_idle then 0x7FE
    else match a_header_starts a2 with
         | h :: _ => h
         | [] => 0x7FF
         end in
  let hdr := _pack_primary_header p b fhp in
  let frame_wo_fecf := hdr ++ tfdf in
  let bytes :=
    if include_fecf p then
      let crc := _crc16_ibm frame_wo_fecf in
      frame_wo_fecf ++ [Z.land (Z.shiftr crc 8) 0xFF; Z.land crc 0xFF]
    else frame_wo_fecf in
  ({| f_bytes := bytes; f_tfdf := tfdf; f_cursor := cursor;
      f_header_starts := a_header_starts a2; f_only_idle := only_idle;
      f_fhp := fhp |},
   _advance_counters
     {| mc_cnt := mc_cnt b; vc_cnt := vc_cnt b; _inbuf := _inbuf b;
        _pending_tags := _pending_tags b; _spp_queue := a_queue a2;
        _cur_pkt := a_cur a2 |}).

(** The frame loop.  Every pass adds a frame of at least six bytes to the
    output, so [n_out] passes are never exhausted. *)
Fixpoint frame_loop (fuel : nat) (p : params) (n_out nwritten : Z) (b : blk)
    (frames : list frame) (tags : list tag) (produced : Z)
  : blk * list frame * list tag * Z :=
  match fuel with
  | O => (b, frames, tags, produced)
  | S fuel' =>
      if n_out - produced <? frame_len p then (b, frames, tags, produced)
      else
        let '(f, b') := assemble p b in
        let n := Z.of_nat (length (f_bytes f)) in
        let frames' := frames ++ [f] in
        let tags' := tags ++ [(nwritten + produced, n)] in
        let produced' := produced + n in
        if (f_cursor f =? 0) && negb (emit_idle p)
        then (b', frames', tags', produced')
        else frame_loop fuel' p n_out nwritten b' frames' tags' produced'
  end.

Record work_result : Type := {
  w_blk : blk;
  w_frames : list frame;
  w_tags : list tag;
  w_consumed : Z
}.

Definition w_out (w : work_result) : list Z := concat (map f_bytes (w_frames w)).

(** [general_work] on the input window [inp] with its length tags [tags]
    (offsets relative to the window) and [n_out] items of output space. *)
Definition general_work (p : params) (b : blk) (inp : list Z) (tags : list tag)
    (n_out nwritten : Z) : work_result :=
  if n_out <? frame_len p then
    {| w_blk := b; w_frames := []; w_tags := []; w_consumed := 0 |}
  else
    let inbuf := _inbuf b ++ inp in
    let pending :=
      if (0 <? length inp)%nat then _pending_tags b ++ _collect_spp_tags tags
      else _pending_tags b in
    let '(inbuf, pending, queue) :=
      carve (length pending) inbuf pending (_spp_queue b) in
    let b1 := {| mc_cnt := mc_cnt b; vc_cnt := vc_cnt b; _inbuf := inbuf;
                 _pending_tags := pending; _spp_queue := queue;
                 _cur_pkt := _cur_pkt b |} in
    let '(b2, frames, otags, _) :=
      frame_loop (Z.to_nat n_out) p n_out nwritten b1 [] [] 0 in
    {| w_blk := b2; w_frames := frames; w_tags := otags;
       w_consumed := Z.of_nat (length inp) |}.

End TmFramer.

(** ** sync_coding/default_epy_block_4.py: RS(255,223) with interleaving *)

Module RsEncoder.

Definition N : Z := 255.
Definition K : Z := 223.
Definition NPAR : Z := N - K.

(** The body of the [for i in range(255)] loop of [_gf_init]. *)
Definition gf_init_step (prim : Z) (acc : list Z * list Z * Z) (i : Z)
  : list Z * list Z * Z :=
  let '(exp, log, x) := acc in
  let exp := <[Z.to_nat i := x]> exp in
  let log := <[Z.to_nat x := i]> log in
  let x := Z.shiftl x 1 in
  let x := if negb (Z.land x 0x100 =? 0) then Z.lxor x prim else x in
  (exp, log, x).

Definition _gf_init (prim : Z) : list Z * list Z :=
  let '(exp, log, _) :=
    fold_left (gf_init_step prim) (rangeZ 255)
              (replicate 512 0, replicate 256 (-1), 1) in
  let exp := set_slice exp 255 510 (slice_to exp 255) in
  let exp := set_slice exp 510 512 (slice_to exp 2) in
  (exp, log).

Definition gf_exp : list Z := Eval vm_compute in (_gf_init 0x11D).1.
Definition gf_log : list Z := Eval vm_compute in (_gf_init 0x11D).2.

Definition _gf_add (a b : Z) : Z := Z.lxor a b.

Definition _gf_mul (a b : Z) : Z :=
  if (a =? 0) || (b =? 0) then 0
  else getZ gf_exp (getZ gf_log a + getZ gf_log b).

(** [enumerate(p)]. *)
Definition enumerate (p : list Z) : list (nat * Z) := zip (seq 0 (length p)) p.

(** [r[k] ^= v]. *)
Definition xor_at (r : list Z) (k : nat) (v : Z) : list Z :=
  <[k := Z.lxor (default 0 (r !! k)) v]> r.

(** The inner loop of [_poly_mul] for the coefficient [a] at index [i]. *)
Definition poly_mul_row (q : list Z) (r : list Z) (ia : nat * Z) : list Z :=
  let '(i, a) := ia in
  if a =? 0 then r
  else
    fold_left (fun r (jb : nat * Z) =>
                 let '(j, b) := jb in
                 if b =? 0 then r else xor_at r (i + j) (_gf_mul a b))
              (enumerate q) r.

Definition _poly_mul (p q : list Z) : list Z :=
  fold_left (poly_mul_row q) (enumerate p)
            (replicate (length p + length q - 1) 0).

(** [_poly_add]: the shorter polynomial is padded on the left (the most
    significant side) with zeros. *)
Definition _poly_add (p q : list Z) : list Z :=
  let p' := replicate (length q - length p) 0 ++ p in
  let q' := replicate (length p - length q) 0 ++ q in
  zip_with _gf_add p' q'.

Definition _rs_generator (nsym : nat) : list Z :=
  fold_left (fun g i => _poly_mul g [1; getZ gf_exp i])
            (map (fun i => Z.of_nat i) (seq 1 nsym)) [1].

Definition gen : list Z := Eval vm_compute in _rs_generator (Z.to_nat NPAR).

(** The body of [for d in data] in [_rs_encode_223_255]. *)
Definition rs_step (rem : list Z) (d : Z) : list Z :=
  let coef := Z.lxor d (getZ rem 0) in
  let rem := slice_from rem 1 ++ [0] in
  if negb (coef =? 0) then
    fold_left (fun rem j => xor_at rem j (_gf_mul (getZ gen (Z.of_nat j + 1)) coef))
              (seq 0 (Z.to_nat NPAR)) rem
  else rem.

(** Returns the parity bytes of a 223-byte message. *)
Definition _rs_encode_223_255 (data : list Z) : result (list Z) :=
  if negb (Z.of_nat (length data) =? K) then Raise ValueError
  else Ok (fold_left rs_step data (replicate (Z.to_nat NPAR) 0)).

Record params : Type := {
  I : Z;
  tm_len : Z
}.

(** [__init__]: the input length must be 223*I. *)
Definition make (I0 tm_len0 : Z) : result params :=
  if negb (tm_len0 =? K * I0) then Raise ValueError
  else Ok {| I := I0; tm_len := tm_len0 |}.

(** [a[j::step]] for [step >= 1]: every pass takes one element. *)
Fixpoint strided (fuel step : nat) (l : list Z) : list Z :=
  match fuel with
  | O => []
  | S fuel' =>
      match l with
      | [] => []
      | x :: _ => x :: strided fuel' step (drop step l)
      end
  end.

Definition slice_step (l : list Z) (j step : nat) : list Z :=
  strided (length l) step (drop j l).

(** [branch = tm[j::I]], zero-padded to 223 symbols if it came out short. *)
Definition branch_of (p : params) (tm : list Z) (j : nat) : list Z :=
  let branch := slice_step tm j (Z.to_nat (I p)) in
  if negb (Z.of_nat (length branch) =? K)
  then branch ++ replicate (Z.to_nat (K - Z.of_nat (length branch))) 0
  else branch.

(** [cw = branch + parity] for every branch, in order. *)
Fixpoint encode_branches (branches : list (list Z)) : result (list (list Z)) :=
  match branches with
  | [] => Ok []
  | br :: rest =>
      parity ← _rs_encode_223_255 br;
      cws ← encode_branches rest;
      Ok ((br ++ parity) :: cws)
  end.

(** The multiplexer: [cw0[0], cw1[0], ..., cw{I-1}[0], cw0[1], ...]. *)
Definition multiplex (p : params) (codewords : list (list Z)) : list Z :=
  concat (map (fun sym_idx =>
                 map (fun j => getZ (default [] (codewords !! j)) sym_idx)
                     (seq 0 (Z.to_nat (I p))))
              (rangeZ (Z.to_nat N))).

Record work_result : Type := {
  w_out : list Z;
  w_tags : list tag;
  w_consumed : Z
}.

Definition nothing : work_result := {| w_out := []; w_tags := []; w_consumed := 0 |}.

(** [general_work]; [tags] are the length tags of the input window with
    offsets relative to its first item, [nwritten] is [nitems_written(0)]. *)
Definition general_work (p : params) (inp : list Z) (tags : list tag)
    (n_out nwritten : Z) : result work_result :=
  let n_in := Z.of_nat (length inp) in
  if (n_in =? 0) || (n_out =? 0) then Ok nothing
  else
    match tags with
    | [] => Ok nothing
    | (rel, L) :: _ =>
        if 0 <? rel then Ok {| w_out := []; w_tags := []; w_consumed := rel |}
        else if (L <? tm_len p) || (n_in <? tm_len p) then Ok nothing
        else
          let tm := slice_to inp (tm_len p) in
          let branches := map (branch_of p tm) (seq 0 (Z.to_nat (I p))) in
          codewords ← encode_branches branches;
          let out_len := N * I p in
          if n_out <? out_len then Ok nothing
          else
            Ok {| w_out := multiplex p codewords;
                  w_tags := [(nwritten, out_len)];
                  w_consumed := tm_len p |}
    end.

End RsEncoder.

(** ** Notions used to state the receiver's properties *)

Module ReceiverSpec.
Import Receiver.

(** The bytes MIC detection works on: the data field behind the
    secondary header the receiver split off. *)
Definition user_and_maybe_mic (pkt : list Z) (r : row) : list Z :=
  slice_from (slice_from pkt 6) (r_sec_len r).

(** The receiver expects a MIC for this packet when the secondary-header
    mode is taken from the profiles and the profile of the packet's APID
    sets [use_mic]. *)
Definition profile_expects_mic (sec_mode_cli : string) (apid : Z)
    (apid_map : gmap Z rx_profile) : Prop :=
  sec_mode_cli = "auto"%string /\
  exists prof, apid_map !! apid = Some prof /\ rp_use_mic prof = Some true.

(** A telecommand packet of APID 0x0B3 without secondary header whose
    5-byte data field does not end in its CRC-32C, its parsed header, and a
    profile map in which that APID expects a MIC. *)
Definition ex_pkt : list Z := [0x10; 0xB3; 0xC0; 0x00; 0x00; 0x04; 1; 2; 3; 4; 5].

Definition ex_ph : primary_header :=
  {| ph_version := 0; ph_type := 1; ph_shf := 0; ph_apid := 0xB3;
     ph_seq_flags := 3; ph_seq_count := 0; ph_data_field_len := 4;
     ph_total_len := 11 |}.

Definition ex_map : gmap Z rx_profile :=
  {[ 0xB3 := {| rp_sec_hdr := None; rp_use_mic := Some true |} ]}.

(** The same packet with the secondary-header flag set. *)
Definition ex_pkt_shf : list Z := [0x18; 0xB3; 0xC0; 0x00; 0x00; 0x04; 1; 2; 3; 4; 5].

Definition ex_ph_shf : primary_header :=
  {| ph_version := 0; ph_type := 1; ph_shf := 1; ph_apid := 0xB3;
     ph_seq_flags := 3; ph_seq_count := 0; ph_data_field_len := 4;
     ph_total_len := 11 |}.

End ReceiverSpec.

(** ** Notions used to state the CRC properties *)

Module Crc32cSpec.
Import Crc32c.

(** [U] with bit [k] of its byte [i] flipped. *)
Definition flip_bit (U : list Z) (i : nat) (k : Z) : list Z :=
  alter (fun b => Z.lxor b (Z.shiftl 1 k)) i U.

(** The most significant byte of a 32-bit table entry, and the index of
    the entry that has a given top byte. *)
Definition top_byte (x : Z) : Z := Z.shiftr x 24.

Definition index_of_top (t : Z) : option Z :=
  List.find (fun i => top_byte (getZ _crc32c_table i) =? t) (rangeZ 256).

Definition table_entry_ok (i : Z) : bool :=
  let x := getZ _crc32c_table i in
  (0 <=? x) && (x <? 2 ^ 32)
  && match index_of_top (top_byte x) with
     | Some j => j =? i
     | None => false
     end.

End Crc32cSpec.

(** ** Notions used to state the sender's properties *)

Module SenderSpec.
Import Sender.

(** The user portion of the "MIC OK" scenario: the text and 116 pad bytes. *)
Definition scenario_user : list Z :=
  encode_ascii "0.21/data/" ++ replicate 116 0.

(** The packet the sender builds in that scenario when the clock reads 0. *)
Definition scenario_pkt : list Z :=
  Eval vm_compute in
    match build_packet_for_profile clock0 (fresh cfdp_meta) 0 with
    | Ok (pkt, _, _) => pkt
    | Raise _ => []
    end.

(** The pad byte [build_packet_for_profile] derives from a profile. *)
Definition pad_byte_of (p : profile) : Z :=
  let bspec := default empty_body (p_body p) in
  match b_mode bspec with
  | Some m =>
      if String.eqb m "ascii"
      then default 0 (py_int 16 (default "00"%string (b_pad_byte bspec)))
      else 0
  | None => 0
  end.

(** The data-field length it works with when the profile uses a MIC. *)
Definition data_field_len_of (p : profile) (sec_hdr user_no_mic : list Z) : Z :=
  default (Z.of_nat (length sec_hdr) + Z.of_nat (length user_no_mic) + 4)
          (p_data_field_len p).

End SenderSpec.

(** ** Notions used to state the decoder's properties *)

Module ViterbiSpec.
Import Viterbi.

(** The trellis of the specification: [next_state(s, u) = ((s << 1) | u)
    & 0x3F], with the expected output bits of the source. *)
Definition shifted_entry (s u : Z) : Z * (Z * Z) :=
  (Z.land (Z.lor (Z.shiftl s 1) u) 0x3F, (trellis_entry s u).2).

Definition shifted_trellis : list ((Z * (Z * Z)) * (Z * (Z * Z))) :=
  Eval vm_compute in
    map (fun s => (shifted_entry s 0, shifted_entry s 1)) (rangeZ NSTATES).

End ViterbiSpec.

(** ** Inputs used to exercise the blocks *)

Module Scenarios.

(** A well-formed 7-byte Space Packet (length field 0, one data byte) and
    a 13-byte one (length field 6, seven data bytes). *)
Definition spp7 : list Z := [0x08; 0x01; 0xC0; 0x00; 0x00; 0x00; 0xAA].

Definition spp13 : list Z :=
  [0x08; 0x01; 0xC0; 0x01; 0x00; 0x06; 1; 2; 3; 4; 5; 6; 7].

(** A framer with 16-byte frames (a 10-byte data field), no FECF, idle
    byte 0x55; idle emission on or off. *)
Definition framer (emit_idle_when_empty : bool) : TmFramer.params :=
  {| TmFramer.scid := 0; TmFramer.vcid := 0; TmFramer.ocf_present := false;
     TmFramer.frame_len := 16; TmFramer.include_fecf := false;
     TmFramer.idle_fill := 0x55; TmFramer.emit_idle := emit_idle_when_empty |}.

(** The frame that framer emits when it has no packet at all. *)
Definition zero_frame : TmFramer.frame :=
  {| TmFramer.f_bytes := [0; 0; 0; 0; 0x07; 0xFF] ++ replicate 10 0;
     TmFramer.f_tfdf := replicate 10 0;
     TmFramer.f_cursor := 0;
     TmFramer.f_header_starts := [];
     TmFramer.f_only_idle := false;
     TmFramer.f_fhp := 0x7FF |}.

(** The bytes 0x01 .. 0xFF of the "Viterbi soft decode" scenario. *)
Definition bytes_1_to_255 : list Z := map Z.of_nat (seq 1 255).

End Scenarios.

(** ** Notions used to state the framer's properties *)

Module TmFramerSpec.
Import TmFramer.

(** The bytes of a split packet that are still to be sent. *)
Definition cur_rest (c : option spp) : list Z :=
  match c with
  | Some pkt => drop (Z.to_nat (pos pkt)) (data pkt)
  | None => []
  end.

(** The packet bytes a block still has to put into frames, in order: the
    rest of the packet being continued, then the queued packets. *)
Definition stream_of (b : blk) : list Z :=
  cur_rest (_cur_pkt b) ++ concat (map data (_spp_queue b)).

(** The record of a packet agrees with its bytes. *)
Definition wf_pkt (pkt : spp) : Prop := len pkt = Z.of_nat (length (data pkt)).

(** A packet under continuation has bytes left. *)
Definition wf_cur (pkt : spp) : Prop := wf_pkt pkt /\ 0 <= pos pkt < len pkt.

(** The states [general_work] keeps a block in. *)
Definition wf_blk (b : blk) : Prop :=
  Forall wf_pkt (_spp_queue b) /\
  (forall pkt, _cur_pkt b = Some pkt -> wf_cur pkt) /\
  Forall (fun t : tag => 0 < t.2) (_pending_tags b).

(** The state of an assembly pass: [placed] are the packet bytes put into
    the data field so far, [s0] the byte stream the pass started from. *)
Definition asm_inv (p : params) (s0 placed : list Z) (a : asm) : Prop :=
  a_tfdf a = placed ++ replicate (Z.to_nat (tfdf_len p) - length placed) 0 /\
  a_cursor a = Z.of_nat (length placed) /\
  Z.of_nat (length placed) <= tfdf_len p /\
  placed ++ cur_rest (a_cur a) ++ concat (map data (a_queue a)) = s0 /\
  Forall wf_pkt (a_queue a) /\
  (forall pkt, a_cur a = Some pkt ->
     wf_cur pkt /\ Z.of_nat (length placed) = tfdf_len p).

(** The byte that pads the data field of a frame behind its packet bytes. *)
Definition pad_of (p : params) (f : frame) : Z :=
  if f_only_idle f then idle_fill p else 0.

End TmFramerSpec.

(** ** Notions used to state the RS encoder's properties *)

Module RsEncoderSpec.
Import RsEncoder.

(** The coefficient of [l] at index [k], zero outside the list. *)
Definition at0 (l : list Z) (k : nat) : Z := default 0 (l !! k).

(** What the proofs need of the GF(256) tables and of the generator. *)
Definition gf_tables_ok : bool :=
  forallb (fun x => (0 <=? x) && (x <? 256)) gf_exp
  && (length gf_exp =? 512)%nat
  && forallb (fun a => (0 <=? getZ gf_log a) && (getZ gf_log a <=? 254)) (map Z.of_nat (seq 1 255))
  && forallb (fun c => _gf_mul c 1 =? c) (rangeZ 256)
  && (at0 gen 0 =? 1) && (length gen =? 33)%nat
  && forallb (fun x => (0 <=? x) && (x <? 256)) gen.

(** The coefficient at index [m] of the product of [p], whose first
    coefficient sits at index [s], with [q]. *)
Fixpoint conv (p q : list Z) (s m : nat) {struct p} : Z :=
  match p with
  | [] => 0
  | a :: p' =>
      Z.lxor (if (s <=? m)%nat && (m <? s + length q)%nat
              then _gf_mul a (at0 q (m - s)) else 0)
             (conv p' q (S s) m)
  end.

(** The quotient digits: the coefficient each step eliminates. *)
Fixpoint rs_quotient (rem data : list Z) {struct data} : list Z :=
  match data with
  | [] => []
  | d :: ds => Z.lxor d (getZ rem 0) :: rs_quotient (rs_step rem d) ds
  end.

(** The spec's [sub_j]: [sub_j[n] = frame[n*I + j]] for [n] in [0, 223). *)
Definition sub_sequence (frame : list Z) (I0 j : Z) : list Z :=
  map (fun n => getZ frame (n * I0 + j)) (rangeZ 223).

(** The register [_rs_encode_223_255] returns for a message. *)
Definition parity_of (data : list Z) : list Z :=
  fold_left rs_step data (replicate (Z.to_nat NPAR) 0).

(** Multiplication in GF(256) = GF(2)[x] / (x^8 + x^4 + x^3 + x^2 + 1),
    the field of the primitive polynomial 0x11D, by shift and add: the
    reference the table-driven [_gf_mul] is compared with. *)
Fixpoint shift_add_mul (fuel : nat) (a b acc : Z) {struct fuel} : Z :=
  match fuel with
  | O => acc
  | S fuel' =>
      let acc := if Z.testbit b 0 then Z.lxor acc a else acc in
      let a := Z.shiftl a 1 in
      let a := if Z.testbit a 8 then Z.lxor a 0x11D else a in
      shift_add_mul fuel' a (Z.shiftr b 1) acc
  end.

Definition gf_mul_ref (a b : Z) : Z := shift_add_mul 8 a b 0.

(** Horner evaluation of a polynomial (most significant coefficient
    first) at [x], with the block's arithmetic. *)
Definition poly_eval (p : list Z) (x : Z) : Z :=
  fold_left (fun acc c => _gf_add (_gf_mul acc x) c) p 0.

Definition gf_mul_pair_ok (ab : Z) : bool :=
  _gf_mul (ab / 256) (ab mod 256) =? gf_mul_ref (ab / 256) (ab mod 256).

(** A frame of one codeword: the bytes 0 .. 222, for depth I = 1. *)
Definition params1 : params := {| I := 1; tm_len := 223 |}.

Definition frame223 : list Z := rangeZ 223.

End RsEncoderSpec.

(** ** Notions used to state the randomizer's properties *)

Module RandomizerSpec.
Import Randomizer.

(** The most significant bit of a 15-bit register and its feedback bit,
    bit 14 XOR bit 13 (the taps of x^15 + x^14 + 1). *)
Definition msb15 (s : Z) : Z := Z.b2z (Z.testbit s 14).

Definition feedback (s : Z) : Z := Z.b2z (xorb (Z.testbit s 14) (Z.testbit s 13)).

(** Eight PN bits, most significant first: bit [k] is the register's MSB
    after [k] shifts. *)
Definition pn_byte_msb_first (s : Z) : Z :=
  fold_left (fun acc k => 2 * acc + msb15 (Nat.iter k _step_lfsr s)) (seq 0 8) 0.

Definition lfsr_state_ok (s : Z) : bool :=
  (_step_lfsr s =? (2 * s) mod 32768 + feedback s)
  && (0 <=? _step_lfsr s) && (_step_lfsr s <? 32768)
  && ((_next_pn_byte s).1 =? pn_byte_msb_first s)
  && ((_next_pn_byte s).2 =? Nat.iter 8 _step_lfsr s).

End RandomizerSpec.

Module ReceiverSplit.
Import Receiver.

(** [iter_packets]: the packets the generator yields, in order.  Every
    pass that yields moves [i] forward by at least seven bytes, so
    [length blob] passes are never exhausted. *)
Fixpoint iter_from (fuel : nat) (blob : list Z) (i : Z) {struct fuel}
  : list (list Z * primary_header) :=
  match fuel with
  | O => []
  | S fuel' =>
      if Z.of_nat (length blob) <? i + 6 then []
      else
        match parse_primary_header (slice blob i (i + 6)) with
        | Raise _ => []
        | Ok ph =>
            let end_ := i + ph_total_len ph in
            if Z.of_nat (length blob) <? end_ then []
            else (slice blob i end_, ph) :: iter_from fuel' blob end_
        end
  end.

Definition iter_packets (blob : list Z) : list (list Z * primary_header) :=
  iter_from (length blob) blob 0.

End ReceiverSplit.

(** ** tools/hex_dump.py *)

Module HexDump.
Import Receiver.

Definition parse_primary_header (hdr : list Z) : result primary_header :=
  if (length hdr <? 6)%nat then Raise ValueError
  else
    let w1 := Z.lor (Z.shiftl (getZ hdr 0) 8) (getZ hdr 1) in
    let w2 := Z.lor (Z.shiftl (getZ hdr 2) 8) (getZ hdr 3) in
    let w3 := Z.lor (Z.shiftl (getZ hdr 4) 8) (getZ hdr 5) in
    Ok {| ph_version := Z.land (Z.shiftr w1 13) 0x7;
          ph_type := Z.land (Z.shiftr w1 12) 0x1;
          ph_shf := Z.land (Z.shiftr w1 11) 0x1;
          ph_apid := Z.land w1 0x7FF;
          ph_seq_flags := Z.land (Z.shiftr w2 14) 0x3;
          ph_seq_count := Z.land w2 0x3FFF;
          ph_data_field_len := w3;
          ph_total_len := 6 + (w3 + 1) |}.

End HexDump.

Module L7Spec.
Import Sender Receiver.

(** The receiver's view of a profile of apps.json: both tools read the
    same objects. *)
Definition rx_view (p : profile) : rx_profile :=
  {| rp_sec_hdr :=
       (fun sh => {| rsh_mode := sh_mode sh; rsh_hex := sh_hex sh |}) <$> p_sec_hdr p;
     rp_use_mic := p_use_mic p |}.

(** A byte string that is one whole Space Packet: its header parses and
    announces exactly its length. *)
Definition whole_packet (p : list Z) : Prop :=
  exists ph, parse_primary_header p = Ok ph /\ ph_total_len ph = Z.of_nat (length p).

(** A tail that holds no whole packet: too short for a header, or shorter
    than its header announces. *)
Definition truncated (t : list Z) : Prop :=
  (length t < 6)%nat \/
  exists ph, parse_primary_header t = Ok ph /\ Z.of_nat (length t) < ph_total_len ph.


(** The parsed header of [scenario_pkt], and a receiver map that holds the
    sender's profile under its APID. *)
Definition scenario_ph : primary_header :=
  {| ph_version := 0; ph_type := 1; ph_shf := 1; ph_apid := 0xB3;
     ph_seq_flags := 3; ph_seq_count := 0; ph_data_field_len := 137;
     ph_total_len := 144 |}.

Definition scenario_map : gmap Z rx_profile := {[ 0xB3 := rx_view cfdp_meta ]}.

End L7Spec.

Module SppTaggerSpec.
Import SppTagger.

(** A byte string that is one whole Space Packet as the tagger reads it:
    at least a primary header, and as long as bytes 4 and 5 announce. *)
Definition spp_whole (p : list Z) : Prop :=
  (6 <= length p)%nat /\
  Z.of_nat (length p) = 6 + (Z.lor (Z.shiftl (getZ p 4) 8) (getZ p 5) + 1).

(** The length tags of packets laid end to end from stream offset [a]. *)
Fixpoint packet_tags (a : Z) (pkts : list (list Z)) {struct pkts} : list tag :=
  match pkts with
  | [] => []
  | p :: rest =>
      (a, Z.of_nat (length p)) :: packet_tags (a + Z.of_nat (length p)) rest
  end.

End SppTaggerSpec.

Module TmFramerCheck.
Import TmFramer.

(** The update of the CRC register by one byte, as [_crc16_ibm] does it. *)
Definition crc16_byte (crc b : Z) : Z :=
  Nat.iter 8 crc16_bit (Z.lxor crc (Z.land (Z.shiftl b 8) 0xFFFF)).

(** What a receiver reads back from the six header bytes of a frame. *)
Definition word0 (frame : list Z) : Z :=
  Z.lor (Z.shiftl (getZ frame 0) 8) (getZ frame 1).

Definition tfvn_field (frame : list Z) : Z := Z.land (Z.shiftr (word0 frame) 14) 0x3.
Definition scid_field (frame : list Z) : Z := Z.land (Z.shiftr (word0 frame) 4) 0x3FF.
Definition vcid_field (frame : list Z) : Z := Z.land (Z.shiftr (word0 frame) 1) 0x7.
Definition ocf_flag (frame : list Z) : Z := Z.land (word0 frame) 0x1.
Definition status_flags (frame : list Z) : Z :=
  Z.shiftr (Z.lor (Z.shiftl (getZ frame 4) 8) (getZ frame 5)) 11.


(** The length tags of [m] frames of [F] bytes written from offset [nw]. *)
Definition frame_tags (nw F : Z) (m : nat) : list tag :=
  map (fun k => (nw + F * Z.of_nat k, F)) (seq 0 m).


(** A framer with 16-byte frames that carry a FECF (an 8-byte data field),
    and the frame it emits for the 7-byte packet of [Scenarios]. *)
Definition framer_fecf : params :=
  {| scid := 0x2A; vcid := 3; ocf_present := true; frame_len := 16;
     include_fecf := true; idle_fill := 0x55; emit_idle := true |}.

Definition fecf_frame : frame :=
  Eval vm_compute in
    match w_frames (general_work framer_fecf init Scenarios.spp7 [(0, 7)] 16 0) with
    | f :: _ => f
    | [] => Scenarios.zero_frame
    end.

End TmFramerCheck.

Module RandomizerCheck.
Import Randomizer.

(** The state of a call in which [process_chunk] has copied or masked the
    first [s_cursor] input bytes, one output byte for each. *)
Definition in_step (inp : list Z) (n_out : Z) (s : work_state) : Prop :=
  s_cursor s = produced s /\ s_consumed s = produced s /\
  0 <= s_cursor s <= Z.of_nat (length inp) /\ s_cursor s <= n_out.


End RandomizerCheck.

Module ConvEncoderCheck.
Import ConvEncoder.

(** The eight bits [_bytes_to_bits] makes of one byte. *)
Definition bits8 (byte : Z) : list Z :=
  map (fun sh => Z.land (Z.shiftr byte sh) 1) shifts.

(** The shift register after the encoder has taken [in_bits] from [state]. *)
Definition final_state (state : Z) (in_bits : list Z) : Z :=
  fold_left (fun st b => Z.land (Z.lor (Z.shiftl st 1) (Z.land b 1)) _mask) in_bits state.

End ConvEncoderCheck.

Module ConvWork.
Import ConvEncoder.

(** The buffers and the tag scheduling state of a block. *)
Record blk : Type := {
  _inbuf : list Z;
  _outbuf : list Z;
  _frame_queue : list Z;
  _pending_out_frames : list Z;
  _head_remaining : Z
}.

Definition init : blk :=
  {| _inbuf := []; _outbuf := []; _frame_queue := [];
     _pending_out_frames := []; _head_remaining := 0 |}.

(** [_enqueue_len_tags]: the positive length tags of the window, in the
    order the scheduler lists them. *)
Definition _enqueue_len_tags (b : blk) (tags : list tag) : blk :=
  {| _inbuf := _inbuf b; _outbuf := _outbuf b;
     _frame_queue := _frame_queue b ++ map snd (filter (fun t : tag => 0 < t.2) tags);
     _pending_out_frames := _pending_out_frames b;
     _head_remaining := _head_remaining b |}.

(** [_process_frames_to_outbuf]: every pass takes one length off the
    queue. *)
Fixpoint _process_frames_to_outbuf (fuel : nat) (b : blk) {struct fuel} : blk :=
  match fuel with
  | O => b
  | S fuel' =>
      match _frame_queue b with
      | [] => b
      | need :: rest =>
          if Z.of_nat (length (_inbuf b)) <? need then b
          else
            let frame := slice_to (_inbuf b) need in
            let enc := encode_frame frame in
            _process_frames_to_outbuf fuel'
              {| _inbuf := slice_from (_inbuf b) need;
                 _outbuf := _outbuf b ++ enc;
                 _frame_queue := rest;
                 _pending_out_frames := _pending_out_frames b ++ [Z.of_nat (length enc)];
                 _head_remaining := _head_remaining b |}
      end
  end.

(** The [while space > 0 and self._outbuf] loop of [work]; [out] is
    [out0[:produced]].  Every pass that does not break writes at least one
    byte of [_outbuf]. *)
Fixpoint write_loop (fuel : nat) (ow space : Z) (b : blk) (out : list Z)
    (tags : list tag) {struct fuel} : blk * list Z * list tag :=
  match fuel with
  | O => (b, out, tags)
  | S fuel' =>
      if negb (0 <? space) || (length (_outbuf b) =? 0)%nat then (b, out, tags)
      else
        let produced := Z.of_nat (length out) in
        let started :=
          if _head_remaining b =? 0 then
            match _pending_out_frames b with
            | [] => None
            | h :: _ => Some (h, tags ++ [(ow + produced, h)])
            end
          else Some (_head_remaining b, tags) in
        match started with
        | None => (b, out, tags)
        | Some (head, tags') =>
            let chunk := Z.min space (Z.min head (Z.of_nat (length (_outbuf b)))) in
            if chunk <=? 0 then
              ({| _inbuf := _inbuf b; _outbuf := _outbuf b;
                  _frame_queue := _frame_queue b;
                  _pending_out_frames := _pending_out_frames b;
                  _head_remaining := head |}, out, tags')
            else
              let head' := head - chunk in
              write_loop fuel' ow (space - chunk)
                {| _inbuf := _inbuf b;
                   _outbuf := slice_from (_outbuf b) chunk;
                   _frame_queue := _frame_queue b;
                   _pending_out_frames :=
                     if head' =? 0 then tail (_pending_out_frames b)
                     else _pending_out_frames b;
                   _head_remaining := head' |}
                (out ++ slice_to (_outbuf b) chunk) tags'
        end
  end.

(** The first part of [work]: the input is buffered and whole frames are
    encoded into [_outbuf]. *)
Definition ingest (b : blk) (in0 : list Z) (tags : list tag) : blk :=
  if (0 <? length in0)%nat then
    let b1 := _enqueue_len_tags
                {| _inbuf := _inbuf b ++ in0; _outbuf := _outbuf b;
                   _frame_queue := _frame_queue b;
                   _pending_out_frames := _pending_out_frames b;
                   _head_remaining := _head_remaining b |} tags in
    _process_frames_to_outbuf (length (_frame_queue b1)) b1
  else b.

Record work_result : Type := {
  w_blk : blk;
  w_out : list Z;
  w_tags : list tag;
  w_consumed : Z
}.

(** [work] on the input window [in0] with its length tags, [n_out] items
    of output space and [ow = nitems_written(0)]. *)
Definition work (b : blk) (in0 : list Z) (tags : list tag) (n_out ow : Z)
  : work_result :=
  let b1 := ingest b in0 tags in
  if (length (_outbuf b1) =? 0)%nat then
    {| w_blk := b1; w_out := []; w_tags := [];
       w_consumed := Z.of_nat (length in0) |}
  else
    let '(b2, out, otags) := write_loop (length (_outbuf b1)) ow n_out b1 [] [] in
    {| w_blk := b2; w_out := out; w_tags := otags;
       w_consumed := Z.of_nat (length in0) |}.

End ConvWork.

Module ConvWorkSpec.
Import ConvWork.

(** The length tags of frames of the given lengths laid end to end from
    offset [a]. *)
Fixpoint lens_tags (a : Z) (lens : list Z) {struct lens} : list tag :=
  match lens with
  | [] => []
  | l :: rest => (a, l) :: lens_tags (a + l) rest
  end.

(** The encoded frames in [_outbuf] whose first byte is still to be
    written, and where they start in [_outbuf]. *)
Definition unstarted (b : blk) : list Z :=
  if _head_remaining b =? 0 then _pending_out_frames b
  else tail (_pending_out_frames b).

Definition starts (b : blk) : list tag := lens_tags (_head_remaining b) (unstarted b).

Definition total (lens : list Z) : Z := foldr Z.add 0 lens.

(** The scheduling state agrees with the buffer: [_outbuf] holds the rest
    of the frame being written followed by the frames not yet started. *)
Definition sched_ok (b : blk) : Prop :=
  Forall (fun l => 0 < l) (_pending_out_frames b) /\
  0 <= _head_remaining b /\
  (0 < _head_remaining b -> _pending_out_frames b <> []) /\
  Z.of_nat (length (_outbuf b)) = _head_remaining b + total (unstarted b).

End ConvWorkSpec.

(** * Properties *)

(** ** Python helpers *)

Lemma in_rangeZ (n : nat) (i : Z) : In i (rangeZ n) <-> 0 <= i < Z.of_nat n.
Proof.
  unfold rangeZ. rewrite in_map_iff. split.
  - intros (k & <- & Hk). apply in_seq in Hk. lia.
  - intros H. exists (Z.to_nat i). split; [lia|]. apply in_seq. lia.
Qed.

Lemma all_from_spec (P : Z -> bool) (fuel : nat) :
  forall s i, all_from fuel s P = true -> s <= i < s + Z.of_nat fuel -> P i = true.
Proof.
  induction fuel as [|fuel IH]; intros s i H Hi; [lia|].
  cbn [all_from] in H. apply andb_true_iff in H as [H0 H1].
  destruct (Z.eq_dec i s) as [->|Hne]; [done|].
  apply (IH (s + 1)); [done | lia].
Qed.

Lemma py_bound_nonneg (n : Z) (len : nat) :
  0 <= n -> py_bound n len = Nat.min (Z.to_nat n) len.
Proof. intros H. unfold py_bound. destruct (Z.ltb_spec n 0); [lia | done]. Qed.

Lemma py_bound_len (l : nat) : py_bound (Z.of_nat l) l = l.
Proof. rewrite py_bound_nonneg by lia. lia. Qed.

Lemma slice_full {A} (l : list A) : slice l 0 (Z.of_nat (length l)) = l.
Proof.
  unfold slice. rewrite py_bound_len, py_bound_nonneg by lia.
  simpl. rewrite Nat.sub_0_r. apply firstn_all.
Qed.

Lemma slice_to_nat {A} (l : list A) (n : nat) : slice_to l (Z.of_nat n) = take n l.
Proof.
  unfold slice_to. rewrite py_bound_nonneg by lia. rewrite Nat2Z.id.
  destruct (Nat.le_gt_cases n (length l)).
  - by rewrite Nat.min_l.
  - rewrite Nat.min_r by lia. rewrite !take_ge; [done | lia | lia].
Qed.

Lemma slice_from_nat {A} (l : list A) (n : nat) : slice_from l (Z.of_nat n) = drop n l.
Proof.
  unfold slice_from. rewrite py_bound_nonneg by lia. rewrite Nat2Z.id.
  destruct (Nat.le_gt_cases n (length l)).
  - by rewrite Nat.min_l.
  - rewrite Nat.min_r by lia. rewrite !drop_ge; [done | lia | lia].
Qed.

Example py_int_examples :
  py_int 0 "0x0B3" = Some 179 /\ py_int 16 "00" = Some 0 /\
  py_int 10 " -12 " = Some (-12) /\ py_int 0 "012" = None /\
  py_int 10 "1_000" = Some 1000 /\ py_int 16 "5g" = None.
Proof. vm_compute. repeat split. Qed.

Example fmt_examples :
  fmt_0x08x 0xBEEF = "0x0000beef"%string /\ fmt_dec 120 = "120"%string /\
  fmt_dec 0 = "0"%string /\ fromhex "DEADbeef" = Some [222; 173; 190; 239].
Proof. vm_compute. repeat split. Qed.

(** The check value of CRC-32C: the CRC of the ASCII digits "123456789". *)
Example crc32c_check_value :
  Crc32c.crc32c [49; 50; 51; 52; 53; 54; 55; 56; 57] = 0xE3069283.
Proof. vm_compute. reflexivity. Qed.

(** ** The randomizer (claim C8) *)

Section RandomizerFacts.
Import Randomizer RandomizerSpec.

Lemma xor_pn_cons (lfsr b : Z) (rest : list Z) :
  xor_pn lfsr (b :: rest) =
  (Z.lxor b (_next_pn_byte lfsr).1 :: (xor_pn (_next_pn_byte lfsr).2 rest).1,
   (xor_pn (_next_pn_byte lfsr).2 rest).2).
Proof.
  cbn [xor_pn]. by destruct (xor_pn (_next_pn_byte lfsr).2 rest).
Qed.

Lemma xor_pn_length (bs : list Z) : forall lfsr, length (xor_pn lfsr bs).1 = length bs.
Proof.
  induction bs as [|b bs IH]; intros lfsr; [done|].
  rewrite xor_pn_cons. cbn [fst length]. by rewrite IH.
Qed.

(** The register after a frame depends on its length only, not on the
    bytes that were masked. *)
Lemma xor_pn_state (bs : list Z) :
  forall lfsr bs', length bs' = length bs -> (xor_pn lfsr bs').2 = (xor_pn lfsr bs).2.
Proof.
  induction bs as [|b bs IH]; intros lfsr [|b' bs'] Hlen; try done.
  rewrite !xor_pn_cons. cbn [snd]. apply IH. by injection Hlen.
Qed.

(** XOR with the same PN sequence twice is the identity. *)
Lemma xor_pn_involutive (bs : list Z) :
  forall lfsr, (xor_pn lfsr (xor_pn lfsr bs).1).1 = bs.
Proof.
  induction bs as [|b bs IH]; intros lfsr; [done|].
  rewrite xor_pn_cons. cbn [fst]. rewrite xor_pn_cons. cbn [fst].
  rewrite IH. f_equal.
  rewrite Z.lxor_assoc, Z.lxor_nilpotent. apply Z.lxor_0_r.
Qed.

(** A whole tagged frame through a block that restarts per frame: the
    output is the frame masked with the PN sequence of the seed, whatever
    state the block was in. *)
Lemma randomize_from_xor_pn (p : params) (b : blk) (frame : list Z) :
  restart_per_frame p = true -> enabled p = true ->
  randomize_from p b frame = (xor_pn (seed p) frame).1.
Proof.
  intros Hr He. unfold randomize_from, general_work.
  destruct frame as [|x frame]; [done|].
  set (fr := x :: frame). set (n := Z.of_nat (length fr)).
  assert (Hn : 0 < n) by (unfold n, fr; cbn [length]; lia).
  destruct (Z.eqb_spec n 0) as [|_]; [lia|]. cbn [orb].
  unfold _consume_length_tags.
  rewrite filter_cons_True by (cbn; lia). rewrite filter_nil.
  cbn [sort_by_offset foldr insert_by_offset walk_starts s_cursor].
  rewrite Z.sub_diag. change (0 <? 0) with false. cbn [andb].
  rewrite Hr. unfold produced. cbn [s_out length s_cursor].
  change (Z.of_nat 0) with 0.
  destruct (Z.ltb_spec 0 n) as [_|]; [|lia]. cbn [andb].
  unfold process_chunk, produced. cbn [s_out length s_cursor s_blk _frame_bytes_left _lfsr].
  change (Z.of_nat 0) with 0. rewrite !Z.sub_0_r, Z.min_id, He.
  destruct (Z.leb_spec n 0) as [|_]; [lia|]. cbn [negb orb].
  rewrite Z.min_id, Z.add_0_l, Z.ltb_irrefl.
  unfold n. rewrite slice_full.
  destruct (xor_pn (seed p) fr) as [r l'] eqn:E. cbn [w_out s_out fst].
  by rewrite app_nil_r.
Qed.

(** The PN generator is the 15-bit LFSR of x^15 + x^14 + 1: a step shifts
    the register left and enters bit 14 XOR bit 13; a PN byte is made of
    the register's MSB before each of eight steps, first bit first. *)
Lemma next_pn_byte_msb_first (s : Z) :
  0 <= s < 32768 ->
  _step_lfsr s = (2 * s) mod 32768 + feedback s /\
  0 <= _step_lfsr s < 32768 /\
  _next_pn_byte s = (pn_byte_msb_first s, Nat.iter 8 _step_lfsr s).
Proof.
  intros Hs.
  assert (H : all_from (Z.to_nat 32768) 0 lfsr_state_ok = true)
    by (vm_compute; reflexivity).
  apply (all_from_spec _ _ 0 s) in H; [|lia]. unfold lfsr_state_ok in H.
  rewrite !andb_true_iff, !Z.eqb_eq, Z.leb_le, Z.ltb_lt in H.
  destruct H as [[[[H1 H2] H3] H4] H5].
  split; [done|]. split; [lia|].
  destruct (_next_pn_byte s) as [b l]. cbn [fst snd] in H4, H5. by subst.
Qed.

(** C8. Randomizing a frame twice with the same seed, the PN generator
    being re-seeded at the start of each frame, returns the frame:
    [randomize (randomize frame seed) seed = frame], for every frame and
    every seed. *)
Theorem randomizer_involution (frame : list Z) (seed0 : Z) :
  Randomizer.randomize (Randomizer.randomize frame seed0) seed0 = frame.
Proof.
  unfold randomize. rewrite !randomize_from_xor_pn by done.
  apply xor_pn_involutive.
Qed.

(** The same holds between two blocks in arbitrary prior states (a
    randomizer and a de-randomizer that have each processed other frames
    before): the per-frame restart makes the history irrelevant. *)
Lemma randomizer_involution_any_state (frame : list Z) (seed0 : Z) (b1 b2 : blk) :
  let p := make seed0 true true in
  randomize_from p b2 (randomize_from p b1 frame) = frame.
Proof.
  intros p. rewrite !randomize_from_xor_pn by done. apply xor_pn_involutive.
Qed.

(** The default seed gives the all-ones start of the PN sequence. *)
Example randomize_zeros :
  Randomizer.randomize [0; 0; 0; 0; 0; 0; 0; 0] 0x7FFF = [255; 254; 0; 4; 0; 24; 0; 80].
Proof. vm_compute. reflexivity. Qed.

End RandomizerFacts.

(** ** The receiver (claims C4 and C10) *)

Section ReceiverFacts.
Import Receiver ReceiverSpec.

Lemma decide_sec_mode_expect cli apid apid_map sec_mode mic_expect :
  decide_sec_mode cli apid apid_map = Ok (sec_mode, mic_expect) ->
  mic_expect = Some true <-> profile_expects_mic cli apid apid_map.
Proof.
  unfold decide_sec_mode, profile_expects_mic, expected_sec_mode_and_mic_for_apid.
  destruct (String.eqb_spec cli "auto") as [->|Hne].
  - destruct (apid_map !! apid) as [prof|] eqn:Hp.
    + intros H.
      assert (mic_expect = Some (default false (rp_use_mic prof))) as ->.
      { repeat match type of H with
               | context [if ?c then _ else _] => destruct c
               | context [match ?c with _ => _ end] => destruct c
               end; congruence. }
      split.
      * intros E. split; [done|]. exists prof. split; [done|].
        destruct (rp_use_mic prof) as [[]|]; cbn in E; congruence.
      * intros [_ (prof' & E1 & E2)]. assert (prof' = prof) as -> by congruence.
        by rewrite E2.
    + intros [= <- <-]. split; [done|]. intros [_ (prof & E & _)]. done.
  - intros [= <- <-]. split; [done|]. intros [E _]. done.
Qed.

Lemma process_packet_unfold pkt ph cli mic_mode apid_map sec_mode mic_expect :
  decide_sec_mode cli (ph_apid ph) apid_map = Ok (sec_mode, mic_expect) ->
  let data_field := slice_from pkt 6 in
  let n := configured_sec_len (ph_shf ph) sec_mode in
  let sec_len := if Z.of_nat (length data_field) <? n then 0 else n in
  let m := mic_check mic_mode mic_expect (slice_from data_field sec_len) in
  process_packet pkt ph cli mic_mode apid_map =
  Ok {| r_sec_mode := sec_mode; r_sec_len := sec_len;
        r_sec_hdr := slice_to data_field sec_len;
        r_mic_state := m.1.1; r_mic_hex := m.1.2; r_user := m.2 |}.
Proof.
  intros H. cbv zeta. unfold process_packet. rewrite H. cbn [mbind result_bind].
  by destruct (mic_check _ _ _) as [[? ?] ?].
Qed.

(** C10. When the configured secondary-header length exceeds the length of
    the data field, [process_packet] does not raise: it logs the packet
    with a secondary header of length 0, and MIC detection runs on the
    entire data field. *)
Theorem sec_len_beyond_data_field pkt ph cli mic_mode apid_map sec_mode mic_expect :
  decide_sec_mode cli (ph_apid ph) apid_map = Ok (sec_mode, mic_expect) ->
  Z.of_nat (length (slice_from pkt 6)) < configured_sec_len (ph_shf ph) sec_mode ->
  exists r, process_packet pkt ph cli mic_mode apid_map = Ok r /\
    r_sec_len r = 0 /\ r_sec_hdr r = [] /\
    (r_mic_state r, r_mic_hex r, r_user r) =
      mic_check mic_mode mic_expect (slice_from pkt 6).
Proof.
  intros Hd Hlen. eexists. split; [by apply process_packet_unfold|].
  destruct (Z.ltb_spec (Z.of_nat (length (slice_from pkt 6)))
              (configured_sec_len (ph_shf ph) sec_mode)) as [_|]; [|lia].
  cbn [r_sec_len r_sec_hdr r_mic_state r_mic_hex r_user].
  change 0 with (Z.of_nat 0). rewrite slice_to_nat, slice_from_nat.
  rewrite take_0, drop_0.
  by destruct (mic_check _ _ _) as [[? ?] ?].
Qed.


Lemma process_packet_ok_inv pkt ph cli mic_mode apid_map r :
  process_packet pkt ph cli mic_mode apid_map = Ok r ->
  exists sec_mode mic_expect,
    decide_sec_mode cli (ph_apid ph) apid_map = Ok (sec_mode, mic_expect) /\
    (r_mic_state r, r_mic_hex r, r_user r) =
      mic_check mic_mode mic_expect (user_and_maybe_mic pkt r).
Proof.
  intros H.
  destruct (decide_sec_mode cli (ph_apid ph) apid_map) as [[sm me]|e] eqn:Hd.
  - exists sm, me. split; [done|].
    rewrite (process_packet_unfold _ _ _ _ _ _ _ Hd) in H. cbv zeta in H.
    injection H as <-. unfold user_and_maybe_mic.
    cbn [r_sec_len r_mic_state r_mic_hex r_user].
    by destruct (mic_check _ _ _) as [[? ?] ?].
  - unfold process_packet in H. rewrite Hd in H. discriminate H.
Qed.

Lemma mic_check_off mic_expect uam :
  mic_check "off" mic_expect uam = ("OFF"%string, ""%string, uam).
Proof. done. Qed.

Lemma mic_check_long mic_mode mic_expect uam :
  mic_mode <> "off"%string -> (4 <= length uam)%nat ->
  mic_check mic_mode mic_expect uam =
  let candidate_user := slice_to uam (-4) in
  let candidate_mic := from_bytes_big (slice_from uam (-4)) in
  if candidate_mic =? Crc32c.crc32c candidate_user
  then ("OK"%string, fmt_0x08x candidate_mic, candidate_user)
  else if String.eqb mic_mode "on" || bool_decide (mic_expect = Some true)
       then ("BAD"%string, fmt_0x08x candidate_mic, uam)
       else ("none"%string, ""%string, uam).
Proof.
  intros Hoff Hlen. unfold mic_check.
  destruct (String.eqb_spec mic_mode "off"); [done|].
  destruct (Nat.leb_spec 4 (length uam)); [done | lia].
Qed.

Lemma mic_check_short mic_mode mic_expect uam :
  mic_mode <> "off"%string -> (length uam < 4)%nat ->
  mic_check mic_mode mic_expect uam =
  if String.eqb mic_mode "on" || bool_decide (mic_expect = Some true)
  then ("SHORT"%string, ""%string, uam)
  else ("none"%string, ""%string, uam).
Proof.
  intros Hoff Hlen. unfold mic_check.
  destruct (String.eqb_spec mic_mode "off"); [done|].
  destruct (Nat.leb_spec 4 (length uam)); [lia | done].
Qed.

Lemma expecting_iff cli mic_mode apid apid_map sec_mode mic_expect :
  decide_sec_mode cli apid apid_map = Ok (sec_mode, mic_expect) ->
  String.eqb mic_mode "on" || bool_decide (mic_expect = Some true) = true <->
  mic_mode = "on"%string \/ profile_expects_mic cli apid apid_map.
Proof.
  intros Hd. rewrite orb_true_iff, String.eqb_eq, bool_decide_eq_true.
  by rewrite (decide_sec_mode_expect _ _ _ _ _ Hd).
Qed.

(** C4, as the code has it.  In "off" mode no MIC is inspected.  In any
    other mode, when the data field behind the secondary header has at
    least 4 bytes, the CRC-32C of all but its last 4 bytes is compared
    with the last 4 bytes read big-endian: equality gives state OK and
    reports the bytes before the MIC as the user bytes; inequality gives
    BAD exactly when the mode is "on" or the profile of the APID expects a
    MIC, and "none" otherwise.  With fewer than 4 bytes the state is SHORT
    exactly when the mode is "on" or the profile expects a MIC, and "none"
    otherwise. *)
Theorem mic_detection_policy pkt ph cli mic_mode apid_map r :
  process_packet pkt ph cli mic_mode apid_map = Ok r ->
  let uam := user_and_maybe_mic pkt r in
  let expecting :=
    mic_mode = "on"%string \/ profile_expects_mic cli (ph_apid ph) apid_map in
  let candidate_user := slice_to uam (-4) in
  let candidate_mic := from_bytes_big (slice_from uam (-4)) in
  (mic_mode = "off"%string ->
     r_mic_state r = "OFF"%string /\ r_mic_hex r = ""%string /\ r_user r = uam) /\
  (mic_mode <> "off"%string -> (4 <= length uam)%nat ->
     (candidate_mic = Crc32c.crc32c candidate_user ->
        r_mic_state r = "OK"%string /\ r_user r = candidate_user) /\
     (candidate_mic <> Crc32c.crc32c candidate_user ->
        r_user r = uam /\
        (r_mic_state r = "BAD"%string <-> expecting) /\
        (~ expecting -> r_mic_state r = "none"%string))) /\
  (mic_mode <> "off"%string -> (length uam < 4)%nat ->
     r_user r = uam /\
     (r_mic_state r = "SHORT"%string <-> expecting) /\
     (~ expecting -> r_mic_state r = "none"%string)).
Proof.
  intros H. cbv zeta.
  destruct (process_packet_ok_inv _ _ _ _ _ _ H) as (sm & me & Hd & Hm).
  pose proof (expecting_iff cli mic_mode _ _ _ _ Hd) as Hex.
  set (uam := user_and_maybe_mic pkt r) in *.
  split; [|split].
  - intros ->. rewrite mic_check_off in Hm. by injection Hm as -> -> ->.
  - intros Hoff Hlen. rewrite mic_check_long in Hm by done. cbv zeta in Hm.
    split.
    + intros E. rewrite E, Z.eqb_refl in Hm. by injection Hm as -> _ ->.
    + intros Hne.
      destruct (Z.eqb_spec (from_bytes_big (slice_from uam (-4)))
                           (Crc32c.crc32c (slice_to uam (-4)))); [done|].
      destruct (String.eqb mic_mode "on" || bool_decide (me = Some true)) eqn:Eb;
        injection Hm as -> _ ->; (split; [done|]); split.
      * split; [intros _; by apply Hex | done].
      * intros Hn. exfalso. apply Hn. by apply Hex.
      * split; [done|]. intros He. apply Hex in He. congruence.
      * done.
  - intros Hoff Hlen. rewrite mic_check_short in Hm by done.
    destruct (String.eqb mic_mode "on" || bool_decide (me = Some true)) eqn:Eb;
      injection Hm as -> _ ->; (split; [done|]); split.
    + split; [intros _; by apply Hex | done].
    + intros Hn. exfalso. apply Hn. by apply Hex.
    + split; [done|]. intros He. apply Hex in He. congruence.
    + done.
Qed.

Example ex_headers_parse :
  parse_primary_header ex_pkt = Ok ex_ph /\
  parse_primary_header ex_pkt_shf = Ok ex_ph_shf.
Proof. vm_compute. done. Qed.

Lemma sec_len_beyond_data_field_witness :
  decide_sec_mode "ns8" (ph_apid ex_ph_shf) ∅ = Ok ("ns8"%string, None) /\
  Z.of_nat (length (slice_from ex_pkt_shf 6)) < configured_sec_len (ph_shf ex_ph_shf) "ns8" /\
  exists r, process_packet ex_pkt_shf ex_ph_shf "ns8" "on" ∅ = Ok r /\
    r_sec_len r = 0 /\ r_sec_hdr r = [] /\
    (r_mic_state r, r_mic_hex r, r_user r) =
      mic_check "on" None (slice_from ex_pkt_shf 6).
Proof.
  split; [reflexivity|]. split; [vm_compute; reflexivity|].
  apply (sec_len_beyond_data_field ex_pkt_shf ex_ph_shf "ns8" "on" ∅ "ns8" None);
    [reflexivity | vm_compute; reflexivity].
Defined.

(** The claim that a mismatch is BAD exactly in "on" mode fails: in "auto"
    mode, with the secondary-header mode taken from the profiles, a
    profile that sets [use_mic] makes a mismatch BAD as well. *)
Lemma mic_bad_outside_on_mode :
  exists r, process_packet ex_pkt ex_ph "auto" "auto" ex_map = Ok r /\
    (4 <= length (user_and_maybe_mic ex_pkt r))%nat /\
    from_bytes_big (slice_from (user_and_maybe_mic ex_pkt r) (-4))
      <> Crc32c.crc32c (slice_to (user_and_maybe_mic ex_pkt r) (-4)) /\
    r_mic_state r = "BAD"%string /\
    "auto"%string <> "on"%string.
Proof.
  eexists. split; [vm_compute; reflexivity|].
  split; [vm_compute; lia|]. split; [vm_compute; discriminate|].
  split; [reflexivity | discriminate].
Qed.

Lemma mic_detection_policy_witness :
  exists r, process_packet ex_pkt ex_ph "auto" "auto" ex_map = Ok r /\
    (r_mic_state r = "BAD"%string <->
     "auto"%string = "on"%string \/ profile_expects_mic "auto" (ph_apid ex_ph) ex_map).
Proof.
  eexists. split; [vm_compute; reflexivity|].
  refine (let H := mic_detection_policy ex_pkt ex_ph "auto" "auto" ex_map _ eq_refl in _).
  destruct H as (_ & H & _).
  apply H; [discriminate | vm_compute; lia | vm_compute; discriminate].
Defined.

End ReceiverFacts.

(** ** CRC-32C (claim C7) *)

Section Crc32cFacts.
Import Crc32c Crc32cSpec.

Lemma lxor_range (n a b : Z) :
  0 <= n -> 0 <= a < 2 ^ n -> 0 <= b < 2 ^ n -> 0 <= Z.lxor a b < 2 ^ n.
Proof.
  intros Hn Ha Hb. split; [apply Z.lxor_nonneg; lia|].
  destruct (Z.eq_dec (Z.lxor a b) 0) as [->|Hz]; [lia|].
  assert (0 <= Z.lxor a b) by (apply Z.lxor_nonneg; lia).
  apply Z.log2_lt_pow2; [lia|].
  eapply Z.le_lt_trans; [apply Z.log2_lxor; lia|].
  assert (Hlog : forall x, 0 <= x < 2 ^ n -> x <> 0 -> Z.log2 x < n).
  { intros x Hx Hx0. apply Z.log2_lt_pow2; lia. }
  destruct (Z.eq_dec a 0) as [->|Ha0], (Z.eq_dec b 0) as [->|Hb0].
  - rewrite Z.lxor_0_l in Hz. done.
  - rewrite Z.max_r by (cbn; apply Z.log2_nonneg). by apply Hlog.
  - rewrite Z.max_l by (cbn; apply Z.log2_nonneg). by apply Hlog.
  - apply Z.max_lub_lt; by apply Hlog.
Qed.

Lemma lxor_cancel_l (a x y : Z) : Z.lxor a x = Z.lxor a y -> x = y.
Proof.
  intros H. apply (f_equal (Z.lxor a)) in H.
  by rewrite <- !Z.lxor_assoc, Z.lxor_nilpotent, !Z.lxor_0_l in H.
Qed.

Lemma lxor_cancel_r (a x y : Z) : Z.lxor x a = Z.lxor y a -> x = y.
Proof. rewrite !(Z.lxor_comm _ a). apply lxor_cancel_l. Qed.

Lemma land_lxor_distr (a b m : Z) :
  Z.land (Z.lxor a b) m = Z.lxor (Z.land a m) (Z.land b m).
Proof.
  apply Z.bits_inj'. intros n _.
  rewrite Z.land_spec, !Z.lxor_spec, !Z.land_spec.
  by destruct (Z.testbit a n), (Z.testbit b n), (Z.testbit m n).
Qed.

Lemma land_255 (x : Z) : Z.land x 0xFF = x mod 256.
Proof. change 0xFF with (Z.ones 8). by rewrite Z.land_ones. Qed.

Lemma table_checked : forallb table_entry_ok (rangeZ 256) = true.
Proof. vm_compute. reflexivity. Qed.

Lemma table_entry_facts (i : Z) :
  0 <= i < 256 ->
  0 <= getZ _crc32c_table i < 2 ^ 32 /\
  index_of_top (top_byte (getZ _crc32c_table i)) = Some i.
Proof.
  intros Hi. pose proof table_checked as H.
  rewrite forallb_forall in H. specialize (H i).
  unfold table_entry_ok in H.
  rewrite !andb_true_iff in H. destruct H as [[H1 H2] H3]; [by apply in_rangeZ|].
  split; [lia|].
  destruct (index_of_top _) as [j|]; [|done]. f_equal. lia.
Qed.

(** Two table entries with the same top byte are the same entry. *)
Lemma table_top_injective (i j : Z) :
  0 <= i < 256 -> 0 <= j < 256 ->
  top_byte (getZ _crc32c_table i) = top_byte (getZ _crc32c_table j) -> i = j.
Proof.
  intros Hi Hj E.
  destruct (table_entry_facts i Hi) as [_ Ei], (table_entry_facts j Hj) as [_ Ej].
  rewrite E in Ei. congruence.
Qed.

Lemma crc_index_range (crc b : Z) : 0 <= Z.land (Z.lxor crc b) 0xFF < 256.
Proof. rewrite land_255. apply Z.mod_pos_bound. lia. Qed.

Lemma crc_update_range (crc b : Z) :
  0 <= crc < 2 ^ 32 -> 0 <= crc_update crc b < 2 ^ 32.
Proof.
  intros Hc. unfold crc_update. apply lxor_range; [lia | |].
  - apply table_entry_facts, crc_index_range.
  - rewrite Z.shiftr_div_pow2 by lia. split.
    + apply Z.div_pos; lia.
    + apply Z.div_lt_upper_bound; lia.
Qed.

Lemma top_byte_crc_update (crc b : Z) :
  0 <= crc < 2 ^ 32 ->
  top_byte (crc_update crc b) =
  top_byte (getZ _crc32c_table (Z.land (Z.lxor crc b) 0xFF)).
Proof.
  intros Hc. unfold top_byte, crc_update.
  rewrite Z.shiftr_lxor, Z.shiftr_shiftr by lia.
  rewrite (Z.shiftr_div_pow2 crc) by lia. change (8 + 24) with 32.
  rewrite Z.div_small by lia. apply Z.lxor_0_r.
Qed.

(** The table index and the shifted register determine the register. *)
Lemma crc_update_index_eq (c1 c2 b : Z) :
  0 <= c1 < 2 ^ 32 -> 0 <= c2 < 2 ^ 32 ->
  crc_update c1 b = crc_update c2 b ->
  Z.land (Z.lxor c1 b) 0xFF = Z.land (Z.lxor c2 b) 0xFF /\
  Z.shiftr c1 8 = Z.shiftr c2 8.
Proof.
  intros H1 H2 E.
  assert (Ei : Z.land (Z.lxor c1 b) 0xFF = Z.land (Z.lxor c2 b) 0xFF).
  { apply table_top_injective; [apply crc_index_range..|].
    rewrite <- !top_byte_crc_update by done. by rewrite E. }
  split; [done|]. unfold crc_update in E. rewrite Ei in E.
  by apply lxor_cancel_l in E.
Qed.

(** For a fixed data byte the register update is injective. *)
Lemma crc_update_injective (c1 c2 b : Z) :
  0 <= c1 < 2 ^ 32 -> 0 <= c2 < 2 ^ 32 ->
  crc_update c1 b = crc_update c2 b -> c1 = c2.
Proof.
  intros H1 H2 E.
  destruct (crc_update_index_eq _ _ _ H1 H2 E) as [Ei Es].
  apply (lxor_cancel_r b).
  rewrite !land_255 in Ei.
  assert (Ed : Z.lxor c1 b / 256 = Z.lxor c2 b / 256).
  { change 256 with (2 ^ 8). rewrite <- !Z.shiftr_div_pow2 by lia.
    by rewrite !Z.shiftr_lxor, Es. }
  rewrite (Z.div_mod (Z.lxor c1 b) 256), (Z.div_mod (Z.lxor c2 b) 256) by lia.
  by rewrite Ei, Ed.
Qed.

(** For a fixed register two different bytes give different registers. *)
Lemma crc_update_byte_injective (c b1 b2 : Z) :
  0 <= c < 2 ^ 32 -> is_byte b1 -> is_byte b2 ->
  crc_update c b1 = crc_update c b2 -> b1 = b2.
Proof.
  intros Hc Hb1 Hb2 E. unfold crc_update in E. apply lxor_cancel_r in E.
  assert (Ei : Z.land (Z.lxor c b1) 0xFF = Z.land (Z.lxor c b2) 0xFF).
  { apply table_top_injective; [apply crc_index_range..|]. by rewrite E. }
  rewrite !land_lxor_distr in Ei. apply lxor_cancel_l in Ei.
  rewrite !land_255 in Ei. unfold is_byte in *.
  by rewrite !Z.mod_small in Ei by lia.
Qed.

Lemma crc_fold_range (data : list Z) :
  forall crc, 0 <= crc < 2 ^ 32 -> 0 <= fold_left crc_update data crc < 2 ^ 32.
Proof.
  induction data as [|b data IH]; intros crc Hc; [done|].
  cbn [fold_left]. apply IH. by apply crc_update_range.
Qed.

Lemma crc_fold_injective (data : list Z) :
  forall c1 c2, 0 <= c1 < 2 ^ 32 -> 0 <= c2 < 2 ^ 32 ->
  fold_left crc_update data c1 = fold_left crc_update data c2 -> c1 = c2.
Proof.
  induction data as [|b data IH]; intros c1 c2 H1 H2 E; [done|].
  cbn [fold_left] in E.
  apply IH in E; [|by apply crc_update_range..].
  by apply crc_update_injective in E.
Qed.

Lemma crc32c_range (data : list Z) : 0 <= crc32c data < 2 ^ 32.
Proof.
  unfold crc32c, crc32c_init. apply lxor_range; [lia | | lia].
  apply crc_fold_range. vm_compute. split; [discriminate | reflexivity].
Qed.

Lemma flipped_byte (b k : Z) :
  is_byte b -> 0 <= k < 8 ->
  is_byte (Z.lxor b (Z.shiftl 1 k)) /\ Z.lxor b (Z.shiftl 1 k) <> b.
Proof.
  intros Hb Hk. rewrite Z.shiftl_1_l.
  assert (Hp : 0 < 2 ^ k < 2 ^ 8).
  { split; [apply Z.pow_pos_nonneg; lia | apply Z.pow_lt_mono_r; lia]. }
  split.
  - unfold is_byte in *. change 256 with (2 ^ 8). apply lxor_range; lia.
  - intros E. rewrite <- (Z.lxor_0_r b) in E at 2. apply lxor_cancel_l in E. lia.
Qed.

(** A CRC register fed two byte strings that differ in one bit ends up in
    two different values. *)
Lemma crc_fold_flip (U : list Z) :
  forall (i : nat) (k crc : Z),
    bytes_ok U -> (i < length U)%nat -> 0 <= k < 8 -> 0 <= crc < 2 ^ 32 ->
    fold_left crc_update (flip_bit U i k) crc <> fold_left crc_update U crc.
Proof.
  induction U as [|b U IH]; intros i k crc HU Hi Hk Hc; [cbn in Hi; lia|].
  apply Forall_cons in HU as [Hb HU].
  destruct (flipped_byte b k Hb Hk) as [Hb' Hne].
  destruct i as [|i]; cbn [flip_bit alter list_alter fold_left].
  - intros E. apply crc_fold_injective in E; [|by apply crc_update_range..].
    by apply crc_update_byte_injective in E.
  - apply IH; [done | cbn in Hi; lia | done | by apply crc_update_range].
Qed.

Lemma from_bytes_big_app (l : list Z) (b : Z) :
  from_bytes_big (l ++ [b]) = from_bytes_big l * 256 + b.
Proof. unfold from_bytes_big. by rewrite fold_left_app. Qed.

Lemma from_bytes_big_be_bytes (n : nat) :
  forall x, from_bytes_big (be_bytes n x) = x mod 256 ^ Z.of_nat n.
Proof.
  induction n as [|n IH]; intros x.
  - cbn [be_bytes]. change (256 ^ Z.of_nat 0) with 1. by rewrite Z.mod_1_r.
  - cbn [be_bytes]. rewrite from_bytes_big_app, IH.
    rewrite Nat2Z.inj_succ, Z.pow_succ_r by lia.
    rewrite Z.rem_mul_r by lia. lia.
Qed.

Lemma be_bytes_length (n : nat) : forall x, length (be_bytes n x) = n.
Proof.
  induction n as [|n IH]; intros x; [done|].
  cbn [be_bytes]. rewrite length_app, IH. cbn. lia.
Qed.

Lemma be_u32_crc32c (U : list Z) : be_u32 (crc32c U) = Ok (be_bytes 4 (crc32c U)).
Proof.
  unfold be_u32. pose proof (crc32c_range U).
  destruct (Z.leb_spec 0 (crc32c U)), (Z.ltb_spec (crc32c U) (2 ^ 32)); done || lia.
Qed.

End Crc32cFacts.

(** ** The sender (claims C3 and C7) *)

Section SenderFacts.
Import Crc32c Crc32cSpec Sender SenderSpec.

Lemma bind_ok_inv {A B} (r : result A) (k : A -> result B) (b : B) :
  r ≫= k = Ok b -> exists a, r = Ok a /\ k a = Ok b.
Proof. destruct r as [a|e]; [by exists a | done]. Qed.

Lemma pack_primary_header_length v t shf apid sf sc len hdr :
  pack_primary_header v t shf apid sf sc len = Ok hdr -> length hdr = 6%nat.
Proof.
  unfold pack_primary_header. cbv zeta.
  repeat match goal with |- context [if ?c then _ else _] => destruct c end;
    try discriminate.
  by intros [= <-].
Qed.

Lemma slice_from_last4 (xs four : list Z) :
  length four = 4%nat -> slice_from (xs ++ four) (-4) = four.
Proof.
  intros H4. unfold slice_from, py_bound. cbn [Z.ltb Z.compare].
  rewrite length_app, H4.
  replace (Z.to_nat (Z.max 0 (Z.of_nat (length xs + 4) + -4))) with (length xs) by lia.
  by rewrite drop_app_length.
Qed.

(** What a MIC-carrying packet is made of: header, secondary header, the
    padded user bytes [U], and the big-endian CRC-32C of [U] alone. *)
Lemma build_packet_with_mic e ps counter pkt total mic_hex :
  p_use_mic (prof ps) = Some true ->
  build_packet_for_profile e ps counter = Ok (pkt, total, mic_hex) ->
  exists hdr sec_hdr user_no_mic U,
    make_sec_hdr e (default empty_sec_hdr (p_sec_hdr (prof ps))) = Ok sec_hdr /\
    body_from_spec e (default empty_body (p_body (prof ps))) counter = Ok user_no_mic /\
    pad_or_truncate_to_len user_no_mic
      (data_field_len_of (prof ps) sec_hdr user_no_mic - Z.of_nat (length sec_hdr) - 4)
      (pad_byte_of (prof ps)) = Ok U /\
    length hdr = 6%nat /\
    pkt = hdr ++ sec_hdr ++ U ++ be_bytes 4 (crc32c U).
Proof.
  intros Hmic H. unfold build_packet_for_profile in H.
  apply bind_ok_inv in H as (apid & _ & H).
  apply bind_ok_inv in H as (sec_hdr & Hsec & H).
  apply bind_ok_inv in H as (user_no_mic & Hbody & H).
  rewrite Hmic in H. cbn [default] in H.
  fold (pad_byte_of (prof ps)) in H.
  fold (data_field_len_of (prof ps) sec_hdr user_no_mic) in H.
  destruct (_ <? 0); [discriminate H|].
  apply bind_ok_inv in H as (U & HU & H).
  rewrite be_u32_crc32c in H.
  apply bind_ok_inv in H as ([user mh] & Hum & H).
  injection Hum as <- <-.
  apply bind_ok_inv in H as (hdr & Hhdr & H).
  injection H as <- _ _.
  exists hdr, sec_hdr, user_no_mic, U.
  repeat split; try done. by apply pack_primary_header_length in Hhdr.
Qed.

(** C7. The MIC the sender appends is the CRC-32C of the padded user
    bytes alone (the packet is header, secondary header, user bytes [U],
    then [crc32c U] as 4 big-endian bytes, and reading those 4 bytes back
    gives [crc32c U]); and flipping any one bit of a byte string changes
    its CRC-32C. *)
Theorem mic_closure :
  (forall e ps counter pkt total mic_hex,
     p_use_mic (prof ps) = Some true ->
     build_packet_for_profile e ps counter = Ok (pkt, total, mic_hex) ->
     exists hdr sec_hdr user_no_mic U,
       make_sec_hdr e (default empty_sec_hdr (p_sec_hdr (prof ps))) = Ok sec_hdr /\
       body_from_spec e (default empty_body (p_body (prof ps))) counter
         = Ok user_no_mic /\
       pad_or_truncate_to_len user_no_mic
         (data_field_len_of (prof ps) sec_hdr user_no_mic
          - Z.of_nat (length sec_hdr) - 4)
         (pad_byte_of (prof ps)) = Ok U /\
       length hdr = 6%nat /\
       pkt = hdr ++ sec_hdr ++ U ++ be_bytes 4 (crc32c U) /\
       from_bytes_big (slice_from pkt (-4)) = crc32c U) /\
  (forall U i k,
     bytes_ok U -> (i < length U)%nat -> 0 <= k < 8 ->
     crc32c (flip_bit U i k) <> crc32c U).
Proof.
  split.
  - intros e ps counter pkt total mic_hex Hmic H.
    destruct (build_packet_with_mic _ _ _ _ _ _ Hmic H)
      as (hdr & sec_hdr & user_no_mic & U & H1 & H2 & H3 & H4 & ->).
    exists hdr, sec_hdr, user_no_mic, U. repeat split; try done.
    rewrite !app_assoc, slice_from_last4 by apply be_bytes_length.
    rewrite from_bytes_big_be_bytes. apply Z.mod_small, crc32c_range.
  - intros U i k HU Hi Hk E. unfold crc32c, crc32c_init in E.
    apply lxor_cancel_r in E. revert E. by apply crc_fold_flip.
Qed.

Lemma scenario_pkt_built :
  build_packet_for_profile clock0 (fresh cfdp_meta) 0
  = Ok (scenario_pkt, 144, "0x9ecdd49d"%string).
Proof. vm_compute. reflexivity. Qed.

Lemma mic_closure_witness :
  p_use_mic (prof (fresh cfdp_meta)) = Some true /\
  (exists hdr sec_hdr U,
     length hdr = 6%nat /\
     scenario_pkt = hdr ++ sec_hdr ++ U ++ be_bytes 4 (crc32c U) /\
     from_bytes_big (slice_from scenario_pkt (-4)) = crc32c U) /\
  bytes_ok [0x31; 0x32; 0x33] /\
  crc32c (flip_bit [0x31; 0x32; 0x33] 1 0) <> crc32c [0x31; 0x32; 0x33].
Proof.
  split; [reflexivity|]. split.
  - destruct (proj1 mic_closure clock0 (fresh cfdp_meta) 0 _ _ _ eq_refl
                scenario_pkt_built)
      as (hdr & sec & body & U & _ & _ & _ & H1 & H2 & H3).
    by exists hdr, sec, U.
  - assert (Hb : bytes_ok [0x31; 0x32; 0x33])
      by (repeat constructor; unfold is_byte; lia).
    split; [exact Hb|].
    apply (proj2 mic_closure [0x31; 0x32; 0x33] 1%nat 0 Hb); [cbn; lia | lia].
Defined.

Lemma length_8_inv (l : list Z) :
  length l = 8%nat -> exists a b c d e f g h, l = [a; b; c; d; e; f; g; h].
Proof.
  intros H. do 8 (destruct l as [|? l]; [discriminate H|]).
  destruct l; [|discriminate H]. by eexists _, _, _, _, _, _, _, _.
Qed.

(** C3, as the code has it.  For the "MIC OK" profile at sequence count 0
    and any clock reading that fits 64 bits, the sender builds a 144-byte
    packet: primary header 0x18 0xB3 0xC0 0x00 0x00 0x89, the 8 bytes of
    the time tag, the text followed by 116 zero bytes, and the big-endian
    CRC-32C of these 126 user bytes as the last 4 bytes. *)
Theorem cfdp_meta_packet (e : env) (counter : Z) :
  0 <= time_ns e < 2 ^ 64 ->
  exists pkt mic_hex,
    build_packet_for_profile e (fresh cfdp_meta) counter = Ok (pkt, 144, mic_hex) /\
    length pkt = 144%nat /\
    take 6 pkt = [0x18; 0xB3; 0xC0; 0x00; 0x00; 0x89] /\
    take 8 (drop 6 pkt) = be_bytes 8 (time_ns e) /\
    take 126 (drop 14 pkt) = scenario_user /\
    drop 140 pkt = be_bytes 4 (crc32c scenario_user).
Proof.
  intros Ht.
  assert (Hsec : make_sec_hdr e (default empty_sec_hdr (p_sec_hdr cfdp_meta))
                 = Ok (be_bytes 8 (time_ns e))).
  { cbn. unfold make_time_tag_ns8, be_u64.
    destruct (Z.leb_spec 0 (time_ns e)), (Z.ltb_spec (time_ns e) (2 ^ 64));
      done || lia. }
  destruct (length_8_inv (be_bytes 8 (time_ns e)) (be_bytes_length 8 _))
    as (a & b & c & d & f & g & h & i & Hb).
  rewrite Hb in *.
  unfold build_packet_for_profile. cbn [prof fresh]. rewrite Hsec.
  eexists _, _. split; [vm_compute; reflexivity|].
  vm_compute. repeat split.
Qed.

Lemma cfdp_meta_packet_witness :
  0 <= time_ns clock0 < 2 ^ 64 /\
  exists pkt mic_hex,
    build_packet_for_profile clock0 (fresh cfdp_meta) 0 = Ok (pkt, 144, mic_hex) /\
    length pkt = 144%nat /\
    take 6 pkt = [0x18; 0xB3; 0xC0; 0x00; 0x00; 0x89] /\
    take 8 (drop 6 pkt) = be_bytes 8 (time_ns clock0) /\
    take 126 (drop 14 pkt) = scenario_user /\
    drop 140 pkt = be_bytes 4 (crc32c scenario_user).
Proof.
  assert (H : 0 <= time_ns clock0 < 2 ^ 64) by (cbn; lia).
  split; [exact H|]. exact (cfdp_meta_packet clock0 0 H).
Defined.

(** The primary header of that packet is not 0x1A 0xB3 0xC0 0x00 0x00 0x89:
    with version 0, type 1, secondary-header flag 1 and APID 0x0B3 the
    first header word is 0x18B3. *)
Lemma cfdp_meta_header_is_18B3 :
  build_packet_for_profile clock0 (fresh cfdp_meta) 0
    = Ok (scenario_pkt, 144, "0x9ecdd49d"%string) /\
  take 6 scenario_pkt = [0x18; 0xB3; 0xC0; 0x00; 0x00; 0x89] /\
  take 6 scenario_pkt <> [0x1A; 0xB3; 0xC0; 0x00; 0x00; 0x89].
Proof. split; [vm_compute; reflexivity|]. split; [reflexivity | discriminate]. Qed.

End SenderFacts.

(** ** The convolutional code and the Viterbi decoder (claim C1) *)

Section ViterbiFacts.
Import Viterbi ViterbiSpec Scenarios.

(** The trellis that [_build_trellis] tabulates never leaves a state: the
    next state is computed as [(full >> 1) & maskS], which is [s] again. *)
Lemma trellis_ns_is_current_state (s u : Z) :
  0 <= s < 64 -> u = 0 \/ u = 1 -> _trellis_ns _trellis s u = s.
Proof.
  intros Hs Hu.
  assert (H : forallb (fun s => (_trellis_ns _trellis s 0 =? s)
                                && (_trellis_ns _trellis s 1 =? s))
                      (rangeZ 64) = true) by (vm_compute; reflexivity).
  rewrite forallb_forall in H. specialize (H s).
  rewrite andb_true_iff, !Z.eqb_eq in H.
  destruct H as [H0 H1]; [apply in_rangeZ; lia|].
  by destruct Hu as [-> | ->].
Qed.

(** The frame 0x80 is coded as 11 01 00 11 11 10 11 00. *)
Example conv_encode_0x80 : ConvEncoder.encode_frame [0x80] = [0xD3; 0xEC].
Proof. vm_compute. reflexivity. Qed.

(** C1 at the frame [0x80]: the decoder returns 0x9A for the noiseless
    encoding of 0x80, so the round trip does not return the frame. *)
Theorem viterbi_round_trip_0x80 : Viterbi.round_trip [0x80] = [0x9A].
Proof. vm_compute. reflexivity. Qed.

(** The "Viterbi soft decode" scenario fails in its first bytes already. *)
Lemma viterbi_round_trip_scenario :
  take 4 (Viterbi.round_trip bytes_1_to_255) = [0x01; 0x36; 0x6A; 0x40] /\
  take 4 bytes_1_to_255 = [0x01; 0x02; 0x03; 0x04].
Proof. vm_compute. done. Qed.

(** With the next state of the specification in the tables, and nothing
    else changed, the same decoder recovers the frame 0x80 and the first
    32 bytes of the scenario. *)
Example shifted_trellis_round_trips :
  decode shifted_trellis (to_pm1 (ConvEncoder.encode_frame [0x80])) = [0x80] /\
  decode shifted_trellis (to_pm1 (ConvEncoder.encode_frame (take 32 bytes_1_to_255)))
    = take 32 bytes_1_to_255.
Proof. vm_compute. done. Qed.

End ViterbiFacts.

(** ** The SPP length tagger (claim C9) *)

Section SppTaggerFacts.
Import SppTagger Scenarios.

(** A packet delivered whole, with room for it, is copied and tagged once,
    at its first byte, with its total length. *)
Example tagger_whole_packet :
  let w := general_work init (spp7 ++ spp13) 100 in
  w_out w = spp7 ++ spp13 /\ w_tags w = [(0, 7); (7, 13)] /\ _buf (w_blk w) = [].
Proof. vm_compute. done. Qed.

(** C9 at a packet that the scheduler delivers in two windows (3 bytes,
    then 4): both parts are copied to the output by the final "spill" of
    each call, and no length tag is emitted at all. *)
Theorem tagger_split_packet_untagged :
  let w1 := SppTagger.general_work SppTagger.init (take 3 spp7) 100 in
  let w2 := SppTagger.general_work (w_blk w1) (drop 3 spp7) 100 in
  w_out w1 ++ w_out w2 = spp7 /\ w_tags w1 ++ w_tags w2 = [].
Proof. vm_compute. done. Qed.

End SppTaggerFacts.

(** ** The TM framer (claims C5 and C6) *)

Section TmFramerFacts.
Import TmFramer TmFramerSpec Scenarios.

(** C5 at a 13-byte packet and a 10-byte data field, idle emission
    enabled: the second frame carries the last 3 bytes of the packet and
    then idle bytes, starts no packet, and has First Header Pointer 0x7FE,
    the Only-Idle-Data value, instead of 0x7FF. *)
Theorem framer_fhp_after_continuation :
  let w := TmFramer.general_work (framer true) TmFramer.init spp13 [(0, 13)] 32 0 in
  exists f1 f2,
    w_frames w = [f1; f2] /\
    f_tfdf f1 = take 10 spp13 /\ fhp_field (f_bytes f1) = 0 /\
    f_tfdf f2 = drop 10 spp13 ++ replicate 7 0x55 /\
    f_header_starts f2 = [] /\
    fhp_field (f_bytes f2) = 0x7FE.
Proof. vm_compute. eexists _, _. repeat split. Qed.

(** The claim that a data field holds nothing but packet bytes and idle
    fill fails: with idle emission disabled and no packet queued, a call
    with room for a frame emits one whose data field is ten zero bytes,
    none of them a packet byte, while the idle byte is 0x55. *)
Lemma framer_zero_filled_frame :
  let w := TmFramer.general_work (framer false) TmFramer.init [] [] 16 0 in
  exists f,
    w_frames w = [f] /\ f_cursor f = 0 /\ f_tfdf f = replicate 10 0 /\
    idle_fill (framer false) = 0x55.
Proof. vm_compute. eexists. repeat split. Qed.

(** Zero padding also follows a packet that ends inside a frame, even
    when idle emission is enabled. *)
Example framer_zero_padding_after_packet :
  let w := general_work (framer true) init spp7 [(0, 7)] 16 0 in
  map f_tfdf (w_frames w) = [spp7 ++ [0; 0; 0]].
Proof. vm_compute. reflexivity. Qed.

(** *** Packet bytes, then padding: the layout of every data field *)

Lemma set_slice_fill (placed v : list Z) (n : nat) (x : Z) :
  (length placed + length v <= n)%nat ->
  set_slice (placed ++ replicate (n - length placed) x)
            (Z.of_nat (length placed))
            (Z.of_nat (length placed) + Z.of_nat (length v)) v
  = (placed ++ v) ++ replicate (n - length (placed ++ v)) x.
Proof.
  intros Hn. unfold set_slice.
  rewrite length_app, length_replicate.
  rewrite !py_bound_nonneg by lia.
  replace (Nat.min (Z.to_nat (Z.of_nat (length placed))) _) with (length placed) by lia.
  replace (Nat.min (Z.to_nat (Z.of_nat (length placed) + Z.of_nat (length v))) _)
    with (length placed + length v)%nat by lia.
  rewrite Nat.max_r by lia.
  rewrite take_app_length, drop_app_add, drop_replicate, length_app.
  rewrite <- app_assoc. do 3 f_equal. lia.
Qed.

Lemma slice_length {A} (l : list A) (a k : Z) :
  0 <= a -> 0 <= k -> a + k <= Z.of_nat (length l) ->
  length (slice l a (a + k)) = Z.to_nat k.
Proof.
  intros Ha Hk Hl. unfold slice. rewrite !py_bound_nonneg by lia.
  rewrite length_take, length_drop. lia.
Qed.

Lemma slice_as_take_drop {A} (l : list A) (a k : Z) :
  0 <= a -> 0 <= k -> a + k <= Z.of_nat (length l) ->
  slice l a (a + k) = take (Z.to_nat k) (drop (Z.to_nat a) l).
Proof.
  intros Ha Hk Hl. unfold slice. rewrite !py_bound_nonneg by lia.
  f_equal; [lia | f_equal; lia].
Qed.

Lemma place_continuation_inv (p : params) (b : blk) :
  1 <= tfdf_len p -> wf_blk b ->
  exists placed,
    asm_inv p (stream_of b) placed
      (place_continuation p
         {| a_tfdf := replicate (Z.to_nat (tfdf_len p)) 0; a_cursor := 0;
            a_header_starts := []; a_queue := _spp_queue b;
            a_cur := _cur_pkt b |}) /\
    a_header_starts
      (place_continuation p
         {| a_tfdf := replicate (Z.to_nat (tfdf_len p)) 0; a_cursor := 0;
            a_header_starts := []; a_queue := _spp_queue b;
            a_cur := _cur_pkt b |}) = [] /\
    a_queue
      (place_continuation p
         {| a_tfdf := replicate (Z.to_nat (tfdf_len p)) 0; a_cursor := 0;
            a_header_starts := []; a_queue := _spp_queue b;
            a_cur := _cur_pkt b |}) = _spp_queue b.
Proof.
  intros Hn (Hq & Hc & _). unfold place_continuation, stream_of. cbn [a_cur].
  destruct (_cur_pkt b) as [pkt|] eqn:Ecur.
  - destruct (Hc pkt eq_refl) as [Hwf Hpos]. unfold wf_pkt in Hwf.
    cbn [a_cursor a_tfdf a_header_starts a_queue]. rewrite Z.sub_0_r.
    set (take := Z.min (len pkt - pos pkt) (tfdf_len p)).
    assert (Htake : 0 < take) by (unfold take; lia).
    destruct (Z.ltb_spec 0 take) as [_|]; [|lia].
    set (v := slice (data pkt) (pos pkt) (pos pkt + take)).
    assert (Hv : length v = Z.to_nat take)
      by (unfold v; apply slice_length; unfold take; lia).
    exists v. cbn [pos len data]. split; [|done].
    unfold asm_inv. cbn [a_tfdf a_cursor a_cur a_queue].
    split; [|split; [|split; [|split; [|split]]]].
    + pose proof (set_slice_fill [] v (Z.to_nat (tfdf_len p)) 0) as H.
      cbn [length app] in H. rewrite Nat.sub_0_r in H.
      change (Z.of_nat 0) with 0 in H. rewrite Hv in H.
      rewrite Z2Nat.id in H by lia.
      rewrite H by (unfold take; lia). by rewrite Hv.
    + rewrite Hv. lia.
    + rewrite Hv. unfold take. lia.
    + unfold v. rewrite slice_as_take_drop by (unfold take; lia).
      destruct (Z.leb_spec (len pkt) (pos pkt + take)) as [Hfin|Hmore].
      * cbn [cur_rest app]. rewrite take_ge; [done|].
        rewrite length_drop. unfold take in *. lia.
      * cbn [cur_rest pos data]. rewrite app_assoc. f_equal.
        replace (Z.to_nat (pos pkt + take))
          with (Z.to_nat (pos pkt) + Z.to_nat take)%nat by lia.
        rewrite <- drop_drop. apply take_drop.
    + done.
    + intros pkt' Hp'.
      destruct (Z.leb_spec (len pkt) (pos pkt + take)) as [Hfin|Hmore]; [done|].
      injection Hp' as <-. unfold wf_cur, wf_pkt. cbn [pos len data].
      rewrite Hv. unfold take in *. lia.
  - exists []. split; [|done]. unfold asm_inv.
    cbn [a_tfdf a_cursor a_cur a_queue cur_rest length app].
    rewrite Nat.sub_0_r. repeat split; try done; lia.
Qed.

Lemma place_new_inv (p : params) (s0 : list Z) (queue : list spp) :
  forall a placed,
    1 <= tfdf_len p -> a_queue a = queue -> asm_inv p s0 placed a ->
    exists placed', asm_inv p s0 placed' (place_new p queue a).
Proof.
  induction queue as [|pkt rest IH]; intros a placed Hn Hq Hinv;
    [by exists placed|].
  cbn [place_new].
  destruct Hinv as (Htf & Hcur & Hle & Hs & Hwq & Hc).
  destruct (Z.ltb_spec (a_cursor a) (tfdf_len p)) as [Hroom|Hfull];
    cbn [negb]; [|by exists placed].
  assert (Hnone : a_cur a = None).
  { destruct (a_cur a) as [c|] eqn:E; [|done]. destruct (Hc c eq_refl). lia. }
  rewrite Hq in Hwq, Hs. apply Forall_cons in Hwq as [Hwp Hwr].
  unfold wf_pkt in Hwp. rewrite Hnone in Hs. cbn [cur_rest map concat app] in Hs.
  destruct (Z.leb_spec (len pkt) (tfdf_len p - a_cursor a)) as [Hfit|Hsplit].
  - apply (IH _ (placed ++ data pkt)); [done | done|].
    unfold asm_inv. cbn [a_tfdf a_cursor a_cur a_queue].
    rewrite Htf, Hcur, Hwp, set_slice_fill by lia.
    rewrite Hnone. cbn [cur_rest app].
    rewrite length_app, <- app_assoc.
    rewrite Hcur in Hfit.
    split; [done|]. split; [lia|]. split; [lia|].
    split; [by rewrite <- app_assoc|]. by split.
  - destruct (Z.ltb_spec 0 (tfdf_len p - a_cursor a)) as [_|]; [|lia].
    set (room := tfdf_len p - a_cursor a) in *.
    assert (Hv : length (slice_to (data pkt) room) = Z.to_nat room).
    { replace room with (Z.of_nat (Z.to_nat room)) at 1 by lia.
      rewrite slice_to_nat, length_take. lia. }
    exists (placed ++ slice_to (data pkt) room).
    unfold asm_inv. cbn [a_tfdf a_cursor a_cur a_queue cur_rest pos data len].
    rewrite length_app, Hv.
    split; [|split; [|split; [|split; [|split]]]].
    + rewrite Htf, Hcur.
      pose proof (set_slice_fill placed (slice_to (data pkt) room)
                    (Z.to_nat (tfdf_len p)) 0) as H.
      rewrite Hv, length_app, Hv in H. rewrite Z2Nat.id in H by lia.
      apply H. unfold room. lia.
    + unfold room. lia.
    + unfold room. lia.
    + rewrite <- Hs, <- !app_assoc. f_equal. rewrite app_assoc. f_equal.
      replace room with (Z.of_nat (Z.to_nat room)) at 1 by lia.
      rewrite slice_to_nat. apply take_drop.
    + done.
    + intros pkt' [= <-]. unfold wf_cur, wf_pkt. cbn [pos len data].
      unfold room. lia.
Qed.

(** One assembly pass: the data field is the next packet bytes of the
    stream followed by padding, and the block stays well formed. *)
Lemma assemble_layout (p : params) (b : blk) :
  1 <= tfdf_len p -> wf_blk b ->
  exists placed,
    let f := (assemble p b).1 in
    let b' := (assemble p b).2 in
    f_tfdf f = placed ++ replicate (Z.to_nat (tfdf_len p) - length placed) (pad_of p f) /\
    f_cursor f = Z.of_nat (length placed) /\
    Z.of_nat (length placed) <= tfdf_len p /\
    placed ++ stream_of b' = stream_of b /\
    wf_blk b'.
Proof.
  intros Hn Hwf.
  destruct (place_continuation_inv p b Hn Hwf) as (pl1 & Hinv1 & _ & Hq1).
  destruct (place_new_inv p (stream_of b) _ _ pl1 Hn eq_refl Hinv1)
    as (placed & Htf & Hcur & Hle & Hs & Hwq & Hc).
  exists placed. unfold assemble. cbv zeta.
  set (a2 := place_new p _ _) in *.
  cbn [fst snd f_tfdf f_cursor]. unfold pad_of. cbn [f_only_idle].
  unfold stream_of, wf_blk, _advance_counters.
  cbn [_cur_pkt _spp_queue _pending_tags].
  split; [|split; [done|split; [done|split; [done|]]]].
  - destruct ((a_cursor a2 <? tfdf_len p) && emit_idle p
              && bool_decide (a_header_starts a2 = [])
              && bool_decide (a_cur a2 = None)
              && bool_decide (a_queue a2 = [])) eqn:Eidle; [|done].
    rewrite Htf, Hcur.
    pose proof (set_slice_fill placed
                  (replicate (Z.to_nat (tfdf_len p - Z.of_nat (length placed)))
                             (idle_fill p))
                  (Z.to_nat (tfdf_len p)) 0) as H.
    rewrite length_replicate in H.
    replace (Z.of_nat (length placed)
             + Z.of_nat (Z.to_nat (tfdf_len p - Z.of_nat (length placed))))
      with (tfdf_len p) in H by lia.
    rewrite H by lia. rewrite length_app, length_replicate.
    replace (Z.to_nat (tfdf_len p) - _)%nat with 0%nat by lia.
    cbn [replicate]. rewrite app_nil_r. do 2 f_equal. lia.
  - split; [done|]. split; [|by destruct Hwf as (_ & _ & ?)].
    intros pkt Hp. by destruct (Hc pkt Hp).
Qed.

Lemma assemble_only_idle (p : params) (b : blk) :
  f_only_idle (assemble p b).1 = true <->
  f_cursor (assemble p b).1 < tfdf_len p /\ emit_idle p = true /\
  f_header_starts (assemble p b).1 = [] /\
  _cur_pkt (assemble p b).2 = None /\ _spp_queue (assemble p b).2 = [].
Proof.
  unfold assemble. cbv zeta.
  cbn [fst snd f_only_idle f_cursor f_header_starts _advance_counters
       _cur_pkt _spp_queue].
  rewrite !andb_true_iff, !bool_decide_eq_true, Z.ltb_lt. tauto.
Qed.

Lemma wf_blk_init : wf_blk init.
Proof. unfold wf_blk. cbn. by repeat split. Qed.

Lemma carve_wf (fuel : nat) :
  forall inbuf pending queue,
    Forall (fun t : tag => 0 < t.2) pending -> Forall wf_pkt queue ->
    Forall (fun t : tag => 0 < t.2) (carve fuel inbuf pending queue).1.2 /\
    Forall wf_pkt (carve fuel inbuf pending queue).2.
Proof.
  induction fuel as [|fuel IH]; intros inbuf pending queue Hp Hq; [done|].
  cbn [carve]. destruct pending as [|[rel_off L] rest]; [done|].
  apply Forall_cons in Hp as [HL Hrest]. cbn [snd] in HL.
  destruct (Z.ltb_spec rel_off 0) as [|Hrel]; [by apply IH|].
  destruct (Z.ltb_spec (Z.of_nat (length inbuf)) (rel_off + L)) as [|Hlen].
  { cbn [fst snd]. split; [by apply Forall_cons | done]. }
  apply IH.
  - apply Forall_map. eapply Forall_impl; [exact Hrest|]. by intros [? ?].
  - apply Forall_app. split; [done|]. apply Forall_singleton.
    unfold wf_pkt. cbn [len data]. rewrite slice_length by lia. lia.
Qed.

Lemma collect_spp_tags_positive (tags : list tag) :
  Forall (fun t : tag => 0 < t.2) (_collect_spp_tags tags).
Proof.
  unfold _collect_spp_tags. apply Forall_forall. intros t Ht.
  by apply list_elem_of_filter in Ht as [? _].
Qed.

Lemma frame_loop_frames (p : params) (n_out nw : Z) (fuel : nat) :
  forall b frames tags produced,
    1 <= tfdf_len p -> wf_blk b ->
    wf_blk (frame_loop fuel p n_out nw b frames tags produced).1.1.1 /\
    forall f, f ∈ (frame_loop fuel p n_out nw b frames tags produced).1.1.2 ->
              f ∈ frames \/ exists b0, wf_blk b0 /\ (assemble p b0).1 = f.
Proof.
  induction fuel as [|fuel IH]; intros b frames tags produced Hn Hwf;
    [by split; [|left]|].
  cbn [frame_loop]. destruct (_ <? frame_len p); [by split; [|left]|].
  destruct (assemble_layout p b Hn Hwf) as (placed & _ & _ & _ & _ & Hwf').
  cbv zeta in Hwf'.
  destruct (assemble p b) as [f0 b'] eqn:E. cbn [fst snd] in Hwf'.
  assert (Hnew : forall f, f ∈ frames ++ [f0] ->
            f ∈ frames \/ exists b0, wf_blk b0 /\ (assemble p b0).1 = f).
  { intros f Hf. apply elem_of_app in Hf as [Hf|Hf]; [by left|].
    apply list_elem_of_singleton in Hf as ->. right. exists b. by rewrite E. }
  destruct ((f_cursor f0 =? 0) && negb (emit_idle p)); [by split|].
  destruct (IH b' (frames ++ [f0]) (tags ++ [(nw + produced, Z.of_nat (length (f_bytes f0)))])
              (produced + Z.of_nat (length (f_bytes f0))) Hn Hwf') as [H1 H2].
  split; [done|]. intros f Hf. destruct (H2 f Hf) as [Hin|Hex]; [by apply Hnew | by right].
Qed.

(** [general_work] keeps the block well formed, and every frame it emits
    is the result of one assembly pass from a well-formed block. *)
Lemma general_work_frames (p : params) (b : blk) inp tags n_out nw :
  1 <= tfdf_len p -> wf_blk b ->
  wf_blk (w_blk (general_work p b inp tags n_out nw)) /\
  forall f, f ∈ w_frames (general_work p b inp tags n_out nw) ->
            exists b0, wf_blk b0 /\ (assemble p b0).1 = f.
Proof.
  intros Hn Hwf. unfold general_work.
  destruct (n_out <? frame_len p).
  { cbn [w_blk w_frames]. split; [done|]. intros f Hf. by apply elem_of_nil in Hf. }
  destruct Hwf as (Hq & Hc & Hp).
  set (pending := if (0 <? length inp)%nat then _ else _).
  assert (Hpend : Forall (fun t : tag => 0 < t.2) pending).
  { unfold pending. destruct (0 <? length inp)%nat; [|done].
    apply Forall_app. split; [done | apply collect_spp_tags_positive]. }
  pose proof (carve_wf (length pending) (_inbuf b ++ inp) pending (_spp_queue b)
                Hpend Hq) as [Hp' Hq'].
  destruct (carve _ _ _ _) as [[inbuf' pending'] queue'].
  cbn [fst snd] in Hp', Hq'.
  set (b1 := {| mc_cnt := mc_cnt b; vc_cnt := vc_cnt b; _inbuf := inbuf';
                _pending_tags := pending'; _spp_queue := queue';
                _cur_pkt := _cur_pkt b |}).
  assert (Hwf1 : wf_blk b1) by (split; [exact Hq' | split; [exact Hc | exact Hp']]).
  pose proof (frame_loop_frames p n_out nw (Z.to_nat n_out) b1 [] [] 0 Hn Hwf1)
    as [H1 H2].
  destruct (frame_loop _ _ _ _ _ _ _ _) as [[[b2 frames] otags] produced].
  cbn [fst snd w_blk w_frames] in *. split; [done|].
  intros f Hf. destruct (H2 f Hf) as [Hin|Hex]; [by apply elem_of_nil in Hin | done].
Qed.

(** C6, as the code has it.  The data field of every frame the framer
    emits has exactly the TFDF length and consists of packet bytes (the
    next bytes of the stream of continuing and queued packets, in order)
    followed by padding.  The padding is the idle fill byte when the frame
    is flagged Only-Idle-Data, which needs idle emission to be enabled, no
    packet header starting in the frame and no packet left continuing or
    queued; in every other case the padding bytes are zero. *)
Theorem data_field_layout (p : params) (b : blk) inp tags n_out nw (f : frame) :
  1 <= tfdf_len p -> wf_blk b ->
  f ∈ w_frames (TmFramer.general_work p b inp tags n_out nw) ->
  exists placed b0,
    wf_blk b0 /\ (assemble p b0).1 = f /\
    f_tfdf f = placed ++ replicate (Z.to_nat (tfdf_len p) - length placed) (pad_of p f) /\
    length (f_tfdf f) = Z.to_nat (tfdf_len p) /\
    placed ++ stream_of (assemble p b0).2 = stream_of b0 /\
    (f_only_idle f = true ->
       pad_of p f = idle_fill p /\ emit_idle p = true /\ f_header_starts f = [] /\
       stream_of (assemble p b0).2 = []) /\
    (f_only_idle f = false -> pad_of p f = 0).
Proof.
  intros Hn Hwf Hf.
  destruct (general_work_frames p b inp tags n_out nw Hn Hwf) as [_ H].
  destruct (H f Hf) as (b0 & Hwf0 & E).
  destruct (assemble_layout p b0 Hn Hwf0) as (placed & Htf & Hcur & Hle & Hs & _).
  cbv zeta in Htf, Hcur, Hs. rewrite E in Htf, Hcur.
  exists placed, b0.
  split; [exact Hwf0|]. split; [exact E|]. split; [exact Htf|].
  split; [rewrite Htf, length_app, length_replicate; lia|].
  split; [exact Hs|]. split.
  - intros Hidle. split; [unfold pad_of; by rewrite Hidle|].
    rewrite <- E in Hidle.
    apply assemble_only_idle in Hidle as (_ & He & Hh & Hc & Hq).
    rewrite E in Hh. split; [exact He|]. split; [exact Hh|].
    unfold stream_of. by rewrite Hc, Hq.
  - unfold pad_of. by intros ->.
Qed.

Lemma data_field_layout_witness :
  1 <= tfdf_len (framer false) /\ wf_blk init /\
  zero_frame ∈ w_frames (general_work (framer false) init [] [] 16 0) /\
  exists placed b0,
    wf_blk b0 /\ (assemble (framer false) b0).1 = zero_frame /\
    f_tfdf zero_frame
      = placed ++ replicate (Z.to_nat (tfdf_len (framer false)) - length placed)
                            (pad_of (framer false) zero_frame) /\
    length (f_tfdf zero_frame) = Z.to_nat (tfdf_len (framer false)) /\
    placed ++ stream_of (assemble (framer false) b0).2 = stream_of b0 /\
    (f_only_idle zero_frame = true ->
       pad_of (framer false) zero_frame = idle_fill (framer false) /\
       emit_idle (framer false) = true /\ f_header_starts zero_frame = [] /\
       stream_of (assemble (framer false) b0).2 = []) /\
    (f_only_idle zero_frame = false -> pad_of (framer false) zero_frame = 0).
Proof.
  assert (H1 : 1 <= tfdf_len (framer false)) by (vm_compute; discriminate).
  assert (H3 : zero_frame ∈ w_frames (general_work (framer false) init [] [] 16 0)).
  { assert (E : w_frames (general_work (framer false) init [] [] 16 0) = [zero_frame])
      by (vm_compute; reflexivity).
    rewrite E. apply list_elem_of_here. }
  split; [exact H1|]. split; [exact wf_blk_init|]. split; [exact H3|].
  exact (data_field_layout (framer false) init [] [] 16 0 zero_frame H1 wf_blk_init H3).
Defined.

End TmFramerFacts.

(** ** The RS(255,223) interleaver-encoder (claim C2) *)

Section RsFacts.
Import RsEncoder RsEncoderSpec.

Lemma at0_ge (l : list Z) (k : nat) : (length l <= k)%nat -> at0 l k = 0.
Proof. intros H. unfold at0. by rewrite lookup_ge_None_2. Qed.

Lemma at0_app_l (l1 l2 : list Z) (k : nat) :
  (k < length l1)%nat -> at0 (l1 ++ l2) k = at0 l1 k.
Proof. intros H. unfold at0. by rewrite lookup_app_l. Qed.

Lemma at0_app_r (l1 l2 : list Z) (k : nat) :
  (length l1 <= k)%nat -> at0 (l1 ++ l2) k = at0 l2 (k - length l1).
Proof. intros H. unfold at0. by rewrite lookup_app_r. Qed.

Lemma at0_replicate (n k : nat) : at0 (replicate n 0) k = 0.
Proof.
  unfold at0. destruct (replicate n 0 !! k) eqn:E; [|done].
  by apply lookup_replicate in E as [-> _].
Qed.

Lemma at0_cons_S (x : Z) (l : list Z) (k : nat) : at0 (x :: l) (S k) = at0 l k.
Proof. done. Qed.

Lemma list_eq_at0 (l1 l2 : list Z) :
  length l1 = length l2 -> (forall k, (k < length l1)%nat -> at0 l1 k = at0 l2 k) ->
  l1 = l2.
Proof.
  intros Hlen H. apply list_eq. intros k.
  destruct (Nat.lt_ge_cases k (length l1)) as [Hk|Hk].
  - specialize (H k Hk). unfold at0 in H.
    destruct (lookup_lt_is_Some_2 l1 k Hk) as [x Hx].
    destruct (lookup_lt_is_Some_2 l2 k ltac:(lia)) as [y Hy].
    rewrite Hx, Hy in *. cbn in H. by subst.
  - rewrite !lookup_ge_None_2; [done | lia | lia].
Qed.

Lemma getZ_at0 (l : list Z) (k : nat) : getZ l (Z.of_nat k) = at0 l k.
Proof. unfold getZ, at0. by rewrite Nat2Z.id. Qed.

Lemma xor_at_length (r : list Z) (k : nat) (v : Z) :
  length (xor_at r k v) = length r.
Proof. unfold xor_at. apply length_insert. Qed.

Lemma at0_xor_at (r : list Z) (k m : nat) (v : Z) :
  (k < length r)%nat ->
  at0 (xor_at r k v) m = Z.lxor (at0 r m) (if (m =? k)%nat then v else 0).
Proof.
  intros Hk. unfold xor_at, at0.
  destruct (Nat.eqb_spec m k) as [->|Hne].
  - by rewrite list_lookup_insert_eq.
  - rewrite list_lookup_insert_ne by done. by rewrite Z.lxor_0_r.
Qed.

Lemma xor_at_zero (r : list Z) (k : nat) : xor_at r k 0 = r.
Proof.
  unfold xor_at. destruct (r !! k) as [x|] eqn:E.
  - cbn. rewrite Z.lxor_0_r. by apply list_insert_id.
  - apply list_insert_ge. by apply lookup_ge_None.
Qed.

(** A loop [for j in range(s, s+n): r[j] ^= f(j)]. *)
Lemma fold_xor_at_seq (f : nat -> Z) (n : nat) :
  forall (s : nat) (r : list Z),
    (s + n <= length r)%nat ->
    length (fold_left (fun r j => xor_at r j (f j)) (seq s n) r) = length r /\
    forall m, at0 (fold_left (fun r j => xor_at r j (f j)) (seq s n) r) m
              = Z.lxor (at0 r m) (if (s <=? m)%nat && (m <? s + n)%nat then f m else 0).
Proof.
  induction n as [|n IH]; intros s r Hlen.
  - cbn [seq fold_left]. split; [done|]. intros m.
    replace ((s <=? m)%nat && (m <? s + 0)%nat) with false; [by rewrite Z.lxor_0_r|].
    symmetry. apply andb_false_iff.
    destruct (Nat.leb_spec s m), (Nat.ltb_spec m (s + 0)); auto; lia.
  - cbn [seq fold_left].
    destruct (IH (S s) (xor_at r s (f s))) as [H1 H2]; [rewrite xor_at_length; lia|].
    rewrite H1, xor_at_length. split; [done|]. intros m.
    rewrite H2, at0_xor_at by lia. rewrite Z.lxor_assoc. f_equal.
    destruct (Nat.eqb_spec m s) as [->|Hne].
    + rewrite Nat.leb_refl.
      replace (S s <=? s)%nat with false by (symmetry; apply Nat.leb_gt; lia).
      replace (s <? s + S n)%nat with true by (symmetry; apply Nat.ltb_lt; lia).
      cbn. apply Z.lxor_0_r.
    + rewrite Z.lxor_0_l.
      destruct (Nat.leb_spec (S s) m), (Nat.leb_spec s m),
        (Nat.ltb_spec m (S s + n)), (Nat.ltb_spec m (s + S n)); cbn; done || lia.
Qed.


(** *** GF(256) table facts, checked by evaluation *)

Lemma gf_tables_checked : gf_tables_ok = true.
Proof. vm_compute. reflexivity. Qed.

Lemma forallb_getZ (P : Z -> bool) (l : list Z) (i : Z) :
  forallb P l = true -> 0 <= i < Z.of_nat (length l) -> P (getZ l i) = true.
Proof.
  intros H Hi. rewrite forallb_forall in H. apply H. unfold getZ.
  destruct (lookup_lt_is_Some_2 l (Z.to_nat i)) as [x Hx]; [lia|].
  rewrite Hx. apply list_elem_of_In. by eapply list_elem_of_lookup_2.
Qed.

Lemma forallb_at0 (P : Z -> bool) (l : list Z) (k : nat) :
  forallb P l = true -> (k < length l)%nat -> P (at0 l k) = true.
Proof.
  intros H Hk. rewrite <- getZ_at0. apply forallb_getZ; [done | lia].
Qed.

Lemma gf_exp_byte (i : Z) : 0 <= i < 512 -> is_byte (getZ gf_exp i).
Proof.
  intros Hi. pose proof gf_tables_checked as H. unfold gf_tables_ok in H.
  rewrite !andb_true_iff in H. destruct H as [[[[[[H _] _] _] _] _] _].
  pose proof (forallb_getZ _ gf_exp i H) as H'. cbv beta in H'.
  unfold is_byte. change (length gf_exp) with 512%nat in H'. lia.
Qed.

Lemma gf_log_range (a : Z) : 1 <= a < 256 -> 0 <= getZ gf_log a <= 254.
Proof.
  intros Ha. pose proof gf_tables_checked as H. unfold gf_tables_ok in H.
  rewrite !andb_true_iff in H. destruct H as [[[[[_ H] _] _] _] _].
  rewrite forallb_forall in H. specialize (H a).
  cut ((0 <=? getZ gf_log a) && (getZ gf_log a <=? 254) = true); [lia|].
  apply H. apply in_map_iff. exists (Z.to_nat a). split; [lia|]. apply in_seq. lia.
Qed.

Lemma gf_mul_byte (a b : Z) : is_byte a -> is_byte b -> is_byte (_gf_mul a b).
Proof.
  intros Ha Hb. unfold _gf_mul, is_byte in *.
  destruct (Z.eqb_spec a 0), (Z.eqb_spec b 0); cbn [orb]; try lia.
  apply gf_exp_byte.
  pose proof (gf_log_range a). pose proof (gf_log_range b). lia.
Qed.

Lemma gf_mul_comm (a b : Z) : _gf_mul a b = _gf_mul b a.
Proof. unfold _gf_mul. by rewrite orb_comm, Z.add_comm. Qed.

Lemma gf_mul_0_r (a : Z) : _gf_mul a 0 = 0.
Proof. unfold _gf_mul. by rewrite orb_true_r. Qed.

Lemma gf_mul_0_l (b : Z) : _gf_mul 0 b = 0.
Proof. done. Qed.

Lemma gf_mul_1_r (c : Z) : is_byte c -> _gf_mul c 1 = c.
Proof.
  intros Hc. pose proof gf_tables_checked as H. unfold gf_tables_ok in H.
  rewrite !andb_true_iff in H. destruct H as [[[[_ H] _] _] _].
  rewrite forallb_forall in H. apply Z.eqb_eq, H, in_rangeZ. unfold is_byte in Hc. lia.
Qed.

Lemma gen_head : at0 gen 0 = 1.
Proof. reflexivity. Qed.

Lemma gen_length : length gen = 33%nat.
Proof. reflexivity. Qed.

Lemma gen_byte (k : nat) : is_byte (at0 gen k).
Proof.
  destruct (Nat.lt_ge_cases k (length gen)) as [Hk|Hk].
  - pose proof gf_tables_checked as H. unfold gf_tables_ok in H.
    rewrite !andb_true_iff in H. destruct H as [_ H].
    pose proof (forallb_at0 _ gen k H Hk) as H'. cbv beta in H'.
    unfold is_byte. lia.
  - rewrite at0_ge by done. unfold is_byte. lia.
Qed.

Lemma lxor_byte (a b : Z) : is_byte a -> is_byte b -> is_byte (Z.lxor a b).
Proof. unfold is_byte. change 256 with (2 ^ 8). apply lxor_range. lia. Qed.

Lemma at0_byte (l : list Z) (k : nat) : bytes_ok l -> is_byte (at0 l k).
Proof.
  intros Hl. unfold at0. destruct (l !! k) as [x|] eqn:E; [|cbn; unfold is_byte; lia].
  cbn. eapply Forall_lookup_1; [exact Hl | exact E].
Qed.

Lemma bytes_ok_at0 (l : list Z) :
  (forall k, (k < length l)%nat -> is_byte (at0 l k)) -> bytes_ok l.
Proof.
  intros H. apply Forall_lookup_2. intros k x Hx.
  specialize (H k (lookup_lt_Some _ _ _ Hx)). unfold at0 in H. by rewrite Hx in H.
Qed.

(** *** One step of the parity register *)

Lemma rs_step_spec (rem : list Z) (d : Z) :
  length rem = 32%nat ->
  length (rs_step rem d) = 32%nat /\
  forall k, (k < 32)%nat ->
    at0 (rs_step rem d) k
    = Z.lxor (at0 rem (S k)) (_gf_mul (at0 gen (S k)) (Z.lxor d (at0 rem 0))).
Proof.
  intros Hlen. unfold rs_step. cbv zeta.
  rewrite (slice_from_nat rem 1 : slice_from rem 1 = drop 1 rem).
  rewrite (getZ_at0 rem 0 : getZ rem 0 = at0 rem 0).
  set (coef := Z.lxor d (at0 rem 0)).
  set (rem1 := drop 1 rem ++ [0]).
  assert (Hl1 : length rem1 = 32%nat).
  { unfold rem1. rewrite length_app, length_drop, Hlen. done. }
  assert (H1 : forall k, (k < 32)%nat -> at0 rem1 k = at0 rem (S k)).
  { intros k Hk. unfold rem1.
    destruct (Nat.eq_dec k 31%nat) as [->|Hne].
    - rewrite at0_app_r by (rewrite length_drop; lia).
      rewrite length_drop, Hlen. cbn. symmetry. apply at0_ge. lia.
    - rewrite at0_app_l by (rewrite length_drop; lia).
      unfold at0. by rewrite lookup_drop. }
  destruct (Z.eqb_spec coef 0) as [E|Hne]; cbn [negb].
  - split; [exact Hl1|]. intros k Hk. rewrite H1 by done.
    by rewrite E, gf_mul_0_r, Z.lxor_0_r.
  - change (Z.to_nat NPAR) with 32%nat.
    destruct (fold_xor_at_seq
                (fun j => _gf_mul (getZ gen (Z.of_nat j + 1)) coef) 32 0 rem1)
      as [H2 H3]; [lia|].
    split; [lia|]. intros k Hk. rewrite H3, H1 by done.
    replace ((0 <=? k)%nat && (k <? 0 + 32)%nat) with true.
    + do 2 f_equal. replace (Z.of_nat k + 1) with (Z.of_nat (S k)) by lia.
      apply getZ_at0.
    + symmetry. apply andb_true_iff. split; [by apply Nat.leb_le; lia | by apply Nat.ltb_lt].
Qed.

Lemma rs_step_bytes (rem : list Z) (d : Z) :
  length rem = 32%nat -> bytes_ok rem -> is_byte d -> bytes_ok (rs_step rem d).
Proof.
  intros Hlen Hrem Hd. destruct (rs_step_spec rem d Hlen) as [H1 H2].
  apply bytes_ok_at0. intros k Hk. rewrite H2 by lia.
  apply lxor_byte; [by apply at0_byte|].
  apply gf_mul_byte; [apply gen_byte|]. apply lxor_byte; [done | by apply at0_byte].
Qed.


(** *** [_poly_mul] coefficient by coefficient *)

Lemma poly_mul_row_spec (a : Z) (i : nat) (q : list Z) :
  forall (s : nat) (r : list Z),
    (i + s + length q <= length r)%nat ->
    let r' := fold_left (fun r (jb : nat * Z) =>
                           let '(j, b) := jb in
                           if b =? 0 then r else xor_at r (i + j) (_gf_mul a b))
                        (zip (seq s (length q)) q) r in
    length r' = length r /\
    forall m, at0 r' m
              = Z.lxor (at0 r m)
                  (if (i + s <=? m)%nat && (m <? i + s + length q)%nat
                   then _gf_mul a (at0 q (m - (i + s))) else 0).
Proof.
  induction q as [|b q IH]; intros s r Hlen; cbv zeta.
  - cbn [length seq fold_left]. split; [done|]. intros m.
    replace ((i + s <=? m)%nat && (m <? i + s + 0)%nat) with false;
      [by rewrite Z.lxor_0_r|].
    symmetry. apply andb_false_iff.
    destruct (Nat.leb_spec (i + s) m), (Nat.ltb_spec m (i + s + 0)); auto; lia.
  - cbn [length] in *.
    change (zip (seq s (S (length q))) (b :: q))
      with ((s, b) :: zip (seq (S s) (length q)) q).
    cbn [fold_left].
    assert (E : (if b =? 0 then r else xor_at r (i + s) (_gf_mul a b))
                = xor_at r (i + s) (_gf_mul a b)).
    { destruct (Z.eqb_spec b 0) as [->|]; [|done].
      by rewrite gf_mul_0_r, xor_at_zero. }
    rewrite E.
    destruct (IH (S s) (xor_at r (i + s) (_gf_mul a b))) as [H1 H2];
      [rewrite xor_at_length; lia|].
    cbv zeta in H1, H2.
    rewrite H1, xor_at_length. split; [done|]. intros m.
    rewrite H2, at0_xor_at by lia. rewrite Z.lxor_assoc. f_equal.
    destruct (Nat.eqb_spec m (i + s)) as [->|Hne].
    + replace (i + S s <=? i + s)%nat with false by (symmetry; apply Nat.leb_gt; lia).
      rewrite Nat.leb_refl.
      replace (i + s <? i + s + S (length q))%nat with true
        by (symmetry; apply Nat.ltb_lt; lia).
      cbn [andb]. rewrite Nat.sub_diag, Z.lxor_0_r. done.
    + rewrite Z.lxor_0_l.
      destruct (Nat.leb_spec (i + S s) m), (Nat.leb_spec (i + s) m),
        (Nat.ltb_spec m (i + S s + length q)),
        (Nat.ltb_spec m (i + s + S (length q))); cbn [andb]; try done; try lia.
      replace (m - (i + s))%nat with (S (m - (i + S s))) by lia. done.
Qed.

Lemma poly_mul_fold_spec (q : list Z) (p : list Z) :
  forall (s : nat) (r : list Z),
    (s + length p + length q <= S (length r))%nat ->
    let r' := fold_left (poly_mul_row q) (zip (seq s (length p)) p) r in
    length r' = length r /\
    forall m, at0 r' m = Z.lxor (at0 r m) (conv p q s m).
Proof.
  induction p as [|a p IH]; intros s r Hlen; cbv zeta.
  - cbn [length seq fold_left conv]. split; [done|].
    intros m. by rewrite Z.lxor_0_r.
  - cbn [length conv] in *.
    change (zip (seq s (S (length p))) (a :: p))
      with ((s, a) :: zip (seq (S s) (length p)) p).
    cbn [fold_left].
    assert (Hrow : length (poly_mul_row q r (s, a)) = length r /\
              forall m, at0 (poly_mul_row q r (s, a)) m
                        = Z.lxor (at0 r m)
                            (if (s <=? m)%nat && (m <? s + length q)%nat
                             then _gf_mul a (at0 q (m - s)) else 0)).
    { unfold poly_mul_row.
      destruct (Z.eqb_spec a 0) as [->|Hne].
      - split; [done|]. intros m. rewrite gf_mul_0_l.
        destruct (_ && _); by rewrite Z.lxor_0_r.
      - destruct (poly_mul_row_spec a s q 0 r) as [H1 H2]; [lia|].
        cbv zeta in H1, H2. unfold enumerate. split; [done|].
        intros m. rewrite H2. by rewrite !Nat.add_0_r. }
    destruct Hrow as [Hr1 Hr2].
    destruct (IH (S s) (poly_mul_row q r (s, a))) as [H1 H2]; [lia|].
    cbv zeta in H1, H2.
    rewrite H1. split; [done|]. intros m.
    by rewrite H2, Hr2, Z.lxor_assoc.
Qed.

Lemma poly_mul_spec (p q : list Z) :
  length (_poly_mul p q) = (length p + length q - 1)%nat /\
  forall m, (length p + length q <= S (length p + length q - 1))%nat ->
            at0 (_poly_mul p q) m = conv p q 0 m.
Proof.
  unfold _poly_mul, enumerate.
  destruct (Nat.le_gt_cases (length p + length q) (S (length p + length q - 1)))
    as [Hle|Hgt].
  - destruct (poly_mul_fold_spec q p 0 (replicate (length p + length q - 1) 0))
      as [H1 H2]; [rewrite length_replicate; lia|].
    cbv zeta in H1, H2. rewrite H1, length_replicate. split; [done|].
    intros m _. by rewrite H2, at0_replicate, Z.lxor_0_l.
  - lia.
Qed.

Lemma conv_shift (p q : list Z) :
  forall s m, conv p q (S s) (S m) = conv p q s m.
Proof.
  induction p as [|a p IH]; intros s m; [done|].
  cbn [conv]. rewrite IH. f_equal.
Qed.

Lemma conv_before (p q : list Z) :
  forall s m, (m < s)%nat -> conv p q s m = 0.
Proof.
  induction p as [|a p IH]; intros s m Hm; [done|].
  cbn [conv]. rewrite IH by lia.
  replace (s <=? m)%nat with false by (symmetry; apply Nat.leb_gt; lia).
  done.
Qed.

(** *** The parity register computes the remainder *)

Lemma lxor_cancel_mid (g a r : Z) :
  Z.lxor g (Z.lxor a (Z.lxor r g)) = Z.lxor a r.
Proof.
  apply Z.bits_inj'. intros n _. rewrite !Z.lxor_spec.
  by destruct (Z.testbit g n), (Z.testbit a n), (Z.testbit r n).
Qed.

Lemma rs_quotient_length (data : list Z) :
  forall rem, length (rs_quotient rem data) = length data.
Proof. induction data as [|d ds IH]; intros rem; [done|]. cbn. by rewrite IH. Qed.

Lemma rs_fold_spec (data : list Z) :
  forall rem, length rem = 32%nat -> bytes_ok rem -> bytes_ok data ->
    length (fold_left rs_step data rem) = 32%nat /\
    bytes_ok (fold_left rs_step data rem).
Proof.
  induction data as [|d ds IH]; intros rem Hlen Hrem Hdata; [done|].
  apply Forall_cons in Hdata as [Hd Hds]. cbn [fold_left].
  apply IH; [by apply rs_step_spec | by apply rs_step_bytes | done].
Qed.

(** Long division, coefficient by coefficient: quotient times generator
    plus the final register equals the dividend (message shifted by 32)
    plus the initial register. *)
Lemma division_invariant (data : list Z) :
  forall rem m,
    length rem = 32%nat -> bytes_ok rem -> bytes_ok data ->
    Z.lxor (conv (rs_quotient rem data) gen 0 m)
           (if (length data <=? m)%nat
            then at0 (fold_left rs_step data rem) (m - length data) else 0)
    = Z.lxor (at0 (data ++ replicate 32 0) m) (at0 rem m).
Proof.
  induction data as [|d ds IH]; intros rem m Hlen Hrem Hdata.
  - cbn [rs_quotient conv length fold_left app]. rewrite Nat.sub_0_r.
    by rewrite at0_replicate.
  - apply Forall_cons in Hdata as [Hd Hds].
    destruct (rs_step_spec rem d Hlen) as [Hl1 Hs1].
    pose proof (rs_step_bytes rem d Hlen Hrem Hd) as Hb1.
    cbn [rs_quotient conv length fold_left]. rewrite gen_length.
    rewrite (getZ_at0 rem 0 : getZ rem 0 = at0 rem 0).
    set (coef := Z.lxor d (at0 rem 0)).
    destruct m as [|m].
    + cbn [Nat.leb Nat.ltb andb Nat.sub]. rewrite conv_before by lia.
      rewrite gen_head, gf_mul_1_r; [|apply lxor_byte; [done | by apply at0_byte]].
      cbn. by rewrite !Z.lxor_0_r.
    + rewrite conv_shift. cbn [Nat.leb Nat.sub app]. rewrite at0_cons_S.
      specialize (IH (rs_step rem d) m Hl1 Hb1 Hds).
      rewrite Z.lxor_assoc, IH.
      destruct (Nat.ltb_spec (S m) (0 + 33)) as [Hm|Hm]; cbn [andb].
      * rewrite Hs1 by lia. rewrite (gf_mul_comm coef).
        fold coef. apply lxor_cancel_mid.
      * rewrite Z.lxor_0_l. f_equal.
        rewrite !at0_ge; [done | lia | lia].
Qed.


Lemma at0_zip_with_lxor (a b : list Z) (m : nat) :
  length a = length b ->
  at0 (zip_with Z.lxor a b) m = Z.lxor (at0 a m) (at0 b m).
Proof.
  intros Hlen. unfold at0. rewrite lookup_zip_with.
  destruct (a !! m) as [x|] eqn:Ea, (b !! m) as [y|] eqn:Eb; cbn; try done.
  - apply lookup_lt_Some in Ea. apply lookup_ge_None in Eb. lia.
  - apply lookup_lt_Some in Eb. apply lookup_ge_None in Ea. lia.
Qed.

(** The parity of a message: quotient times generator plus parity is the
    message shifted up by 32 coefficients. *)
Lemma rs_encode_remainder (data : list Z) :
  length data = 223%nat -> bytes_ok data ->
  exists q parity,
    _rs_encode_223_255 data = Ok parity /\
    length parity = 32%nat /\ bytes_ok parity /\ length q = 223%nat /\
    _poly_add (_poly_mul q gen) parity = data ++ replicate 32 0.
Proof.
  intros Hlen Hdata.
  set (rem0 := replicate 32 0).
  assert (Hl0 : length rem0 = 32%nat) by done.
  assert (Hb0 : bytes_ok rem0) by (apply Forall_replicate; unfold is_byte; lia).
  destruct (rs_fold_spec data rem0 Hl0 Hb0 Hdata) as [Hlp Hbp].
  exists (rs_quotient rem0 data), (fold_left rs_step data rem0).
  split; [|split; [done|split; [done|split; [by rewrite rs_quotient_length|]]]].
  { unfold _rs_encode_223_255. rewrite Hlen. done. }
  destruct (poly_mul_spec (rs_quotient rem0 data) gen) as [Hlm Hm].
  rewrite rs_quotient_length, Hlen, gen_length in Hlm, Hm.
  change (223 + 33 - 1)%nat with 255%nat in Hlm, Hm.
  unfold _poly_add, _gf_add. rewrite Hlm, Hlp.
  change (32 - 255)%nat with 0%nat. change (255 - 32)%nat with 223%nat.
  change (replicate 0 0) with (@nil Z). cbn [app].
  apply list_eq_at0.
  { rewrite length_zip_with, Hlm, !length_app, !length_replicate, Hlp, Hlen. done. }
  intros m _. rewrite at0_zip_with_lxor
    by (rewrite Hlm, length_app, length_replicate, Hlp; done).
  rewrite Hm by lia.
  pose proof (division_invariant data rem0 m Hl0 Hb0 Hdata) as H.
  unfold rem0 in H at 3. rewrite at0_replicate, Z.lxor_0_r, Hlen in H.
  fold rem0 in H. rewrite <- H. f_equal.
  destruct (Nat.leb_spec 223 m) as [Hge|Hlt].
  - rewrite at0_app_r by (rewrite length_replicate; lia).
    by rewrite length_replicate.
  - rewrite at0_app_l by (rewrite length_replicate; lia). apply at0_replicate.
Qed.

(** *** De-multiplexing and multiplexing *)

Lemma strided_lookup (step : nat) :
  (1 <= step)%nat ->
  forall fuel l n, (length l <= fuel)%nat ->
    strided fuel step l !! n = l !! (n * step)%nat.
Proof.
  intros Hstep. induction fuel as [|fuel IH]; intros l n Hlen.
  - destruct l; [|cbn in Hlen; lia]. by rewrite !lookup_nil.
  - destruct l as [|x l]; [by rewrite !lookup_nil|].
    cbn [strided]. destruct n as [|n]; [reflexivity|].
    rewrite (lookup_cons_ne_0 _ x (S n)) by done. cbn [pred].
    rewrite IH by (rewrite length_drop; cbn [length] in *; lia).
    rewrite lookup_drop. f_equal.
Qed.

Lemma slice_step_spec (l : list Z) (j step k : nat) :
  (1 <= step)%nat -> (j < step)%nat -> length l = (k * step)%nat ->
  slice_step l j step = map (fun n => at0 l (n * step + j)) (seq 0 k).
Proof.
  intros Hstep Hj Hlen. unfold slice_step.
  assert (Hlk : forall n, strided (length l) step (drop j l) !! n
                          = l !! (j + n * step)%nat).
  { intros n. rewrite strided_lookup by (rewrite ?length_drop; lia).
    by rewrite lookup_drop. }
  assert (Hin : forall n, (n < k)%nat -> (j + n * step < length l)%nat) by nia.
  assert (Hout : forall n, (k <= n)%nat -> (length l <= j + n * step)%nat) by nia.
  apply list_eq. intros n. rewrite Hlk, list_lookup_fmap.
  destruct (Nat.lt_ge_cases n k) as [Hn|Hn].
  - rewrite lookup_seq_lt by done. cbn.
    destruct (lookup_lt_is_Some_2 l (j + n * step) (Hin n Hn)) as [x Hx].
    rewrite Hx. unfold at0. by rewrite (Nat.add_comm (n * step)), Hx.
  - rewrite lookup_seq_ge by done. cbn. apply lookup_ge_None_2. by apply Hout.
Qed.

Lemma concat_lookup_uniform {A} (w : nat) (rows : list (list A)) :
  Forall (fun r => length r = w) rows ->
  forall n j, (j < w)%nat ->
    concat rows !! (n * w + j)%nat = rows !! n ≫= (fun r => r !! j).
Proof.
  induction rows as [|r rows IH]; intros Hrows n j Hj; [by rewrite !lookup_nil|].
  apply Forall_cons in Hrows as [Hr Hrows]. cbn [concat].
  destruct n as [|n].
  - cbn. rewrite lookup_app_l by lia. done.
  - rewrite lookup_app_r by (rewrite Hr; cbn; lia).
    rewrite Hr. replace (S n * w + j - w)%nat with (n * w + j)%nat by (cbn; lia).
    rewrite (lookup_cons_ne_0 rows r (S n)) by done. cbn [pred]. by apply IH.
Qed.

Lemma concat_length_uniform {A} (w : nat) (rows : list (list A)) :
  Forall (fun r => length r = w) rows -> length (concat rows) = (length rows * w)%nat.
Proof.
  induction rows as [|r rows IH]; intros Hrows; [done|].
  apply Forall_cons in Hrows as [Hr Hrows]. cbn [concat length].
  rewrite length_app, Hr, IH by done. lia.
Qed.


Lemma sub_sequence_length frame I0 j : length (sub_sequence frame I0 j) = 223%nat.
Proof. unfold sub_sequence, rangeZ. by rewrite !length_map, length_seq. Qed.

Lemma sub_sequence_bytes frame I0 j : bytes_ok frame -> bytes_ok (sub_sequence frame I0 j).
Proof.
  intros Hf. unfold sub_sequence. apply Forall_map, Forall_forall. intros n _.
  cbn. unfold getZ. by apply (at0_byte frame).
Qed.

Lemma branch_of_sub_sequence (p : params) (frame : list Z) (i j : nat) :
  I p = Z.of_nat i -> (1 <= i)%nat -> (j < i)%nat -> length frame = (223 * i)%nat ->
  branch_of p frame j = sub_sequence frame (I p) (Z.of_nat j).
Proof.
  intros HI Hi Hj Hlen. unfold branch_of. rewrite HI, Nat2Z.id.
  rewrite (slice_step_spec frame j i 223) by done.
  assert (E : map (fun n => at0 frame (n * i + j)) (seq 0 223)
              = sub_sequence frame (Z.of_nat i) (Z.of_nat j)).
  { unfold sub_sequence, rangeZ. rewrite map_map. apply map_ext. intros n.
    rewrite <- getZ_at0. f_equal. lia. }
  rewrite E, sub_sequence_length. done.
Qed.

Lemma encode_branches_ok (brs : list (list Z)) :
  Forall (fun br => length br = 223%nat) brs ->
  encode_branches brs = Ok (map (fun br => br ++ parity_of br) brs).
Proof.
  induction brs as [|br brs IH]; intros H; [done|].
  apply Forall_cons in H as [Hbr Hbrs]. cbn [encode_branches map].
  unfold _rs_encode_223_255 at 1. rewrite Hbr. cbn [negb mbind result_bind].
  change (Z.of_nat 223 =? K) with true. cbn [negb mbind result_bind].
  by rewrite IH.
Qed.

Lemma rs_encode_parity_of (data : list Z) :
  length data = 223%nat -> _rs_encode_223_255 data = Ok (parity_of data).
Proof. intros H. unfold _rs_encode_223_255. by rewrite H. Qed.

Lemma multiplex_spec (p : params) (cws : list (list Z)) (i : nat) :
  I p = Z.of_nat i ->
  length (multiplex p cws) = (255 * i)%nat /\
  forall n j, (n < 255)%nat -> (j < i)%nat ->
    at0 (multiplex p cws) (n * i + j) = at0 (default [] (cws !! j)) n.
Proof.
  intros HI. unfold multiplex. rewrite HI, Nat2Z.id.
  set (row := fun sym_idx : Z =>
                map (fun j => getZ (default [] (cws !! j)) sym_idx) (seq 0 i)).
  assert (Hrows : Forall (fun r => length r = i) (map row (rangeZ (Z.to_nat N)))).
  { apply Forall_map, Forall_forall. intros x _. cbn. unfold row.
    by rewrite length_map, length_seq. }
  split.
  - rewrite (concat_length_uniform i) by done.
    unfold rangeZ. by rewrite !length_map, length_seq.
  - intros n j Hn Hj. unfold at0 at 1.
    rewrite (concat_lookup_uniform i) by done.
    unfold rangeZ. rewrite !list_lookup_fmap.
    rewrite lookup_seq_lt by (change (Z.to_nat N) with 255%nat; lia).
    cbn [fmap option_fmap option_map mbind option_bind].
    unfold row. rewrite list_lookup_fmap, lookup_seq_lt by done.
    cbn. apply getZ_at0.
Qed.

(** C2. For every input frame of exactly 223*I bytes (tagged at its first
    byte, with room for the output; [later] are the bytes that may follow
    it in the input window), the stage produces exactly 255*I
    bytes with [output[n*I + j] = codeword_j[n]] for [n] in [0, 255) and
    [j] in [0, I), where [codeword_j = sub_j ++ parity_j],
    [sub_j[n] = frame[n*I + j]] for [n] in [0, 223), and [parity_j] is the
    32-byte remainder of [x^32 * sub_j(x)] divided by the generator [gen]:
    there is a quotient [q] with [q * gen + parity_j = x^32 * sub_j(x)],
    in the block's own polynomial arithmetic over GF(256).  The first
    223*I output bytes are the frame itself. *)
Theorem rs_interleave_encode (I0 : Z) (p : params) (frame later : list Z)
    (L n_out nw : Z) (more : list tag) :
  1 <= I0 -> make I0 (223 * I0) = Ok p ->
  Z.of_nat (length frame) = 223 * I0 -> bytes_ok frame ->
  223 * I0 <= L -> 255 * I0 <= n_out ->
  exists out,
    RsEncoder.general_work p (frame ++ later) ((0, L) :: more) n_out nw
      = Ok {| w_out := out; w_tags := [(nw, 255 * I0)]; w_consumed := 223 * I0 |} /\
    Z.of_nat (length out) = 255 * I0 /\
    (forall j, 0 <= j < I0 ->
       exists q parity,
         _rs_encode_223_255 (sub_sequence frame I0 j) = Ok parity /\
         length parity = 32%nat /\ length q = 223%nat /\
         _poly_add (_poly_mul q gen) parity
           = sub_sequence frame I0 j ++ replicate 32 0 /\
         forall n, 0 <= n < 255 ->
           getZ out (n * I0 + j) = getZ (sub_sequence frame I0 j ++ parity) n) /\
    slice_to out (223 * I0) = frame.
Proof.
  intros HI Hmake Hlen Hbytes HL Hout.
  unfold make in Hmake. change K with 223 in Hmake.
  rewrite Z.eqb_refl in Hmake. cbn [negb] in Hmake. injection Hmake as <-.
  set (p := {| I := I0; tm_len := 223 * I0 |}).
  set (i := Z.to_nat I0).
  assert (HIp : I p = Z.of_nat i) by (unfold p, i; cbn; lia).
  assert (Hi : (1 <= i)%nat) by lia.
  assert (Hlen' : length frame = (223 * i)%nat) by lia.
  set (cws := map (fun br => br ++ parity_of br)
                  (map (branch_of p frame) (seq 0 i))).
  assert (Hcw : forall j, (j < i)%nat ->
            cws !! j = Some (sub_sequence frame I0 (Z.of_nat j)
                             ++ parity_of (sub_sequence frame I0 (Z.of_nat j)))).
  { intros j Hj. unfold cws. rewrite !list_lookup_fmap, lookup_seq_lt by done.
    cbn. by rewrite (branch_of_sub_sequence p frame i j). }
  destruct (multiplex_spec p cws i HIp) as [Hml Hmx].
  exists (multiplex p cws). split; [|split; [lia|split]].
  - unfold general_work. cbn [I tm_len p].
    rewrite length_app.
    destruct (Z.eqb_spec (Z.of_nat (length frame + length later)) 0); [lia|].
    destruct (Z.eqb_spec n_out 0); [lia|]. cbn [orb].
    change (0 <? 0) with false. cbv iota.
    destruct (Z.ltb_spec L (223 * I0)); [lia|].
    destruct (Z.ltb_spec (Z.of_nat (length frame + length later)) (223 * I0)); [lia|].
    cbn [orb]. rewrite <- Hlen, slice_to_nat, take_app_length.
    fold i. fold p.
    rewrite encode_branches_ok.
    + cbn [mbind result_bind]. fold cws. change (N * I0) with (255 * I0).
      destruct (Z.ltb_spec n_out (255 * I0)); [lia|]. by rewrite Hlen.
    + apply Forall_map, Forall_forall. intros j Hj. apply list_elem_of_In, in_seq in Hj.
      cbn. rewrite (branch_of_sub_sequence p frame i j) by (done || lia).
      apply sub_sequence_length.
  - intros j Hj.
    set (sub := sub_sequence frame I0 j).
    destruct (rs_encode_remainder sub (sub_sequence_length _ _ _)
                (sub_sequence_bytes _ _ _ Hbytes))
      as (q & parity & Henc & Hlp & _ & Hlq & Hrem).
    exists q, parity. repeat split; try done.
    intros n Hn.
    rewrite rs_encode_parity_of in Henc by apply sub_sequence_length.
    injection Henc as <-.
    replace (n * I0 + j) with (Z.of_nat (Z.to_nat n * i + Z.to_nat j)) by lia.
    rewrite getZ_at0, Hmx, Hcw by lia. cbn [default id].
    rewrite Z2Nat.id by lia. fold sub.
    replace n with (Z.of_nat (Z.to_nat n)) at 2 by lia. by rewrite getZ_at0.
  - replace (223 * I0) with (Z.of_nat (223 * i)) by lia. rewrite slice_to_nat.
    apply list_eq_at0; [rewrite length_take; lia|].
    intros k Hk. rewrite length_take in Hk.
    unfold at0 at 1. rewrite lookup_take_lt by lia. fold (at0 (multiplex p cws) k).
    rewrite (Nat.div_mod_eq k i), (Nat.mul_comm i).
    assert (Hmod : (k mod i < i)%nat) by (apply Nat.mod_upper_bound; lia).
    assert (Hdiv : (k / i < 223)%nat) by (apply Nat.Div0.div_lt_upper_bound; lia).
    rewrite Hmx, Hcw by lia. cbn [default id].
    rewrite at0_app_l by (rewrite sub_sequence_length; lia).
    unfold sub_sequence, rangeZ, at0 at 1.
    rewrite !list_lookup_fmap, lookup_seq_lt by done. cbn.
    rewrite <- getZ_at0. f_equal. lia.
Qed.

(** The table-driven product is the product of GF(256) with primitive
    polynomial 0x11D, for all 65536 pairs of bytes. *)
Lemma gf_mul_is_field_product (a b : Z) :
  is_byte a -> is_byte b -> _gf_mul a b = gf_mul_ref a b.
Proof.
  unfold is_byte. intros Ha Hb.
  assert (H : all_from (Z.to_nat 65536) 0 gf_mul_pair_ok = true)
    by (vm_compute; reflexivity).
  apply (all_from_spec _ _ 0 (a * 256 + b)) in H; [|lia].
  unfold gf_mul_pair_ok in H. apply Z.eqb_eq in H.
  replace ((a * 256 + b) / 256) with a in H
    by (apply Z.div_unique with b; lia).
  replace ((a * 256 + b) mod 256) with b in H
    by (apply Z.mod_unique with a; lia).
  exact H.
Qed.

(** The powers of alpha = 2 fill [gf_exp], and the generator vanishes at
    alpha^1 .. alpha^32: it is the monic polynomial of degree 32 with
    these 32 roots. *)
Lemma gen_roots :
  getZ gf_exp 0 = 1 /\ getZ gf_exp 1 = 2 /\
  forallb (fun i => getZ gf_exp (i + 1) =? gf_mul_ref (getZ gf_exp i) 2)
          (rangeZ 254) = true /\
  forallb (fun i => poly_eval gen (getZ gf_exp i) =? 0)
          (map Z.of_nat (seq 1 32)) = true /\
  NoDup (map (getZ gf_exp) (map Z.of_nat (seq 1 32))).
Proof.
  split; [reflexivity|]. split; [reflexivity|].
  split; [vm_compute; reflexivity|]. split; [vm_compute; reflexivity|].
  refine (bool_decide_unpack _ _). vm_compute. constructor.
Qed.

(** The generator polynomial is the product that [_rs_generator] computes,
    [prod_{i=1..32} (x - alpha^i)] with [alpha = gf_exp[1] = 2]. *)
Lemma gen_is_rs_generator : gen = _rs_generator 32 /\ getZ gf_exp 1 = 2.
Proof. split; [vm_compute|]; reflexivity. Qed.

Lemma frame223_bytes : bytes_ok frame223.
Proof.
  apply Forall_forall. intros x Hx. apply list_elem_of_In, in_rangeZ in Hx.
  unfold is_byte. lia.
Qed.

Lemma rs_interleave_encode_witness :
  1 <= 1 /\ make 1 (223 * 1) = Ok params1 /\
  Z.of_nat (length frame223) = 223 * 1 /\ bytes_ok frame223 /\
  223 * 1 <= 223 /\ 255 * 1 <= 255 /\
  exists out,
    general_work params1 (frame223 ++ []) [(0, 223)] 255 0
      = Ok {| w_out := out; w_tags := [(0, 255 * 1)]; w_consumed := 223 * 1 |} /\
    Z.of_nat (length out) = 255 * 1 /\
    slice_to out (223 * 1) = frame223.
Proof.
  assert (H1 : 1 <= 1) by lia.
  assert (H2 : make 1 (223 * 1) = Ok params1) by reflexivity.
  assert (H3 : Z.of_nat (length frame223) = 223 * 1) by reflexivity.
  assert (H5 : 223 * 1 <= 223) by lia.
  assert (H6 : 255 * 1 <= 255) by lia.
  repeat (split; [assumption || exact frame223_bytes|]).
  destruct (rs_interleave_encode 1 params1 frame223 [] 223 255 0 [] H1 H2 H3
              frame223_bytes H5 H6) as (out & Hw & Hl & _ & Hf).
  exists out. split; [exact Hw|]. split; [exact Hl | exact Hf].
Defined.

End RsFacts.

Section L7Facts.
Import Crc32c Sender SenderSpec Receiver ReceiverSplit L7Spec.

Lemma lor_add_disjoint (a b n : Z) :
  0 <= n -> a mod 2 ^ n = 0 -> 0 <= b < 2 ^ n -> Z.lor a b = a + b.
Proof.
  intros Hn Ha Hb.
  assert (Hland : Z.land a b = 0).
  { apply Z.bits_inj'. intros m Hm. rewrite Z.land_spec, Z.bits_0.
    destruct (Z.lt_ge_cases m n) as [Hlt|Hge].
    - rewrite (Z.div_mod a (2 ^ n)), Ha, Z.add_0_r by lia.
      rewrite Z.mul_comm, <- Z.shiftl_mul_pow2 by lia.
      by rewrite Z.shiftl_spec_low.
    - destruct (Z.eq_dec b 0) as [->|Hb0]; [by rewrite Z.bits_0, andb_false_r|].
      rewrite (Z.bits_above_log2 b m), andb_false_r; [done|lia|].
      apply Z.log2_lt_pow2; [lia|].
      apply Z.lt_le_trans with (2 ^ n); [lia|].
      apply Z.pow_le_mono_r; lia. }
  rewrite <- Z.lxor_lor by done. symmetry. by apply Z.add_nocarry_lxor.
Qed.

Lemma slice_middle {A} (pre mid post : list A) :
  slice (pre ++ mid ++ post) (Z.of_nat (length pre))
        (Z.of_nat (length pre) + Z.of_nat (length mid)) = mid.
Proof.
  unfold slice. rewrite !py_bound_nonneg by lia. rewrite !length_app.
  replace (Nat.min (Z.to_nat (Z.of_nat (length pre))) _) with (length pre) by lia.
  replace (Nat.min (Z.to_nat (Z.of_nat (length pre) + Z.of_nat (length mid))) _)
    with (length pre + length mid)%nat by lia.
  rewrite drop_app_length.
  replace (length pre + length mid - length pre)%nat with (length mid) by lia.
  by rewrite take_app_length.
Qed.

Lemma land_ones_mod (x k : Z) : 0 <= k -> Z.land x (2 ^ k - 1) = x mod 2 ^ k.
Proof.
  intros Hk. rewrite <- Z.land_ones by done. f_equal. rewrite Z.ones_equiv. lia.
Qed.

Lemma pack_word1 (v t shf apid : Z) :
  0 <= v <= 7 -> 0 <= t <= 1 -> 0 <= shf <= 1 -> 0 <= apid <= 0x7FF ->
  Z.lor (Z.lor (Z.lor (Z.shiftl v 13) (Z.shiftl t 12)) (Z.shiftl shf 11)) apid
  = v * 8192 + t * 4096 + shf * 2048 + apid.
Proof.
  intros Hv Ht Hs Ha. rewrite !Z.shiftl_mul_pow2 by lia.
  change (2 ^ 13) with 8192. change (2 ^ 12) with 4096. change (2 ^ 11) with 2048.
  rewrite (lor_add_disjoint (v * 8192) (t * 4096) 13); [|lia| |lia].
  2:{ change (2 ^ 13) with 8192. by rewrite Z.mod_mul. }
  rewrite (lor_add_disjoint _ (shf * 2048) 12); [|lia| |lia].
  2:{ change (2 ^ 12) with 4096. replace (v * 8192 + t * 4096) with ((v * 2 + t) * 4096) by lia.
      by rewrite Z.mod_mul. }
  rewrite (lor_add_disjoint _ apid 11); [done|lia| |lia].
  change (2 ^ 11) with 2048.
  replace (v * 8192 + t * 4096 + shf * 2048) with ((v * 4 + t * 2 + shf) * 2048) by lia.
  by rewrite Z.mod_mul.
Qed.

Lemma pack_word2 (sf sc : Z) :
  0 <= sf <= 3 -> 0 <= sc <= 0x3FFF ->
  Z.lor (Z.shiftl sf 14) sc = sf * 16384 + sc.
Proof.
  intros Hf Hc. rewrite Z.shiftl_mul_pow2 by lia. change (2 ^ 14) with 16384.
  rewrite (lor_add_disjoint _ sc 14); [done|lia| |lia].
  change (2 ^ 14) with 16384. by rewrite Z.mod_mul.
Qed.

Lemma from_bytes_big_be2 (w : Z) :
  0 <= w < 65536 -> from_bytes_big (be_bytes 2 w) = w.
Proof.
  intros Hw. rewrite from_bytes_big_be_bytes.
  change (256 ^ Z.of_nat 2) with 65536. by rewrite Z.mod_small.
Qed.

Lemma slices6 {A} (a b c d e f : A) (rest : list A) :
  slice (a :: b :: c :: d :: e :: f :: rest) 0 2 = [a; b] /\
  slice (a :: b :: c :: d :: e :: f :: rest) 2 4 = [c; d] /\
  slice (a :: b :: c :: d :: e :: f :: rest) 4 6 = [e; f].
Proof. unfold slice, py_bound. cbn. done. Qed.

Lemma parse_pack_primary_header v t shf apid sf sc len hdr rest :
  pack_primary_header v t shf apid sf sc len = Ok hdr ->
  parse_primary_header (hdr ++ rest)
  = Ok {| ph_version := v; ph_type := t; ph_shf := shf; ph_apid := apid;
          ph_seq_flags := sf; ph_seq_count := sc; ph_data_field_len := len;
          ph_total_len := 6 + (len + 1) |}.
Proof.
  unfold pack_primary_header. cbv zeta.
  destruct (Z.leb_spec 0 v), (Z.leb_spec v 7); try discriminate.
  destruct (Z.eqb_spec t 0), (Z.eqb_spec t 1); try discriminate;
  destruct (Z.eqb_spec shf 0), (Z.eqb_spec shf 1); try discriminate;
  destruct (Z.leb_spec 0 apid), (Z.leb_spec apid 0x7FF); try discriminate;
  destruct (Z.leb_spec 0 sf), (Z.leb_spec sf 3); try discriminate;
  destruct (Z.leb_spec 0 sc), (Z.leb_spec sc 0x3FFF); try discriminate;
  destruct (Z.leb_spec 0 len), (Z.leb_spec len 0xFFFF); try discriminate;
  cbn [negb andb orb]; try lia.
  all: rewrite pack_word1, pack_word2 by lia.
  all: intros [= <-].
  all: set (w1 := _ + apid); set (w2 := _ + sc).
  all: unfold parse_primary_header.
  all: cbn [app length Nat.ltb Nat.leb].
  all: destruct (slices6 (w1 / 256 mod 256) (w1 mod 256) (w2 / 256 mod 256) (w2 mod 256) (len / 256 mod 256) (len mod 256) rest) as (-> & -> & ->).
  all: cbn [from_bytes_big fold_left].
  all: rewrite !Z.shiftr_div_pow2 by lia.
  all: change 0x7 with (2 ^ 3 - 1); change 0x1 with (2 ^ 1 - 1);
       change 0x7FF with (2 ^ 11 - 1); change 0x3 with (2 ^ 2 - 1);
       change 0x3FFF with (2 ^ 14 - 1).
  all: rewrite !land_ones_mod by lia.
  all: subst w1 w2; f_equal; f_equal; Z.div_mod_to_equations; lia.
Qed.


Lemma pad_or_truncate_spec (l : list Z) (d pb : Z) (u : list Z) :
  0 <= d -> pad_or_truncate_to_len l d pb = Ok u ->
  u = take (Z.to_nat d) (l ++ replicate (Z.to_nat d - length l) pb).
Proof.
  intros Hd. unfold pad_or_truncate_to_len. cbv zeta.
  destruct (Z.eqb_spec (Z.of_nat (length l)) d) as [E|E].
  - intros [= <-]. replace (Z.to_nat d - length l)%nat with 0%nat by lia.
    cbn [replicate]. rewrite app_nil_r, take_ge; [done|lia].
  - destruct (Z.ltb_spec (Z.of_nat (length l)) d) as [Hlt|Hge].
    + destruct (_ && _); [|discriminate]. intros [= <-].
      rewrite take_ge; [f_equal; f_equal; lia|].
      rewrite length_app, length_replicate. lia.
    + intros [= <-]. replace (Z.to_nat d - length l)%nat with 0%nat by lia.
      cbn [replicate]. rewrite app_nil_r. unfold slice_to.
      rewrite py_bound_nonneg by lia. f_equal. lia.
Qed.

Lemma pad_or_truncate_length (l : list Z) (d pb : Z) (u : list Z) :
  0 <= d -> pad_or_truncate_to_len l d pb = Ok u -> Z.of_nat (length u) = d.
Proof.
  intros Hd H. pose proof H as H'. unfold pad_or_truncate_to_len in H'. cbv zeta in H'.
  destruct (Z.eqb_spec (Z.of_nat (length l)) d) as [E|E]; [by injection H' as <-|].
  destruct (Z.ltb_spec (Z.of_nat (length l)) d) as [Hlt|Hge].
  - destruct (_ && _); [|discriminate]. injection H' as <-.
    rewrite length_app, length_replicate. lia.
  - injection H' as <-. unfold slice_to. rewrite py_bound_nonneg by lia.
    rewrite length_take. lia.
Qed.

(** What [build_packet_for_profile] returns, step by step. *)
Lemma build_packet_inv e ps counter pkt total mic_hex :
  build_packet_for_profile e ps counter = Ok (pkt, total, mic_hex) ->
  let use_mic := default false (p_use_mic (prof ps)) in
  let mic_len := if use_mic then 4 else 0 in
  exists apid hdr sec body U,
    make_sec_hdr e (default empty_sec_hdr (p_sec_hdr (prof ps))) = Ok sec /\
    body_from_spec e (default empty_body (p_body (prof ps))) counter = Ok body /\
    let d := default (Z.of_nat (length sec) + Z.of_nat (length body) + mic_len)
                     (p_data_field_len (prof ps)) in
    let user := if use_mic then U ++ be_bytes 4 (crc32c U) else U in
    0 <= d - Z.of_nat (length sec) - mic_len /\
    pad_or_truncate_to_len body (d - Z.of_nat (length sec) - mic_len)
                           (pad_byte_of (prof ps)) = Ok U /\
    mic_hex = (if use_mic then fmt_0x08x (crc32c U) else ""%string) /\
    pack_primary_header 0
      (if String.eqb (upper (default "TC"%string (p_type (prof ps)))) "TC" then 1 else 0)
      (if 0 <? Z.of_nat (length sec) then 1 else 0) apid 3
      (Z.land (seq ps) 0x3FFF)
      (Z.of_nat (length sec) + Z.of_nat (length user) - 1) = Ok hdr /\
    pkt = hdr ++ sec ++ user /\
    total = Z.of_nat (length pkt).
Proof.
  intros H use_mic mic_len. unfold build_packet_for_profile in H.
  apply bind_ok_inv in H as (apid & _ & H).
  apply bind_ok_inv in H as (sec & Hsec & H).
  apply bind_ok_inv in H as (body & Hbody & H).
  fold (pad_byte_of (prof ps)) in H. fold use_mic in H. fold mic_len in H.
  destruct (Z.ltb_spec
    (default (Z.of_nat (length sec) + Z.of_nat (length body) + mic_len)
             (p_data_field_len (prof ps)) - Z.of_nat (length sec) - mic_len) 0)
    as [|Hd]; [discriminate H|].
  apply bind_ok_inv in H as (U & HU & H).
  apply bind_ok_inv in H as ([user mh] & Hum & H).
  apply bind_ok_inv in H as (hdr & Hhdr & H).
  injection H as <- <- <-.
  exists apid, hdr, sec, body, U. cbv zeta.
  destruct use_mic.
  - rewrite be_u32_crc32c in Hum. injection Hum as <- <-. done.
  - injection Hum as <- <-. done.
Qed.


(** *** Decimal text: [str(n)] read back by [int(s)] *)

Lemma dec_digit_cases (d : Z) (P : Z -> Prop) :
  0 <= d < 10 ->
  P 0 -> P 1 -> P 2 -> P 3 -> P 4 -> P 5 -> P 6 -> P 7 -> P 8 -> P 9 -> P d.
Proof.
  intros Hd. intros.
  assert (d = 0 \/ d = 1 \/ d = 2 \/ d = 3 \/ d = 4 \/ d = 5 \/ d = 6 \/ d = 7
          \/ d = 8 \/ d = 9) as Hc by lia.
  repeat (destruct Hc as [->|Hc]; [assumption|]). by subst.
Qed.

Lemma digits_dec_digit (prev : bool) (acc n : Z) (s : list ascii) :
  0 <= n ->
  digits 10 prev acc (ascii_of_N (Z.to_N (48 + n mod 10)) :: s)
  = digits 10 true (acc * 10 + n mod 10) s.
Proof.
  intros Hn. assert (Hd : 0 <= n mod 10 < 10) by (apply Z.mod_pos_bound; lia).
  revert Hd. generalize (n mod 10). intros d Hd.
  pattern d. by apply dec_digit_cases.
Qed.

Lemma dec_digit_not_space (d : Z) :
  0 <= d < 10 -> is_space (ascii_of_N (Z.to_N (48 + d))) = false.
Proof. intros Hd. pattern d. by apply dec_digit_cases. Qed.

Lemma digits_dec_chars (fuel : nat) :
  forall n prev tail,
    0 <= n < 10 ^ Z.of_nat (S fuel) ->
    digits 10 prev 0 (dec_chars (S fuel) n tail) = digits 10 true n tail.
Proof.
  induction fuel as [|fuel IH]; intros n prev tail Hn.
  - change (10 ^ Z.of_nat 1) with 10 in Hn. cbn [dec_chars].
    rewrite Z.div_small by done. cbn [Z.eqb].
    rewrite digits_dec_digit by lia. f_equal. rewrite Z.mod_small; lia.
  - rewrite Nat2Z.inj_succ, Z.pow_succ_r in Hn by lia.
    change (dec_chars (S (S fuel)) n tail) with
      (let acc' := ascii_of_N (Z.to_N (48 + n mod 10)) :: tail in
       if n / 10 =? 0 then acc' else dec_chars (S fuel) (n / 10) acc').
    cbv zeta. destruct (Z.eqb_spec (n / 10) 0) as [E|E].
    + rewrite digits_dec_digit by lia.
      f_equal. Z.div_mod_to_equations; lia.
    + rewrite IH by (Z.div_mod_to_equations; lia).
      rewrite digits_dec_digit by lia.
      f_equal. Z.div_mod_to_equations; lia.
Qed.

Lemma dec_chars_no_space (fuel : nat) :
  forall n tail,
    0 <= n -> Forall (fun c => is_space c = false) tail ->
    Forall (fun c => is_space c = false) (dec_chars fuel n tail).
Proof.
  induction fuel as [|fuel IH]; intros n tail Hn Ht; [done|].
  cbn [dec_chars].
  assert (Forall (fun c => is_space c = false)
            (ascii_of_N (Z.to_N (48 + n mod 10)) :: tail)).
  { apply Forall_cons. split; [|done].
    apply dec_digit_not_space. apply Z.mod_pos_bound. lia. }
  destruct (n / 10 =? 0); [done|]. apply IH; [|done].
  apply Z.div_pos; lia.
Qed.

Lemma lstrip_no_space (l : list ascii) :
  Forall (fun c => is_space c = false) l -> lstrip l = l.
Proof. destruct 1 as [|c l Hc _]; [done|]. cbn [lstrip]. by rewrite Hc. Qed.

Lemma strip_no_space (l : list ascii) :
  Forall (fun c => is_space c = false) l -> strip l = l.
Proof.
  intros H. unfold strip. rewrite (lstrip_no_space l H).
  rewrite lstrip_no_space; [apply rev_involutive|].
  by apply List.Forall_rev.
Qed.

Lemma dec_chars_head (fuel : nat) (n : Z) (tail : list ascii) :
  0 <= n ->
  exists d rest, 0 <= d < 10 /\
    dec_chars (S fuel) n tail = ascii_of_N (Z.to_N (48 + d)) :: rest.
Proof.
  revert n tail. induction fuel as [|fuel IH]; intros n tail Hn.
  - cbn [dec_chars]. exists (n mod 10), tail.
    split; [apply Z.mod_pos_bound; lia|]. by destruct (_ =? 0).
  - change (dec_chars (S (S fuel)) n tail) with
      (let acc' := ascii_of_N (Z.to_N (48 + n mod 10)) :: tail in
       if n / 10 =? 0 then acc' else dec_chars (S fuel) (n / 10) acc').
    cbv zeta. destruct (n / 10 =? 0).
    + exists (n mod 10), tail. split; [apply Z.mod_pos_bound; lia|done].
    + apply IH. apply Z.div_pos; lia.
Qed.

Lemma py_int_fmt_dec (n : Z) : 0 <= n -> py_int 10 (fmt_dec n) = Some n.
Proof.
  intros Hn. unfold py_int, fmt_dec.
  rewrite list_ascii_of_string_of_list_ascii.
  set (fuel := Z.to_nat (Z.log2 n)).
  rewrite strip_no_space by (by apply dec_chars_no_space).
  assert (Hfuel : 0 <= n < 10 ^ Z.of_nat (S fuel)).
  { split; [done|]. unfold fuel. rewrite Nat2Z.inj_succ, Z2Nat.id by apply Z.log2_nonneg.
    destruct (Z.eq_dec n 0) as [->|]; [done|].
    apply Z.lt_le_trans with (2 ^ Z.succ (Z.log2 n)).
    - apply Z.log2_spec. lia.
    - apply Z.pow_le_mono_l. lia. }
  pose proof (digits_dec_chars fuel n false [] Hfuel) as Hd.
  destruct (dec_chars_head fuel n [] Hn) as (d & rest & Hdr & E).
  rewrite E in Hd |- *.
  assert (Hc : code (ascii_of_N (Z.to_N (48 + d))) = 48 + d).
  { pattern d. by apply dec_digit_cases. }
  rewrite Hc.
  destruct (Z.eqb_spec (48 + d) 45); [lia|].
  destruct (Z.eqb_spec (48 + d) 43); [lia|].
  unfold unsigned_literal. rewrite Hc.
  change (10 =? 0) with false. change (10 =? 16) with false.
  cbn [orb]. cbn [digits] in Hd.
  destruct rest; [exact Hd|]. rewrite !andb_false_r. exact Hd.
Qed.

Lemma substring_0_length (s : string) : String.substring 0 (String.length s) s = s.
Proof. induction s as [|c s IH]; [done|]. cbn. by rewrite IH. Qed.

Lemma sec_len_from_mode_fixed (n : Z) :
  0 <= n -> sec_len_from_mode ("fixed:" ++ fmt_dec n) = Ok n.
Proof.
  intros Hn. unfold sec_len_from_mode, starts_with.
  pose proof (py_int_fmt_dec n Hn) as E. revert E.
  generalize (fmt_dec n). intros s E.
  change (String.append "fixed:" s)
    with (String "f" (String "i" (String "x" (String "e" (String "d" (String ":" s)))))).
  cbn.
  replace (String.substring 0 0 s) with EmptyString by (by destruct s).
  rewrite Nat.sub_0_r, substring_0_length. by rewrite E.
Qed.


Lemma be_u32_length (x : Z) (bs : list Z) : be_u32 x = Ok bs -> length bs = 4%nat.
Proof. unfold be_u32. destruct (_ && _); [|done]. by intros [= <-]. Qed.

Lemma be_u64_length (x : Z) (bs : list Z) : be_u64 x = Ok bs -> length bs = 8%nat.
Proof. unfold be_u64. destruct (_ && _); [|done]. by intros [= <-]. Qed.

(** The mode the receiver derives from a profile gives the length of the
    secondary header the sender builds from the same profile. *)
Lemma receiver_derives_sender_sec_len e (p : profile) apid apid_map sec :
  make_sec_hdr e (default empty_sec_hdr (p_sec_hdr p)) = Ok sec ->
  apid_map !! apid = Some (rx_view p) ->
  exists mode,
    expected_sec_mode_and_mic_for_apid apid apid_map
      = Ok (mode, Some (default false (p_use_mic p))) /\
    configured_sec_len (if 0 <? Z.of_nat (length sec) then 1 else 0) mode
      = Z.of_nat (length sec).
Proof.
  intros Hsec Hmap. unfold expected_sec_mode_and_mic_for_apid. rewrite Hmap.
  unfold rx_view. cbn [rp_sec_hdr rp_use_mic].
  unfold make_sec_hdr in Hsec.
  destruct (p_sec_hdr p) as [[mode hx]|]; cbn [fmap option_fmap option_map default id
    sh_mode sh_hex rsh_mode rsh_hex empty_sec_hdr] in *.
  2:{ injection Hsec as <-. by exists "none"%string. }
  destruct mode as [m|]; cbn [default id] in *.
  2:{ injection Hsec as <-. by exists "none"%string. }
  destruct (String.eqb_spec m "none") as [->|Hnone].
  { injection Hsec as <-. by exists "none"%string. }
  destruct (String.eqb_spec m "ns8") as [->|Hns8].
  { apply be_u64_length in Hsec. exists "ns8"%string. by rewrite Hsec. }
  destruct (String.eqb_spec m "sec_us32") as [->|Hus].
  { apply bind_ok_inv in Hsec as (s1 & H1 & Hsec).
    apply bind_ok_inv in Hsec as (s2 & H2 & Hsec). injection Hsec as <-.
    apply be_u32_length in H1, H2. exists "sec_us32"%string.
    rewrite length_app, H1, H2. done. }
  destruct (String.eqb_spec m "fixed") as [->|Hfix]; [|discriminate Hsec].
  destruct (negb _); [discriminate Hsec|].
  destruct (fromhex _) as [bs|]; [|discriminate Hsec]. injection Hsec as <-.
  eexists. split; [reflexivity|].
  unfold configured_sec_len.
  destruct (Z.ltb_spec 0 (Z.of_nat (length bs))) as [Hpos|Hz]; cbn [Z.eqb]; [|lia].
  by rewrite sec_len_from_mode_fixed by lia.
Qed.

(** The receiver in auto mode, with the sender's profile in its map,
    splits a packet of the sender where the sender joined it. *)
Lemma auto_split e ps counter pkt total mic_hex ph apid_map mic_mode :
  build_packet_for_profile e ps counter = Ok (pkt, total, mic_hex) ->
  parse_primary_header pkt = Ok ph ->
  apid_map !! ph_apid ph = Some (rx_view (prof ps)) ->
  exists hdr sec U mode,
    let use_mic := default false (p_use_mic (prof ps)) in
    let user := if use_mic then U ++ be_bytes 4 (crc32c U) else U in
    let m := mic_check mic_mode (Some use_mic) user in
    make_sec_hdr e (default empty_sec_hdr (p_sec_hdr (prof ps))) = Ok sec /\
    length hdr = 6%nat /\
    pkt = hdr ++ sec ++ user /\
    mic_hex = (if use_mic then fmt_0x08x (crc32c U) else ""%string) /\
    process_packet pkt ph "auto" mic_mode apid_map =
    Ok {| r_sec_mode := mode; r_sec_len := Z.of_nat (length sec); r_sec_hdr := sec;
          r_mic_state := m.1.1; r_mic_hex := m.1.2; r_user := m.2 |}.
Proof.
  intros Hb Hph Hmap.
  destruct (build_packet_inv _ _ _ _ _ _ Hb)
    as (apid & hdr & sec & body & U & Hsec & _ & _ & _ & Hmh & Hhdr & Hpkt & _).
  cbv zeta in *.
  set (use_mic := default false (p_use_mic (prof ps))) in *.
  set (user := if use_mic then U ++ be_bytes 4 (crc32c U) else U) in *.
  pose proof (pack_primary_header_length _ _ _ _ _ _ _ _ Hhdr) as Hlen.
  rewrite Hpkt in Hph. rewrite (parse_pack_primary_header _ _ _ _ _ _ _ _ _ Hhdr) in Hph.
  injection Hph as <-. cbn [ph_apid] in Hmap.
  destruct (receiver_derives_sender_sec_len e (prof ps) apid apid_map sec Hsec Hmap)
    as (mode & Hexp & Hcfg).
  exists hdr, sec, U, mode. split; [done|]. split; [done|]. split; [done|].
  split; [done|].
  rewrite (process_packet_unfold _ _ _ _ _ mode (Some use_mic)) by done.
  cbv zeta. cbn [ph_shf]. rewrite Hcfg.
  assert (Hdf : slice_from pkt 6 = sec ++ user).
  { rewrite Hpkt. change 6 with (Z.of_nat 6). rewrite slice_from_nat, <- Hlen.
    by rewrite drop_app_length. }
  rewrite Hdf.
  destruct (Z.ltb_spec (Z.of_nat (length (sec ++ user))) (Z.of_nat (length sec)))
    as [Hlt|_]; [rewrite length_app in Hlt; lia|].
  by rewrite slice_to_nat, slice_from_nat, take_app_length, drop_app_length.
Qed.


Lemma slice_to_last4 (xs four : list Z) :
  length four = 4%nat -> slice_to (xs ++ four) (-4) = xs.
Proof.
  intros H4. unfold slice_to, py_bound. cbn [Z.ltb Z.compare].
  rewrite length_app, H4.
  replace (Z.to_nat (Z.max 0 (Z.of_nat (length xs + 4) + -4))) with (length xs) by lia.
  by rewrite take_app_length.
Qed.

Lemma pack_primary_header_bounds v t shf apid sf sc len hdr :
  pack_primary_header v t shf apid sf sc len = Ok hdr ->
  0 <= apid <= 0x7FF /\ 0 <= len <= 0xFFFF.
Proof.
  unfold pack_primary_header. cbv zeta.
  destruct (Z.leb_spec 0 apid), (Z.leb_spec apid 0x7FF),
    (Z.leb_spec 0 len), (Z.leb_spec len 0xFFFF);
    cbn [andb negb]; rewrite ?andb_false_r; cbn [negb]; try lia;
    repeat match goal with |- context [if ?c then _ else _] => destruct c end;
    discriminate.
Qed.

Lemma parse_take_6 (p : list Z) :
  (6 <= length p)%nat -> parse_primary_header (take 6 p) = parse_primary_header p.
Proof.
  intros H. do 6 (destruct p as [|? p]; [cbn in H; lia|]).
  unfold parse_primary_header. cbn [take length Nat.ltb Nat.leb].
  repeat match goal with
         | |- context [slice (?a :: ?b :: ?c :: ?d :: ?e :: ?f :: ?r) 0 2] =>
             destruct (slices6 a b c d e f r) as (-> & -> & ->)
         end.
  done.
Qed.

Lemma parse_ok_length (p : list Z) ph :
  parse_primary_header p = Ok ph -> (6 <= length p)%nat.
Proof.
  unfold parse_primary_header. destruct (Nat.ltb_spec (length p) 6); [done|lia].
Qed.

Lemma slice_head_6 (pre p post : list Z) :
  (6 <= length p)%nat ->
  slice (pre ++ p ++ post) (Z.of_nat (length pre)) (Z.of_nat (length pre) + 6) = take 6 p.
Proof.
  intros H. rewrite <- (take_drop 6 p) at 1. rewrite <- app_assoc.
  pose proof (slice_middle pre (take 6 p) (drop 6 p ++ post)) as E.
  rewrite length_take in E. by replace (Z.of_nat (6 `min` length p)) with 6 in E by lia.
Qed.

Lemma iter_from_spec (t : list Z) (pkts : list (list Z)) :
  forall pre fuel,
    Forall whole_packet pkts -> truncated t -> (length pkts <= fuel)%nat ->
    Forall2 (fun p y => y.1 = p /\ parse_primary_header p = Ok y.2) pkts
            (iter_from fuel (pre ++ concat pkts ++ t) (Z.of_nat (length pre))).
Proof.
  induction pkts as [|p pkts IH]; intros pre fuel Hw Ht Hfuel.
  - cbn [concat app]. destruct fuel as [|fuel]; [constructor|]. cbn [iter_from].
    destruct (Z.ltb_spec (Z.of_nat (length (pre ++ t))) (Z.of_nat (length pre) + 6))
      as [|H6]; [constructor|].
    rewrite length_app in H6.
    destruct Ht as [Ht|(ph & Hph & Hlen)]; [lia|].
    pose proof (slice_head_6 pre t [] ltac:(lia)) as E. rewrite app_nil_r in E.
    rewrite E, parse_take_6, Hph by lia.
    destruct (Z.ltb_spec (Z.of_nat (length (pre ++ t)))
                (Z.of_nat (length pre) + ph_total_len ph)) as [|Hbad]; [constructor|].
    rewrite length_app in Hbad. lia.
  - apply Forall_cons in Hw as [(ph & Hph & Hlen) Hw].
    pose proof (parse_ok_length _ _ Hph) as H6.
    destruct fuel as [|fuel]; [cbn in Hfuel; lia|]. cbn [iter_from concat].
    rewrite <- !app_assoc.
    destruct (Z.ltb_spec (Z.of_nat (length (pre ++ p ++ concat pkts ++ t)))
                (Z.of_nat (length pre) + 6)) as [Hbad|_].
    { rewrite !length_app in Hbad. lia. }
    rewrite slice_head_6, parse_take_6, Hph by done.
    destruct (Z.ltb_spec (Z.of_nat (length (pre ++ p ++ concat pkts ++ t)))
                (Z.of_nat (length pre) + ph_total_len ph)) as [Hbad|_].
    { rewrite !length_app in Hbad. lia. }
    rewrite Hlen, slice_middle.
    constructor; [done|].
    replace (Z.of_nat (length pre) + Z.of_nat (length p))
      with (Z.of_nat (length (pre ++ p))) by (rewrite length_app; lia).
    rewrite (app_assoc pre p). apply IH; [done|done|cbn in Hfuel; lia].
Qed.

Lemma whole_packets_length (pkts : list (list Z)) :
  Forall whole_packet pkts -> (length pkts <= length (concat pkts))%nat.
Proof.
  induction 1 as [|p pkts (ph & Hph & _) _ IH]; [done|].
  apply parse_ok_length in Hph. cbn [concat length]. rewrite length_app. lia.
Qed.

(** X1. [parse_primary_header] of the receiver inverts
    [pack_primary_header] of the sender: the six bytes the sender packs
    from fields that pass its assertions are read back, whatever follows
    them, as the same version, type, secondary-header flag, APID,
    sequence flags, sequence count and length field, with a total length
    of the length field plus 7. *)
Theorem primary_header_round_trip v t shf apid sf sc len hdr rest :
  pack_primary_header v t shf apid sf sc len = Ok hdr ->
  length hdr = 6%nat /\
  parse_primary_header (hdr ++ rest)
  = Ok {| ph_version := v; ph_type := t; ph_shf := shf; ph_apid := apid;
          ph_seq_flags := sf; ph_seq_count := sc; ph_data_field_len := len;
          ph_total_len := 6 + (len + 1) |}.
Proof.
  intros H. split.
  - eapply pack_primary_header_length, H.
  - by apply parse_pack_primary_header.
Qed.

Lemma primary_header_round_trip_witness :
  pack_primary_header 0 1 1 0xB3 3 5 137 = Ok [0x18; 0xB3; 0xC0; 0x05; 0x00; 0x89] /\
  length [0x18; 0xB3; 0xC0; 0x05; 0x00; 0x89] = 6%nat /\
  parse_primary_header ([0x18; 0xB3; 0xC0; 0x05; 0x00; 0x89] ++ [1; 2; 3])
  = Ok {| ph_version := 0; ph_type := 1; ph_shf := 1; ph_apid := 0xB3;
          ph_seq_flags := 3; ph_seq_count := 5; ph_data_field_len := 137;
          ph_total_len := 6 + (137 + 1) |}.
Proof.
  split; [reflexivity|].
  exact (primary_header_round_trip 0 1 1 0xB3 3 5 137 _ [1; 2; 3] eq_refl).
Defined.

(** X2. Every packet [build_packet_for_profile] returns announces its own
    length: the returned total is the number of bytes of the packet, it
    lies between 7 and 65542 (the data field is never empty), it is
    6 + data_field_len whenever the profile sets data_field_len, and the
    receiver's [parse_primary_header] reads from the packet a total length
    equal to it, version 0, sequence flags 3 and the profile state's
    sequence number masked to 14 bits. *)
Theorem built_packet_announces_its_length e ps counter pkt total mic_hex :
  build_packet_for_profile e ps counter = Ok (pkt, total, mic_hex) ->
  total = Z.of_nat (length pkt) /\
  7 <= total <= 65542 /\
  (forall d, p_data_field_len (prof ps) = Some d -> total = 6 + d) /\
  exists ph,
    parse_primary_header pkt = Ok ph /\
    ph_total_len ph = total /\
    ph_version ph = 0 /\ ph_seq_flags ph = 3 /\
    ph_seq_count ph = Z.land (seq ps) 0x3FFF.
Proof.
  intros Hb.
  destruct (build_packet_inv _ _ _ _ _ _ Hb)
    as (apid & hdr & sec & body & U & Hsec & Hbody & Hd & HU & Hmh & Hhdr & Hpkt & Htot).
  cbv zeta in *.
  set (use_mic := default false (p_use_mic (prof ps))) in *.
  set (user := if use_mic then U ++ be_bytes 4 (crc32c U) else U) in *.
  pose proof (pack_primary_header_length _ _ _ _ _ _ _ _ Hhdr) as Hlen.
  pose proof (pack_primary_header_bounds _ _ _ _ _ _ _ _ Hhdr) as [_ Hbound].
  assert (Hpl : Z.of_nat (length pkt) = 6 + Z.of_nat (length sec) + Z.of_nat (length user)).
  { rewrite Hpkt, !length_app, Hlen. lia. }
  split; [done|]. split; [lia|]. split.
  - intros d Hdl. rewrite Hdl in Hd, HU. cbn [default id] in Hd, HU.
    apply pad_or_truncate_length in HU; [|done].
    assert (Z.of_nat (length user) = Z.of_nat (length U) + (if use_mic then 4 else 0)).
    { unfold user. destruct use_mic; [|lia].
      rewrite length_app, be_bytes_length. lia. }
    lia.
  - eexists. split.
    + rewrite Hpkt. by apply parse_pack_primary_header.
    + cbn [ph_total_len ph_version ph_seq_flags ph_seq_count]. repeat split. lia.
Qed.

Lemma built_packet_announces_its_length_witness :
  build_packet_for_profile clock0 (fresh cfdp_meta) 0
    = Ok (scenario_pkt, 144, "0x9ecdd49d"%string) /\
  144 = Z.of_nat (length scenario_pkt) /\
  7 <= 144 <= 65542 /\
  (forall d, p_data_field_len (prof (fresh cfdp_meta)) = Some d -> 144 = 6 + d) /\
  exists ph,
    parse_primary_header scenario_pkt = Ok ph /\
    ph_total_len ph = 144 /\
    ph_version ph = 0 /\ ph_seq_flags ph = 3 /\
    ph_seq_count ph = Z.land (seq (fresh cfdp_meta)) 0x3FFF.
Proof.
  split; [exact scenario_pkt_built|].
  exact (built_packet_announces_its_length _ _ _ _ _ _ scenario_pkt_built).
Defined.

(** X3. [pad_or_truncate_to_len] with a desired length [d >= 0] returns
    exactly [d] bytes: the first [d] bytes of the input followed by pad
    bytes.  It fails only when padding is needed and the pad byte is not a
    byte value, and then with a ValueError. *)
Theorem pad_or_truncate_exact (l : list Z) (d pb : Z) :
  0 <= d ->
  match pad_or_truncate_to_len l d pb with
  | Ok u =>
      Z.of_nat (length u) = d /\
      u = take (Z.to_nat d) (l ++ replicate (Z.to_nat d - length l) pb)
  | Raise err =>
      err = ValueError /\ Z.of_nat (length l) < d /\ ~ is_byte pb
  end.
Proof.
  intros Hd. destruct (pad_or_truncate_to_len l d pb) as [u|err] eqn:E.
  - split; [by eapply pad_or_truncate_length | by apply pad_or_truncate_spec].
  - unfold pad_or_truncate_to_len in E. cbv zeta in E.
    destruct (Z.eqb_spec (Z.of_nat (length l)) d); [discriminate E|].
    destruct (Z.ltb_spec (Z.of_nat (length l)) d); [|discriminate E].
    destruct (Z.leb_spec 0 pb), (Z.ltb_spec pb 256); cbn [andb] in E;
      try discriminate E; injection E as <-; unfold is_byte; repeat split; lia.
Qed.

Lemma pad_or_truncate_exact_witness :
  0 <= 5 /\
  match pad_or_truncate_to_len [1; 2; 3] 5 0xAA with
  | Ok u =>
      Z.of_nat (length u) = 5 /\
      u = take (Z.to_nat 5) ([1; 2; 3] ++ replicate (Z.to_nat 5 - length [1; 2; 3]) 0xAA)
  | Raise err =>
      err = ValueError /\ Z.of_nat (length [1; 2; 3]) < 5 /\ ~ is_byte 0xAA
  end.
Proof.
  assert (H : 0 <= 5) by lia.
  split; [exact H|]. exact (pad_or_truncate_exact [1; 2; 3] 5 0xAA H).
Defined.

(** X4. The two tools agree on the secondary header.  When the receiver
    runs in sec-mode auto and its profile map holds, under the packet's
    APID, the profile the sender built the packet from, [process_packet]
    does not raise and splits off exactly the secondary header the sender
    put in: the same bytes and the same length, for every mode the sender
    accepts (none, ns8, sec_us32, fixed). *)
Theorem receiver_splits_sender_sec_hdr e ps counter pkt total mic_hex ph
    apid_map mic_mode :
  build_packet_for_profile e ps counter = Ok (pkt, total, mic_hex) ->
  parse_primary_header pkt = Ok ph ->
  apid_map !! ph_apid ph = Some (rx_view (prof ps)) ->
  exists r sec,
    process_packet pkt ph "auto" mic_mode apid_map = Ok r /\
    make_sec_hdr e (default empty_sec_hdr (p_sec_hdr (prof ps))) = Ok sec /\
    r_sec_hdr r = sec /\ r_sec_len r = Z.of_nat (length sec) /\
    take (length sec) (drop 6 pkt) = sec.
Proof.
  intros Hb Hph Hmap.
  destruct (auto_split _ _ _ _ _ _ _ _ mic_mode Hb Hph Hmap)
    as (hdr & sec & U & mode & Hsec & Hlen & Hpkt & _ & Hpp).
  cbv zeta in *. eexists _, sec. split; [exact Hpp|].
  cbn [r_sec_hdr r_sec_len]. repeat split; try done.
  rewrite Hpkt, <- Hlen, drop_app_length. by rewrite take_app_length.
Qed.

(** X5. A packet the sender built with use_mic verifies at the receiver.
    With sec-mode auto, the sender's profile in the receiver's map and any
    MIC mode other than off, [process_packet] reports the MIC state OK,
    the MIC value the sender logged, and as user data the padded user
    bytes the sender computed the MIC over. *)
Theorem sender_mic_verifies_at_receiver e ps counter pkt total mic_hex ph
    apid_map mic_mode :
  p_use_mic (prof ps) = Some true ->
  build_packet_for_profile e ps counter = Ok (pkt, total, mic_hex) ->
  parse_primary_header pkt = Ok ph ->
  apid_map !! ph_apid ph = Some (rx_view (prof ps)) ->
  mic_mode <> "off"%string ->
  exists r,
    process_packet pkt ph "auto" mic_mode apid_map = Ok r /\
    r_mic_state r = "OK"%string /\
    r_mic_hex r = mic_hex /\
    drop (6 + length (r_sec_hdr r)) pkt = r_user r ++ be_bytes 4 (crc32c (r_user r)).
Proof.
  intros Hmic Hb Hph Hmap Hoff.
  destruct (auto_split _ _ _ _ _ _ _ _ mic_mode Hb Hph Hmap)
    as (hdr & sec & U & mode & Hsec & Hlen & Hpkt & Hmh & Hpp).
  cbv zeta in *. rewrite Hmic in *. cbn [default id] in *.
  rewrite mic_check_long in Hpp;
    [|done|rewrite length_app, be_bytes_length; lia].
  cbv zeta in Hpp.
  rewrite slice_to_last4, slice_from_last4 in Hpp by apply be_bytes_length.
  rewrite from_bytes_big_be_bytes in Hpp.
  change (256 ^ Z.of_nat 4) with (2 ^ 32) in Hpp.
  rewrite Z.mod_small, Z.eqb_refl in Hpp by apply crc32c_range.
  eexists. split; [exact Hpp|]. cbn [r_mic_state r_mic_hex r_user r_sec_hdr fst snd].
  repeat split; try done.
  rewrite Hpkt, <- Hlen, app_assoc, <- length_app. by rewrite drop_app_length.
Qed.


Lemma scenario_pkt_parses : parse_primary_header scenario_pkt = Ok scenario_ph.
Proof. vm_compute. reflexivity. Qed.

Lemma scenario_map_lookup :
  scenario_map !! ph_apid scenario_ph = Some (rx_view (prof (fresh cfdp_meta))).
Proof. apply lookup_singleton_eq. Qed.

Lemma receiver_splits_sender_sec_hdr_witness :
  build_packet_for_profile clock0 (fresh cfdp_meta) 0
    = Ok (scenario_pkt, 144, "0x9ecdd49d"%string) /\
  parse_primary_header scenario_pkt = Ok scenario_ph /\
  scenario_map !! ph_apid scenario_ph = Some (rx_view (prof (fresh cfdp_meta))) /\
  exists r sec,
    process_packet scenario_pkt scenario_ph "auto" "auto" scenario_map = Ok r /\
    make_sec_hdr clock0 (default empty_sec_hdr (p_sec_hdr (prof (fresh cfdp_meta))))
      = Ok sec /\
    r_sec_hdr r = sec /\ r_sec_len r = Z.of_nat (length sec) /\
    take (length sec) (drop 6 scenario_pkt) = sec.
Proof.
  split; [exact scenario_pkt_built|]. split; [exact scenario_pkt_parses|].
  split; [exact scenario_map_lookup|].
  exact (receiver_splits_sender_sec_hdr _ _ _ _ _ _ _ _ "auto"
           scenario_pkt_built scenario_pkt_parses scenario_map_lookup).
Defined.

Lemma sender_mic_verifies_at_receiver_witness :
  p_use_mic (prof (fresh cfdp_meta)) = Some true /\
  build_packet_for_profile clock0 (fresh cfdp_meta) 0
    = Ok (scenario_pkt, 144, "0x9ecdd49d"%string) /\
  parse_primary_header scenario_pkt = Ok scenario_ph /\
  scenario_map !! ph_apid scenario_ph = Some (rx_view (prof (fresh cfdp_meta))) /\
  "auto"%string <> "off"%string /\
  exists r,
    process_packet scenario_pkt scenario_ph "auto" "auto" scenario_map = Ok r /\
    r_mic_state r = "OK"%string /\
    r_mic_hex r = "0x9ecdd49d"%string /\
    drop (6 + length (r_sec_hdr r)) scenario_pkt
      = r_user r ++ be_bytes 4 (crc32c (r_user r)).
Proof.
  assert (Hoff : "auto"%string <> "off"%string) by discriminate.
  split; [reflexivity|]. split; [exact scenario_pkt_built|].
  split; [exact scenario_pkt_parses|]. split; [exact scenario_map_lookup|].
  split; [exact Hoff|].
  exact (sender_mic_verifies_at_receiver clock0 (fresh cfdp_meta) 0 _ _ _ _ _ "auto"
           eq_refl scenario_pkt_built scenario_pkt_parses scenario_map_lookup Hoff).
Defined.

(** X6. [iter_packets] inverts concatenation.  On a blob made of whole
    Space Packets laid end to end, followed by a tail that holds no whole
    packet (fewer than six bytes, or fewer bytes than its header
    announces), the generator yields exactly those packets, in order, each
    with its parsed header, and drops the tail. *)
Theorem iter_packets_splits_concatenation (pkts : list (list Z)) (t : list Z) :
  Forall whole_packet pkts -> truncated t ->
  map fst (iter_packets (concat pkts ++ t)) = pkts /\
  Forall (fun y => parse_primary_header y.1 = Ok y.2)
         (iter_packets (concat pkts ++ t)).
Proof.
  intros Hw Ht.
  assert (H : Forall2 (fun p y => y.1 = p /\ parse_primary_header p = Ok y.2) pkts
                      (iter_packets (concat pkts ++ t))).
  { unfold iter_packets.
    apply (iter_from_spec t pkts [] _ Hw Ht).
    pose proof (whole_packets_length pkts Hw). rewrite length_app. lia. }
  revert H. generalize (iter_packets (concat pkts ++ t)). clear Hw Ht.
  intros ys H. induction H as [|p y ps ys' [E1 E2] _ [IH1 IH2]]; [done|].
  cbn [map]. split; [by f_equal|]. constructor; [by rewrite E1|done].
Qed.

Lemma iter_packets_splits_concatenation_witness :
  Forall whole_packet [ReceiverSpec.ex_pkt; ReceiverSpec.ex_pkt_shf] /\
  truncated [0x10; 0xB3; 0xC0] /\
  map fst (iter_packets (concat [ReceiverSpec.ex_pkt; ReceiverSpec.ex_pkt_shf]
                         ++ [0x10; 0xB3; 0xC0]))
    = [ReceiverSpec.ex_pkt; ReceiverSpec.ex_pkt_shf] /\
  Forall (fun y => parse_primary_header y.1 = Ok y.2)
         (iter_packets (concat [ReceiverSpec.ex_pkt; ReceiverSpec.ex_pkt_shf]
                        ++ [0x10; 0xB3; 0xC0])).
Proof.
  assert (Hw : Forall whole_packet [ReceiverSpec.ex_pkt; ReceiverSpec.ex_pkt_shf]).
  { repeat constructor.
    - by exists ReceiverSpec.ex_ph.
    - by exists ReceiverSpec.ex_ph_shf. }
  assert (Ht : truncated [0x10; 0xB3; 0xC0]) by (left; cbn; lia).
  split; [exact Hw|]. split; [exact Ht|].
  exact (iter_packets_splits_concatenation _ _ Hw Ht).
Defined.

(** X7. The [init] argument of [crc32c] continues a checksum: the CRC-32C
    of [a ++ b] from [init] is the CRC-32C of [b] started from the
    CRC-32C of [a], so a message can be checked piece by piece. *)
Theorem crc32c_init_continues (a b : list Z) (init : Z) :
  crc32c_init (a ++ b) init = crc32c_init b (crc32c_init a init).
Proof.
  unfold crc32c_init. rewrite fold_left_app. do 2 f_equal.
  by rewrite Z.lxor_assoc, Z.lxor_nilpotent, Z.lxor_0_r.
Qed.

Lemma lor_shiftl_8 (a b : Z) :
  is_byte b -> Z.lor (Z.shiftl a 8) b = a * 256 + b.
Proof.
  intros Hb. rewrite Z.shiftl_mul_pow2 by lia. change (2 ^ 8) with 256.
  apply (lor_add_disjoint _ _ 8); [lia| |exact Hb].
  change (2 ^ 8) with 256. by rewrite Z.mod_mul.
Qed.

(** X8. The header parser of hex_dump.py, which joins the bytes with
    shifts and ors, and the one of l7_receiver.py, which unpacks three
    big-endian 16-bit words, return the same on every byte string: the
    same fields, or the same ValueError below six bytes. *)
Theorem hex_dump_parses_like_receiver (hdr : list Z) :
  bytes_ok hdr ->
  HexDump.parse_primary_header hdr = Receiver.parse_primary_header hdr.
Proof.
  intros Hb. unfold HexDump.parse_primary_header, parse_primary_header.
  destruct (Nat.ltb_spec (length hdr) 6) as [|H6]; [done|].
  do 6 (destruct hdr as [|? hdr]; [cbn in H6; lia|]).
  repeat (apply Forall_cons in Hb as [? Hb]).
  destruct (slices6 z z0 z1 z2 z3 z4 hdr) as (-> & -> & ->).
  cbn [from_bytes_big fold_left]. unfold getZ. cbn [Z.to_nat Pos.to_nat
    Pos.iter_op Init.Nat.add lookup list_lookup default id].
  rewrite !lor_shiftl_8 by done.
  replace (0 * 256 + z) with z by lia. replace (0 * 256 + z1) with z1 by lia.
  by replace (0 * 256 + z3) with z3 by lia.
Qed.

Lemma hex_dump_parses_like_receiver_witness :
  bytes_ok ReceiverSpec.ex_pkt /\
  HexDump.parse_primary_header ReceiverSpec.ex_pkt
  = Receiver.parse_primary_header ReceiverSpec.ex_pkt.
Proof.
  assert (Hb : bytes_ok ReceiverSpec.ex_pkt)
    by (repeat constructor; unfold is_byte; lia).
  split; [exact Hb|]. exact (hex_dump_parses_like_receiver _ Hb).
Defined.

End L7Facts.

Section SppTaggerMore.
Import SppTagger SppTaggerSpec.

Lemma getZ_byte (l : list Z) (i : Z) : bytes_ok l -> 0 <= getZ l i < 256.
Proof.
  intros H. unfold getZ. destruct (l !! Z.to_nat i) as [x|] eqn:E; cbn [default]; [|lia].
  eapply Forall_lookup_1 in H; [|exact E]. exact H.
Qed.

Lemma total_len_ge_7 (buf : list Z) :
  bytes_ok buf -> 7 <= 6 + (Z.lor (Z.shiftl (getZ buf 4) 8) (getZ buf 5) + 1).
Proof.
  intros H. pose proof (getZ_byte buf 4 H). pose proof (getZ_byte buf 5 H).
  assert (0 <= Z.lor (Z.shiftl (getZ buf 4) 8) (getZ buf 5)); [|lia].
  apply Z.lor_nonneg. split; [apply Z.shiftl_nonneg|]; lia.
Qed.

Lemma bytes_ok_app (a b : list Z) : bytes_ok (a ++ b) <-> bytes_ok a /\ bytes_ok b.
Proof. apply Forall_app. Qed.

Lemma tag_loop_stream (n_out : Z) (fuel : nat) :
  forall s,
    bytes_ok (l_buf s) -> Z.of_nat (length (l_out s)) <= n_out ->
    let s' := tag_loop fuel n_out s in
    l_out s' ++ l_buf s' = l_out s ++ l_buf s /\
    l_abs_out s' - Z.of_nat (length (l_out s')) = l_abs_out s - Z.of_nat (length (l_out s)) /\
    Z.of_nat (length (l_out s')) <= n_out.
Proof.
  induction fuel as [|fuel IH]; intros s Hb Hn; [done|].
  cbn [tag_loop]. destruct (length (l_buf s) <? 6)%nat; [done|].
  pose proof (total_len_ge_7 _ Hb) as H7.
  set (total_len := 6 + _) in *.
  destruct (Z.ltb_spec (Z.of_nat (length (l_buf s))) total_len) as [|Hlen]; [done|].
  destruct (Z.ltb_spec (Z.min (n_out - Z.of_nat (length (l_out s))) total_len) total_len)
    as [|Hroom]; [done|].
  assert (Et : total_len = Z.of_nat (Z.to_nat total_len)) by lia.
  cbv zeta in IH.
  edestruct (IH {| l_buf := slice_from (l_buf s) total_len;
                   l_abs_out := l_abs_out s + total_len;
                   l_out := l_out s ++ slice_to (l_buf s) total_len;
                   l_tags := l_tags s ++ [(l_abs_out s, total_len)] |})
    as (H1 & H2 & H3).
  - cbn [l_buf]. rewrite Et, slice_from_nat. by apply Forall_drop.
  - cbn [l_out]. rewrite Et, slice_to_nat, length_app, length_take. lia.
  - cbn [l_buf l_out l_abs_out] in *. split; [|split; [|done]].
    + rewrite H1, Et, slice_to_nat, slice_from_nat, <- app_assoc. by rewrite take_drop.
    + rewrite H2, Et, slice_to_nat, length_app, length_take. lia.
Qed.

(** X9. The tagger is the identity on bytes.  Whatever the input window,
    the bytes it has written so far followed by the bytes it still
    buffers are the bytes it has read: one call writes the first
    [min n_out (buffered + new)] bytes of its buffer extended by the
    input, keeps the rest, consumes the whole input window, and advances
    its absolute output index by the number of bytes written. *)
Theorem tagger_forwards_every_byte (b : blk) (inp : list Z) (n_out : Z) :
  bytes_ok (_buf b) -> bytes_ok inp -> 0 <= n_out ->
  let w := general_work b inp n_out in
  w_out w = take (Z.to_nat n_out) (_buf b ++ inp) /\
  _buf (w_blk w) = drop (Z.to_nat n_out) (_buf b ++ inp) /\
  _abs_out (w_blk w) = _abs_out b + Z.of_nat (length (w_out w)) /\
  w_consumed w = Z.of_nat (length inp).
Proof.
  intros Hb Hi Hn. unfold general_work. cbv zeta.
  set (s0 := {| l_buf := _buf b ++ inp; l_abs_out := _abs_out b;
                l_out := []; l_tags := [] |}).
  destruct (tag_loop_stream n_out (S (length (_buf b ++ inp))) s0) as (H1 & H2 & H3).
  { by apply bytes_ok_app. }
  { cbn. lia. }
  set (s := tag_loop _ _ _) in *. cbn [l_out l_buf l_abs_out s0 app length] in H1, H2.
  assert (Hsplit : forall k : nat,
            (k <= length (l_buf s))%nat ->
            (Z.to_nat n_out = length (l_out s) + k)%nat \/
            (k = length (l_buf s) /\ length (l_out s) + k <= Z.to_nat n_out)%nat ->
            l_out s ++ take k (l_buf s) = take (Z.to_nat n_out) (_buf b ++ inp) /\
            drop k (l_buf s) = drop (Z.to_nat n_out) (_buf b ++ inp)).
  { intros k Hk Hcase. rewrite <- H1. destruct Hcase as [E|[E1 E2]].
    - rewrite E, take_app_add, drop_app_add. done.
    - subst k. rewrite (take_ge (l_buf s)) by lia.
      rewrite (take_ge (l_out s ++ l_buf s)) by (rewrite length_app; lia).
      rewrite (drop_ge (l_buf s)) by lia.
      by rewrite (drop_ge (l_out s ++ l_buf s)) by (rewrite length_app; lia). }
  set (spill := Z.min _ _).
  destruct (Z.eqb_spec spill 0) as [E0|Hne]; cbn [negb w_out w_blk w_consumed _buf _abs_out].
  - destruct (Hsplit 0%nat) as [E1 E2]; [lia| unfold spill in E0; lia |].
    rewrite take_0, app_nil_r in E1. rewrite drop_0 in E2.
    repeat split; try done. lia.
  - replace spill with (Z.of_nat (Z.to_nat spill)) by (unfold spill; lia).
    rewrite slice_to_nat, slice_from_nat.
    destruct (Hsplit (Z.to_nat spill)) as [E1 E2];
      [unfold spill; lia | unfold spill; lia |].
    repeat split; try done.
    rewrite length_app, length_take. unfold spill in *. lia.
Qed.


Lemma tagger_forwards_every_byte_witness :
  bytes_ok (_buf init) /\ bytes_ok (take 3 Scenarios.spp7) /\ 0 <= 100 /\
  let w := general_work init (take 3 Scenarios.spp7) 100 in
  w_out w = take (Z.to_nat 100) (_buf init ++ take 3 Scenarios.spp7) /\
  _buf (w_blk w) = drop (Z.to_nat 100) (_buf init ++ take 3 Scenarios.spp7) /\
  _abs_out (w_blk w) = _abs_out init + Z.of_nat (length (w_out w)) /\
  w_consumed w = Z.of_nat (length (take 3 Scenarios.spp7)).
Proof.
  assert (H1 : bytes_ok (_buf init)) by constructor.
  assert (H2 : bytes_ok (take 3 Scenarios.spp7))
    by (repeat constructor; unfold is_byte; lia).
  assert (H3 : 0 <= 100) by lia.
  split; [exact H1|]. split; [exact H2|]. split; [exact H3|].
  exact (tagger_forwards_every_byte init (take 3 Scenarios.spp7) 100 H1 H2 H3).
Defined.

Lemma getZ_app_l (a b : list Z) (i : Z) :
  0 <= i < Z.of_nat (length a) -> getZ (a ++ b) i = getZ a i.
Proof. intros Hi. unfold getZ. rewrite lookup_app_l by lia. done. Qed.

Lemma tag_loop_whole_packets (n_out : Z) (pkts : list (list Z)) :
  forall fuel s,
    Forall spp_whole pkts -> l_buf s = concat pkts ->
    (length pkts <= fuel)%nat ->
    Z.of_nat (length (l_out s)) + Z.of_nat (length (concat pkts)) <= n_out ->
    tag_loop fuel n_out s =
    {| l_buf := []; l_abs_out := l_abs_out s + Z.of_nat (length (concat pkts));
       l_out := l_out s ++ concat pkts;
       l_tags := l_tags s ++ packet_tags (l_abs_out s) pkts |}.
Proof.
  induction pkts as [|p pkts IH]; intros fuel s Hw Hbuf Hfuel Hroom.
  - destruct s as [buf a out tags]. cbn in Hbuf. subst buf.
    cbn [concat length packet_tags l_abs_out l_out l_tags]. rewrite !app_nil_r, Z.add_0_r.
    by destruct fuel.
  - apply Forall_cons in Hw as [[H6 Hlen] Hw].
    destruct fuel as [|fuel]; [cbn in Hfuel; lia|].
    cbn [concat] in *. rewrite length_app in Hroom.
    cbn [tag_loop]. rewrite Hbuf.
    destruct (Nat.ltb_spec (length (p ++ concat pkts)) 6) as [Hbad|_].
    { rewrite length_app in Hbad. lia. }
    rewrite !getZ_app_l by lia. rewrite <- Hlen.
    destruct (Z.ltb_spec (Z.of_nat (length (p ++ concat pkts))) (Z.of_nat (length p)))
      as [Hbad|_].
    { rewrite length_app in Hbad. lia. }
    destruct (Z.ltb_spec (Z.min (n_out - Z.of_nat (length (l_out s))) (Z.of_nat (length p)))
                (Z.of_nat (length p))) as [Hbad|_]; [lia|].
    rewrite slice_from_nat, slice_to_nat, drop_app_length, take_app_length.
    rewrite IH; [|done|done|cbn in Hfuel; lia|cbn [l_out]; rewrite length_app; lia].
    cbn [l_abs_out l_out l_tags packet_tags]. rewrite <- !app_assoc. cbn [app].
    f_equal. rewrite length_app. lia.
Qed.

Lemma spp_whole_count (pkts : list (list Z)) :
  Forall spp_whole pkts -> (length pkts <= length (concat pkts))%nat.
Proof.
  induction 1 as [|p pkts [H6 _] _ IH]; [done|].
  cbn [concat length]. rewrite length_app. lia.
Qed.

(** X10. Packets delivered whole are tagged at their first byte.  When
    the buffer is empty, the input window is a sequence of whole Space
    Packets and the output has room for all of them, one call copies the
    packets unchanged, empties the buffer, and emits exactly one length tag
    per packet, at the absolute offset of the packet's first byte, whose
    value is the packet's total length (6 + length field + 1). *)
Theorem tagger_tags_whole_packets (b : blk) (pkts : list (list Z)) (n_out : Z) :
  Forall spp_whole pkts -> _buf b = [] ->
  Z.of_nat (length (concat pkts)) <= n_out ->
  let w := general_work b (concat pkts) n_out in
  w_out w = concat pkts /\
  w_tags w = packet_tags (_abs_out b) pkts /\
  _buf (w_blk w) = [] /\
  _abs_out (w_blk w) = _abs_out b + Z.of_nat (length (concat pkts)) /\
  w_consumed w = Z.of_nat (length (concat pkts)).
Proof.
  intros Hw Hbuf Hroom. unfold general_work. cbv zeta. rewrite Hbuf. cbn [app].
  rewrite (tag_loop_whole_packets n_out pkts); cbn [l_buf l_out l_tags l_abs_out];
    [|done|done|pose proof (spp_whole_count pkts Hw); lia|cbn; lia].
  cbn [length app]. rewrite Z.min_r by lia. cbn [Z.eqb negb w_out w_tags w_blk
    _buf _abs_out w_consumed]. done.
Qed.

Lemma tagger_tags_whole_packets_witness :
  Forall spp_whole [Scenarios.spp7; Scenarios.spp13] /\ _buf init = [] /\
  Z.of_nat (length (concat [Scenarios.spp7; Scenarios.spp13])) <= 100 /\
  let w := general_work init (concat [Scenarios.spp7; Scenarios.spp13]) 100 in
  w_out w = concat [Scenarios.spp7; Scenarios.spp13] /\
  w_tags w = packet_tags (_abs_out init) [Scenarios.spp7; Scenarios.spp13] /\
  _buf (w_blk w) = [] /\
  _abs_out (w_blk w)
    = _abs_out init + Z.of_nat (length (concat [Scenarios.spp7; Scenarios.spp13])) /\
  w_consumed w = Z.of_nat (length (concat [Scenarios.spp7; Scenarios.spp13])).
Proof.
  assert (H1 : Forall spp_whole [Scenarios.spp7; Scenarios.spp13]).
  { repeat constructor; cbn; lia. }
  assert (H3 : Z.of_nat (length (concat [Scenarios.spp7; Scenarios.spp13])) <= 100)
    by (cbn; lia).
  split; [exact H1|]. split; [reflexivity|]. split; [exact H3|].
  exact (tagger_tags_whole_packets init _ 100 H1 eq_refl H3).
Defined.

End SppTaggerMore.

Section TmFramerMore.
Import TmFramer TmFramerSpec TmFramerCheck.

Lemma crc16_bit_range (c : Z) : 0 <= crc16_bit c < 65536.
Proof.
  unfold crc16_bit. change 0xFFFF with (2 ^ 16 - 1).
  destruct (negb _); rewrite land_ones_mod by lia; apply Z.mod_pos_bound; lia.
Qed.

Lemma crc16_byte_range (c b : Z) : 0 <= crc16_byte c b < 65536.
Proof. unfold crc16_byte. cbn [Nat.iter]. apply crc16_bit_range. Qed.

Lemma crc16_fold_range (bytes : list Z) (c : Z) :
  0 <= c < 65536 -> 0 <= fold_left crc16_byte bytes c < 65536.
Proof.
  revert c. induction bytes as [|b bytes IH]; intros c Hc; [done|].
  cbn [fold_left]. apply IH, crc16_byte_range.
Qed.

Lemma crc16_ibm_fold (bytes : list Z) :
  _crc16_ibm bytes = fold_left crc16_byte bytes 0xFFFF.
Proof.
  unfold _crc16_ibm. fold crc16_byte.
  change (fold_left _ bytes 65535) with (fold_left crc16_byte bytes 0xFFFF).
  pose proof (crc16_fold_range bytes 0xFFFF ltac:(lia)).
  change 0xFFFF with (2 ^ 16 - 1) at 2. rewrite land_ones_mod by lia.
  by apply Z.mod_small.
Qed.

(** Feeding a register value its own two bytes, high byte first, clears
    it: checked for every 16-bit register value. *)
Lemma crc16_clears_checked :
  all_from (Z.to_nat 65536) 0
    (fun c => crc16_byte (crc16_byte c (Z.land (Z.shiftr c 8) 0xFF)) (Z.land c 0xFF) =? 0)
  = true.
Proof. vm_compute. reflexivity. Qed.

Lemma fold_left_two {A B} (f : A -> B -> A) (l : list B) (x y : B) (a : A) :
  fold_left f (l ++ [x; y]) a = f (f (fold_left f l a) x) y.
Proof. by rewrite fold_left_app. Qed.

Lemma crc16_residue (bytes : list Z) :
  let crc := _crc16_ibm bytes in
  _crc16_ibm (bytes ++ [Z.land (Z.shiftr crc 8) 0xFF; Z.land crc 0xFF]) = 0.
Proof.
  cbv zeta. rewrite (crc16_ibm_fold (bytes ++ _)), fold_left_two.
  rewrite (crc16_ibm_fold bytes).
  pose proof (crc16_fold_range bytes 0xFFFF ltac:(lia)) as Hr.
  revert Hr. generalize (fold_left crc16_byte bytes 0xFFFF). intros c Hc.
  assert (Hi : 0 <= c < 0 + Z.of_nat (Z.to_nat 65536)) by (rewrite Z2Nat.id; lia).
  pose proof (all_from_spec _ (Z.to_nat 65536) 0 c crc16_clears_checked Hi) as H.
  apply Z.eqb_eq in H. exact H.
Qed.


Lemma pack_header_shape (p : params) (b : blk) (fhp : Z) :
  exists x0 x1 x4 x5,
    _pack_primary_header p b fhp
    = [x0; x1; Z.land (mc_cnt b) 0xFF; Z.land (vc_cnt b) 0xFF; x4; x5].
Proof. by eexists _, _, _, _. Qed.

Lemma assemble_bytes (p : params) (b : blk) :
  let f := (assemble p b).1 in
  let body := _pack_primary_header p b (f_fhp f) ++ f_tfdf f in
  f_bytes f =
  body ++ (if include_fecf p
           then [Z.land (Z.shiftr (_crc16_ibm body) 8) 0xFF; Z.land (_crc16_ibm body) 0xFF]
           else []).
Proof.
  unfold assemble. cbv zeta. cbn [fst f_bytes f_fhp f_tfdf].
  destruct (include_fecf p); [done|]. by rewrite app_nil_r.
Qed.

Lemma assemble_counters (p : params) (b : blk) :
  mc_cnt (assemble p b).2 = Z.land (mc_cnt b + 1) 0xFF /\
  vc_cnt (assemble p b).2 = Z.land (vc_cnt b + 1) 0xFF.
Proof. unfold assemble. cbv zeta. by cbn [snd _advance_counters mc_cnt vc_cnt]. Qed.

Lemma assemble_frame_len (p : params) (b : blk) :
  1 <= tfdf_len p -> wf_blk b ->
  Z.of_nat (length (f_bytes (assemble p b).1)) = frame_len p.
Proof.
  intros Hn Hwf. destruct (assemble_layout p b Hn Hwf) as (placed & Ht & _ & Hle & _).
  cbv zeta in Ht. pose proof (assemble_bytes p b) as Hb. cbv zeta in Hb. rewrite Hb.
  destruct (pack_header_shape p b (f_fhp (assemble p b).1)) as (x0 & x1 & x4 & x5 & ->).
  rewrite !length_app, Ht, length_app, length_replicate.
  unfold tfdf_len, fecf_len, header_len in *.
  destruct (include_fecf p); cbn [length]; lia.
Qed.

Lemma frame_tags_snoc (nw F : Z) (m : nat) :
  frame_tags nw F (S m) = frame_tags nw F m ++ [(nw + F * Z.of_nat m, F)].
Proof. unfold frame_tags. by rewrite seq_S, map_app. Qed.

Lemma frame_loop_tags (p : params) (n_out nw : Z) (fuel : nat) :
  forall b frames tags produced,
    1 <= tfdf_len p -> wf_blk b ->
    Forall (fun f => Z.of_nat (length (f_bytes f)) = frame_len p) frames ->
    tags = frame_tags nw (frame_len p) (length frames) ->
    produced = frame_len p * Z.of_nat (length frames) ->
    produced <= Z.max 0 n_out ->
    let r := frame_loop fuel p n_out nw b frames tags produced in
    Forall (fun f => Z.of_nat (length (f_bytes f)) = frame_len p) r.1.1.2 /\
    r.1.2 = frame_tags nw (frame_len p) (length r.1.1.2) /\
    r.2 = frame_len p * Z.of_nat (length r.1.1.2) /\
    r.2 <= Z.max 0 n_out.
Proof.
  induction fuel as [|fuel IH]; intros b frames tags produced Hn Hwf Hf Ht Hp Hle;
    [done|].
  cbn [frame_loop].
  destruct (Z.ltb_spec (n_out - produced) (frame_len p)) as [|Hroom]; [done|].
  pose proof (assemble_frame_len p b Hn Hwf) as Hlen.
  destruct (assemble_layout p b Hn Hwf) as (placed & _ & _ & _ & _ & Hwf').
  cbv zeta in Hwf'.
  destruct (assemble p b) as [f0 b'] eqn:E. cbn [fst snd] in Hlen, Hwf'.
  rewrite Hlen.
  assert (H1 : Forall (fun f => Z.of_nat (length (f_bytes f)) = frame_len p)
                      (frames ++ [f0])).
  { apply Forall_app. split; [done|]. by apply Forall_singleton. }
  assert (H2 : tags ++ [(nw + produced, frame_len p)]
               = frame_tags nw (frame_len p) (length (frames ++ [f0]))).
  { rewrite length_app. cbn [length]. rewrite Nat.add_1_r, frame_tags_snoc.
    by rewrite Ht, Hp. }
  assert (H3 : produced + frame_len p
               = frame_len p * Z.of_nat (length (frames ++ [f0]))).
  { rewrite length_app. cbn [length]. lia. }
  assert (H4 : produced + frame_len p <= Z.max 0 n_out) by lia.
  destruct ((f_cursor f0 =? 0) && negb (emit_idle p)); [done|].
  by apply IH.
Qed.

(** X11. The framer emits whole frames only.  From a well-formed block
    with a data field of at least one byte, every frame of a call has
    exactly [frame_len] bytes, the output is their concatenation and fits
    the output space, and the call adds one length tag per frame, at the
    offset of the frame's first byte, with value [frame_len]. *)
Theorem framer_emits_whole_frames (p : params) (b : blk) inp tags n_out nw :
  1 <= tfdf_len p -> wf_blk b ->
  let w := general_work p b inp tags n_out nw in
  Forall (fun f => Z.of_nat (length (f_bytes f)) = frame_len p) (w_frames w) /\
  w_tags w = frame_tags nw (frame_len p) (length (w_frames w)) /\
  Z.of_nat (length (w_out w)) = frame_len p * Z.of_nat (length (w_frames w)) /\
  Z.of_nat (length (w_out w)) <= Z.max 0 n_out.
Proof.
  intros Hn Hwf. cbv zeta.
  assert (Hout : forall frames,
            Forall (fun f => Z.of_nat (length (f_bytes f)) = frame_len p) frames ->
            Z.of_nat (length (concat (map f_bytes frames)))
            = frame_len p * Z.of_nat (length frames)).
  { induction 1 as [|f fs Hf _ IH]; [cbn; lia|].
    cbn [map concat length]. rewrite length_app. lia. }
  unfold general_work, w_out.
  destruct (Z.ltb_spec n_out (frame_len p)).
  { cbn [w_frames w_tags map concat length]. repeat split; try done; lia. }
  destruct Hwf as (Hq & Hc & Hp).
  set (pending := if (0 <? length inp)%nat then _ else _).
  assert (Hpend : Forall (fun t : tag => 0 < t.2) pending).
  { unfold pending. destruct (0 <? length inp)%nat; [|done].
    apply Forall_app. split; [done | apply collect_spp_tags_positive]. }
  pose proof (carve_wf (length pending) (_inbuf b ++ inp) pending (_spp_queue b)
                Hpend Hq) as [Hp' Hq'].
  destruct (carve _ _ _ _) as [[inbuf' pending'] queue'].
  cbn [fst snd] in Hp', Hq'.
  set (b1 := {| mc_cnt := mc_cnt b; vc_cnt := vc_cnt b; _inbuf := inbuf';
                _pending_tags := pending'; _spp_queue := queue';
                _cur_pkt := _cur_pkt b |}).
  assert (Hwf1 : wf_blk b1) by (split; [exact Hq' | split; [exact Hc | exact Hp']]).
  pose proof (frame_loop_tags p n_out nw (Z.to_nat n_out) b1 [] [] 0 Hn Hwf1
                (Forall_nil_2 _) eq_refl ltac:(cbn; lia) ltac:(lia)) as Hloop.
  cbv zeta in Hloop.
  destruct (frame_loop _ _ _ _ _ _ _ _) as [[[b2 frames] otags] produced].
  cbn [fst snd w_frames w_tags] in *. destruct Hloop as (H1 & H2 & H3 & H4).
  split; [done|]. split; [done|]. rewrite (Hout _ H1). split; [done|lia].
Qed.

Lemma framer_emits_whole_frames_witness :
  1 <= tfdf_len (Scenarios.framer true) /\ wf_blk init /\
  let w := general_work (Scenarios.framer true) init Scenarios.spp13 [(0, 13)] 40 0 in
  Forall (fun f => Z.of_nat (length (f_bytes f)) = frame_len (Scenarios.framer true))
         (w_frames w) /\
  w_tags w = frame_tags 0 (frame_len (Scenarios.framer true)) (length (w_frames w)) /\
  Z.of_nat (length (w_out w))
    = frame_len (Scenarios.framer true) * Z.of_nat (length (w_frames w)) /\
  Z.of_nat (length (w_out w)) <= Z.max 0 40.
Proof.
  assert (H1 : 1 <= tfdf_len (Scenarios.framer true)) by (vm_compute; discriminate).
  split; [exact H1|]. split; [exact wf_blk_init|].
  exact (framer_emits_whole_frames (Scenarios.framer true) init Scenarios.spp13
           [(0, 13)] 40 0 H1 wf_blk_init).
Defined.

(** X12. With the FECF enabled every emitted frame checks: the CRC-16 the
    framer appends, high byte first, is the one of the frame's header and
    data field, and recomputing [_crc16_ibm] over the whole frame, FECF
    included, gives zero. *)
Theorem framer_fecf_checks (p : params) (b : blk) inp tags n_out nw (f : frame) :
  1 <= tfdf_len p -> wf_blk b -> include_fecf p = true ->
  f ∈ w_frames (general_work p b inp tags n_out nw) ->
  let body := take (Z.to_nat (frame_len p) - 2) (f_bytes f) in
  drop (Z.to_nat (frame_len p) - 2) (f_bytes f)
    = [Z.land (Z.shiftr (_crc16_ibm body) 8) 0xFF; Z.land (_crc16_ibm body) 0xFF] /\
  _crc16_ibm (f_bytes f) = 0.
Proof.
  intros Hn Hwf Hfecf Hin.
  destruct (general_work_frames p b inp tags n_out nw Hn Hwf) as [_ H].
  destruct (H f Hin) as (b0 & Hwf0 & <-).
  pose proof (assemble_frame_len p b0 Hn Hwf0) as Hlen.
  pose proof (assemble_bytes p b0) as Hb. cbv zeta in Hb. rewrite Hfecf in Hb.
  set (body := _pack_primary_header _ _ _ ++ _) in Hb.
  rewrite Hb, length_app in Hlen. cbn [length] in Hlen.
  cbv zeta. rewrite Hb.
  replace (Z.to_nat (frame_len p) - 2)%nat with (length body) by lia.
  rewrite take_app_length, drop_app_length. split; [done|].
  apply crc16_residue.
Qed.


Lemma fecf_frame_emitted :
  fecf_frame ∈ w_frames (general_work framer_fecf init Scenarios.spp7 [(0, 7)] 16 0).
Proof.
  assert (E : w_frames (general_work framer_fecf init Scenarios.spp7 [(0, 7)] 16 0)
              = [fecf_frame]) by (vm_compute; reflexivity).
  rewrite E. apply list_elem_of_here.
Qed.

Lemma framer_fecf_checks_witness :
  1 <= tfdf_len framer_fecf /\ wf_blk init /\ include_fecf framer_fecf = true /\
  fecf_frame ∈ w_frames (general_work framer_fecf init Scenarios.spp7 [(0, 7)] 16 0) /\
  let body := take (Z.to_nat (frame_len framer_fecf) - 2) (f_bytes fecf_frame) in
  drop (Z.to_nat (frame_len framer_fecf) - 2) (f_bytes fecf_frame)
    = [Z.land (Z.shiftr (_crc16_ibm body) 8) 0xFF; Z.land (_crc16_ibm body) 0xFF] /\
  _crc16_ibm (f_bytes fecf_frame) = 0.
Proof.
  assert (H1 : 1 <= tfdf_len framer_fecf) by (vm_compute; discriminate).
  split; [exact H1|]. split; [exact wf_blk_init|]. split; [reflexivity|].
  split; [exact fecf_frame_emitted|].
  exact (framer_fecf_checks framer_fecf init Scenarios.spp7 [(0, 7)] 16 0 fecf_frame
           H1 wf_blk_init eq_refl fecf_frame_emitted).
Defined.

Lemma land_255_mod (x : Z) : Z.land x 0xFF = x mod 256.
Proof. change 0xFF with (2 ^ 8 - 1). by rewrite land_ones_mod. Qed.

Lemma frame_counter_bytes (p : params) (b : blk) :
  getZ (f_bytes (assemble p b).1) 2 = mc_cnt b mod 256 /\
  getZ (f_bytes (assemble p b).1) 3 = vc_cnt b mod 256.
Proof.
  pose proof (assemble_bytes p b) as Hb. cbv zeta in Hb. rewrite Hb.
  destruct (pack_header_shape p b (f_fhp (assemble p b).1)) as (x0 & x1 & x4 & x5 & ->).
  rewrite <- !land_255_mod. done.
Qed.

Lemma frame_loop_counters (p : params) (n_out nw : Z) (fuel : nat) :
  forall b frames tags produced,
    let r := frame_loop fuel p n_out nw b frames tags produced in
    exists new,
      r.1.1.2 = frames ++ new /\
      (forall k f, new !! k = Some f ->
         getZ (f_bytes f) 2 = (mc_cnt b + Z.of_nat k) mod 256 /\
         getZ (f_bytes f) 3 = (vc_cnt b + Z.of_nat k) mod 256) /\
      mc_cnt r.1.1.1 mod 256 = (mc_cnt b + Z.of_nat (length new)) mod 256 /\
      vc_cnt r.1.1.1 mod 256 = (vc_cnt b + Z.of_nat (length new)) mod 256.
Proof.
  induction fuel as [|fuel IH]; intros b frames tags produced; cbv zeta.
  { exists []. rewrite app_nil_r. cbn [frame_loop fst snd length]. rewrite !Z.add_0_r.
    repeat split; done. }
  cbn [frame_loop].
  destruct (n_out - produced <? frame_len p).
  { exists []. rewrite app_nil_r. cbn [fst snd length]. rewrite !Z.add_0_r.
    repeat split; done. }
  pose proof (frame_counter_bytes p b) as [Hm Hv].
  pose proof (assemble_counters p b) as [Hm' Hv'].
  destruct (assemble p b) as [f0 b'] eqn:E. cbn [fst snd] in Hm, Hv, Hm', Hv'.
  rewrite land_255_mod in Hm', Hv'.
  assert (Hone : forall k f, [f0] !! k = Some f ->
            getZ (f_bytes f) 2 = (mc_cnt b + Z.of_nat k) mod 256 /\
            getZ (f_bytes f) 3 = (vc_cnt b + Z.of_nat k) mod 256).
  { intros [|k] f Hk; [|by rewrite lookup_cons_ne_0, lookup_nil in Hk].
    injection Hk as <-. by rewrite !Z.add_0_r. }
  destruct ((f_cursor f0 =? 0) && negb (emit_idle p)).
  { exists [f0]. cbn [fst snd length]. split; [done|]. split; [done|].
    rewrite Hm', Hv', !Z.mod_mod by lia. done. }
  destruct (IH b' (frames ++ [f0])
              (tags ++ [(nw + produced, Z.of_nat (length (f_bytes f0)))])
              (produced + Z.of_nat (length (f_bytes f0))))
    as (new & E1 & E2 & E3 & E4).
  exists (f0 :: new). split; [by rewrite E1, <- app_assoc|]. split.
  - intros [|k] f Hk.
    + injection Hk as <-. by rewrite !Z.add_0_r.
    + rewrite (lookup_cons_ne_0 _ f0 (S k)) in Hk by done. cbn [pred] in Hk.
      destruct (E2 k f Hk) as [-> ->]. rewrite Hm', Hv'.
      rewrite !(Z.add_mod_idemp_l) by lia. split; f_equal; lia.
  - rewrite E3, E4, Hm', Hv'. rewrite !(Z.add_mod_idemp_l) by lia.
    cbn [length]. split; f_equal; lia.
Qed.

(** X13. The frame counters advance by one per frame, modulo 256.  The
    [k]-th frame of a call (from 0) carries in its bytes 2 and 3 the
    master-channel and the virtual-channel count the block held before the
    call plus [k], modulo 256, and the block leaves the call with both
    counts advanced by the number of frames it emitted. *)
Theorem framer_counters_advance (p : params) (b : blk) inp tags n_out nw :
  let w := general_work p b inp tags n_out nw in
  (forall k f, w_frames w !! k = Some f ->
     getZ (f_bytes f) 2 = (mc_cnt b + Z.of_nat k) mod 256 /\
     getZ (f_bytes f) 3 = (vc_cnt b + Z.of_nat k) mod 256) /\
  mc_cnt (w_blk w) mod 256 = (mc_cnt b + Z.of_nat (length (w_frames w))) mod 256 /\
  vc_cnt (w_blk w) mod 256 = (vc_cnt b + Z.of_nat (length (w_frames w))) mod 256.
Proof.
  cbv zeta. unfold general_work.
  destruct (n_out <? frame_len p).
  { cbn [w_frames w_blk length]. rewrite !Z.add_0_r. repeat split; done. }
  destruct (carve _ _ _ _) as [[inbuf' pending'] queue'].
  set (b1 := {| mc_cnt := mc_cnt b; vc_cnt := vc_cnt b; _inbuf := inbuf';
                _pending_tags := pending'; _spp_queue := queue';
                _cur_pkt := _cur_pkt b |}).
  pose proof (frame_loop_counters p n_out nw (Z.to_nat n_out) b1 [] [] 0) as Hloop.
  cbv zeta in Hloop.
  destruct (frame_loop _ _ _ _ _ _ _ _) as [[[b2 frames] otags] produced].
  cbn [fst snd w_frames w_blk app mc_cnt vc_cnt b1] in *.
  destruct Hloop as (new & -> & H2 & H3 & H4). done.
Qed.


Lemma getZ_6 (a0 a1 a2 a3 a4 a5 : Z) (rest : list Z) :
  let l := a0 :: a1 :: a2 :: a3 :: a4 :: a5 :: rest in
  getZ l 0 = a0 /\ getZ l 1 = a1 /\ getZ l 2 = a2 /\ getZ l 3 = a3 /\
  getZ l 4 = a4 /\ getZ l 5 = a5.
Proof. done. Qed.

Lemma pack_header_bytes (p : params) (b : blk) (fhp : Z) :
  let W := Z.land (scid p) 0x3FF * 16 + Z.land (vcid p) 0x7 * 2
           + (if ocf_present p then 1 else 0) in
  let F := Z.land fhp 0x7FF in
  _pack_primary_header p b fhp
  = [W / 256 mod 256; W mod 256; Z.land (mc_cnt b) 0xFF; Z.land (vc_cnt b) 0xFF;
     F / 256 mod 256; F mod 256].
Proof.
  cbv zeta. unfold _pack_primary_header. cbv zeta.
  change (Z.shiftl (Z.land 0 3) 14) with 0. change (Z.shiftl (Z.land 0 1) 15) with 0.
  change (Z.shiftl (Z.land 0 1) 14) with 0. change (Z.shiftl (Z.land 0 1) 13) with 0.
  change (Z.shiftl (Z.land 0 3) 11) with 0.
  change (Z.lor (Z.lor (Z.lor 0 0) 0) 0) with 0. rewrite !Z.lor_0_l.
  set (S := Z.land (scid p) 0x3FF). set (V := Z.land (vcid p) 0x7).
  set (O := if ocf_present p then 1 else 0). set (F := Z.land fhp 0x7FF).
  assert (HS : 0 <= S < 1024).
  { unfold S. change 0x3FF with (2 ^ 10 - 1). rewrite land_ones_mod by lia.
    apply Z.mod_pos_bound. lia. }
  assert (HV : 0 <= V < 8).
  { unfold V. change 0x7 with (2 ^ 3 - 1). rewrite land_ones_mod by lia.
    apply Z.mod_pos_bound. lia. }
  assert (HO : 0 <= O < 2) by (unfold O; destruct (ocf_present p); lia).
  assert (EW : Z.lor (Z.lor (Z.shiftl S 4) (Z.shiftl V 1)) O = S * 16 + V * 2 + O).
  { rewrite !Z.shiftl_mul_pow2 by lia. change (2 ^ 4) with 16. change (2 ^ 1) with 2.
    rewrite (lor_add_disjoint (S * 16) (V * 2) 4); [|lia| |lia].
    2:{ change (2 ^ 4) with 16. by rewrite Z.mod_mul. }
    rewrite (lor_add_disjoint _ O 1); [done|lia| |lia].
    change (2 ^ 1) with 2. replace (S * 16 + V * 2) with ((S * 8 + V) * 2) by lia.
    by rewrite Z.mod_mul. }
  rewrite EW. rewrite !Z.shiftr_div_pow2 by lia.
  change (2 ^ 8) with 256. change (2 ^ 0) with 1. rewrite !Z.div_1_r.
  by rewrite !land_255_mod.
Qed.

(** X14. The six header bytes of a frame read back as the fields they
    were packed from: transfer frame version 0, the spacecraft id masked to
    10 bits, the virtual channel id masked to 3 bits, the OCF flag, the
    five flag bits of the data field status all zero, and in the low 11
    bits the First Header Pointer of the frame. *)
Theorem frame_header_reads_back (p : params) (b : blk) :
  let f := (assemble p b).1 in
  tfvn_field (f_bytes f) = 0 /\
  scid_field (f_bytes f) = Z.land (scid p) 0x3FF /\
  vcid_field (f_bytes f) = Z.land (vcid p) 0x7 /\
  ocf_flag (f_bytes f) = (if ocf_present p then 1 else 0) /\
  status_flags (f_bytes f) = 0 /\
  fhp_field (f_bytes f) = Z.land (f_fhp f) 0x7FF.
Proof.
  cbv zeta. pose proof (assemble_bytes p b) as Hb. cbv zeta in Hb. rewrite Hb.
  generalize (f_fhp (assemble p b).1). intros fhp.
  pose proof (pack_header_bytes p b fhp) as Hh. cbv zeta in Hh. rewrite Hh.
  set (S := Z.land (scid p) 0x3FF) in *. set (V := Z.land (vcid p) 0x7) in *.
  set (O := if ocf_present p then 1 else 0) in *. set (F := Z.land fhp 0x7FF) in *.
  assert (HS : 0 <= S < 1024).
  { unfold S. change 0x3FF with (2 ^ 10 - 1). rewrite land_ones_mod by lia.
    apply Z.mod_pos_bound. lia. }
  assert (HV : 0 <= V < 8).
  { unfold V. change 0x7 with (2 ^ 3 - 1). rewrite land_ones_mod by lia.
    apply Z.mod_pos_bound. lia. }
  assert (HO : 0 <= O < 2) by (unfold O; destruct (ocf_present p); lia).
  assert (HF : 0 <= F < 2048).
  { unfold F. change 0x7FF with (2 ^ 11 - 1). rewrite land_ones_mod by lia.
    apply Z.mod_pos_bound. lia. }
  rewrite <- app_assoc. cbn [app].
  unfold tfvn_field, scid_field, vcid_field, ocf_flag, status_flags, fhp_field, word0.
  match goal with |- context [getZ (?a0 :: ?a1 :: ?a2 :: ?a3 :: ?a4 :: ?a5 :: ?r) 0] =>
    destruct (getZ_6 a0 a1 a2 a3 a4 a5 r) as (-> & -> & _ & _ & -> & ->) end.
  rewrite !lor_shiftl_8
    by (unfold is_byte; apply Z.mod_pos_bound; lia).
  rewrite !Z.shiftr_div_pow2 by lia.
  change 0x3 with (2 ^ 2 - 1). change 0x3FF with (2 ^ 10 - 1).
  change 0x7 with (2 ^ 3 - 1). change 0x1 with (2 ^ 1 - 1).
  change 0x7FF with (2 ^ 11 - 1).
  rewrite !land_ones_mod by lia.
  change (2 ^ 14) with 16384. change (2 ^ 2) with 4. change (2 ^ 4) with 16.
  change (2 ^ 10) with 1024. change (2 ^ 1) with 2. change (2 ^ 3) with 8.
  change (2 ^ 11) with 2048.
  repeat split; Z.div_mod_to_equations; lia.
Qed.

End TmFramerMore.

Section RandomizerMore.
Import Randomizer RandomizerSpec RandomizerCheck.

Section Call.
Variables (p : params) (inp : list Z) (n_out : Z).

Lemma process_chunk_step (chunk_len : Z) (s : work_state) :
  in_step inp n_out s -> chunk_len <= Z.of_nat (length inp) - s_cursor s ->
  let s' := process_chunk p inp n_out chunk_len s in
  in_step inp n_out s' /\
  s_cursor s' = s_cursor s + Z.max 0 (Z.min chunk_len (n_out - s_cursor s)) /\
  s_tags s' = s_tags s /\
  (enabled p = false \/ _frame_bytes_left (s_blk s) <= 0 ->
   s_blk s' = s_blk s /\
   s_out s' = s_out s ++ take (Z.to_nat (s_cursor s' - s_cursor s))
                              (drop (Z.to_nat (s_cursor s)) inp)).
Proof.
  intros (Hc & Hcons & Hr & Ho) Hlen. cbv zeta. unfold process_chunk.
  destruct (Z.leb_spec chunk_len 0) as [Hle|Hpos].
  { rewrite Z.max_l by lia. rewrite Z.add_0_r, Z.sub_diag. cbn [Z.to_nat take].
    rewrite app_nil_r. done. }
  rewrite <- Hc.
  destruct (Z.leb_spec (Z.min chunk_len (n_out - s_cursor s)) 0) as [Hle|Hn].
  { rewrite Z.max_l by lia. rewrite Z.add_0_r, Z.sub_diag. cbn [Z.to_nat take].
    rewrite app_nil_r. done. }
  set (n := Z.min chunk_len (n_out - s_cursor s)) in *.
  rewrite Z.max_r by lia.
  assert (Hpass : length (slice inp (s_cursor s) (s_cursor s + n)) = Z.to_nat n)
    by (apply slice_length; lia).
  destruct (negb (enabled p) || (_frame_bytes_left (s_blk s) <=? 0)) eqn:Epass.
  - unfold in_step, produced. cbn [s_cursor s_out s_consumed s_tags s_blk].
    rewrite length_app, Hpass. unfold produced in Hc, Hcons.
    split; [lia|]. split; [done|]. split; [done|]. intros _. split; [done|].
    f_equal. rewrite slice_as_take_drop by lia. f_equal. lia.
  - apply orb_false_iff in Epass as [Een Eleft].
    apply negb_false_iff in Een. apply Z.leb_gt in Eleft.
    set (to_rand := Z.min n (_frame_bytes_left (s_blk s))).
    destruct (xor_pn _ _) as [r lfsr'] eqn:Ex.
    assert (Hr' : length r = Z.to_nat to_rand).
    { pose proof (xor_pn_length (slice inp (s_cursor s) (s_cursor s + to_rand))
                    (_lfsr (s_blk s))) as Hx.
      rewrite Ex in Hx. cbn [fst] in Hx. rewrite Hx. apply slice_length; lia. }
    assert (Hrest : length (if to_rand <? n
                            then slice inp (s_cursor s + to_rand) (s_cursor s + n)
                            else []) = Z.to_nat (n - to_rand)).
    { destruct (Z.ltb_spec to_rand n).
      - replace (s_cursor s + n) with (s_cursor s + to_rand + (n - to_rand)) by lia.
        apply slice_length; lia.
      - cbn [length]. lia. }
    unfold in_step, produced. cbn [s_cursor s_out s_consumed s_tags s_blk].
    rewrite !length_app, Hr', Hrest. unfold produced in Hc, Hcons.
    split; [lia|]. split; [done|]. split; [done|].
    intros [E|E]; [congruence|lia].
Qed.


Lemma walk_starts_step (nw : Z) (starts : list tag) :
  forall s,
    in_step inp n_out s ->
    Forall (fun t : tag => 0 <= t.1 < Z.of_nat (length inp)) starts ->
    let s' := walk_starts p inp n_out nw starts s in
    in_step inp n_out s' /\
    (enabled p = false ->
     s_out s = take (Z.to_nat (s_cursor s)) inp ->
     s_out s' = take (Z.to_nat (s_cursor s')) inp).
Proof.
  induction starts as [|[rel_off frame_len] rest IH]; intros s Hs Hst; [done|].
  apply Forall_cons in Hst as [Hrel Hst]. cbn [fst] in Hrel.
  cbn [walk_starts].
  destruct (process_chunk_step (rel_off - s_cursor s) s Hs ltac:(lia))
    as (Hs1 & Hc1 & _ & Hpass).
  cbv zeta in Hs1, Hc1, Hpass.
  set (s1 := if 0 <? rel_off - s_cursor s
             then process_chunk p inp n_out (rel_off - s_cursor s) s else s).
  assert (H1 : in_step inp n_out s1) by (unfold s1; by destruct (0 <? _)).
  assert (H1o : enabled p = false ->
                s_out s = take (Z.to_nat (s_cursor s)) inp ->
                s_out s1 = take (Z.to_nat (s_cursor s1)) inp).
  { intros He Ho. unfold s1. destruct (0 <? _); [|done].
    destruct (Hpass (or_introl He)) as [_ ->]. rewrite Ho, take_take_drop.
    f_equal. destruct Hs as (_ & _ & ? & _). destruct Hs1 as (_ & _ & ? & _). lia. }
  destruct ((0 <? rel_off - s_cursor s) && (n_out <=? produced s1)); [done|].
  set (s2 := {| s_blk := _; s_out := s_out s1; s_consumed := _; s_cursor := _;
                s_tags := _ |}).
  assert (H2 : in_step inp n_out s2) by exact H1.
  destruct (IH s2 H2 Hst) as [H3 H3o]. cbv zeta in H3, H3o.
  split; [done|]. intros He Ho. apply H3o; [done|]. by apply H1o.
Qed.


End Call.


Lemma insert_by_offset_Forall (P : tag -> Prop) (t : tag) (l : list tag) :
  P t -> Forall P l -> Forall P (insert_by_offset t l).
Proof.
  intros Ht. induction 1 as [|u l Hu Hl IH]; cbn [insert_by_offset].
  - by apply Forall_singleton.
  - destruct (t.1 <? u.1); repeat constructor; done.
Qed.

Lemma sort_by_offset_Forall (P : tag -> Prop) (l : list tag) :
  Forall P l -> Forall P (sort_by_offset l).
Proof.
  induction 1 as [|t l Ht Hl IH]; [constructor|].
  cbn [sort_by_offset foldr]. by apply insert_by_offset_Forall.
Qed.



Lemma consume_length_tags_window (n : Z) (tags : list tag) :
  Forall (fun t : tag => 0 <= t.1 < n) tags ->
  Forall (fun t : tag => 0 <= t.1 < n) (_consume_length_tags tags).
Proof.
  intros H. unfold _consume_length_tags. apply sort_by_offset_Forall.
  apply Forall_forall. intros t Hin. apply list_elem_of_filter in Hin as [_ Hin].
  by eapply Forall_forall in H.
Qed.

(** X15. The randomizer keeps the stream's length and order.  When the
    length tags of the window lie inside it, one call produces and
    consumes exactly [min n_in n_out] bytes, one output byte for each
    input byte; and a disabled block writes the input bytes themselves. *)
Theorem randomizer_is_rate_one (p : params) (b : blk) (inp : list Z)
    (tags : list tag) (n_out nw : Z) :
  Forall (fun t : tag => 0 <= t.1 < Z.of_nat (length inp)) tags -> 0 <= n_out ->
  let w := general_work p b inp tags n_out nw in
  Z.of_nat (length (w_out w)) = Z.min (Z.of_nat (length inp)) n_out /\
  w_consumed w = Z.of_nat (length (w_out w)) /\
  (enabled p = false -> w_out w = take (Z.to_nat n_out) inp).
Proof.
  intros Ht Hn. cbv zeta. unfold general_work.
  destruct (Z.eqb_spec (Z.of_nat (length inp)) 0) as [E0|Hin].
  { cbn [orb w_out w_consumed length]. destruct inp; [|done].
    rewrite take_nil. repeat split; try done. cbn. lia. }
  destruct (Z.eqb_spec n_out 0) as [->|Hout].
  { cbn [orb w_out w_consumed length Z.to_nat take]. repeat split; try done. lia. }
  cbn [orb].
  set (s0 := {| s_blk := b; s_out := []; s_consumed := 0; s_cursor := 0; s_tags := [] |}).
  assert (H0 : in_step inp n_out s0) by (unfold in_step, produced; cbn; lia).
  destruct (walk_starts_step p inp n_out nw (_consume_length_tags tags) s0 H0
              (consume_length_tags_window _ _ Ht)) as [H1 H1o].
  cbv zeta in H1, H1o.
  set (s1 := walk_starts p inp n_out nw (_consume_length_tags tags) s0) in *.
  destruct (process_chunk_step p inp n_out (Z.of_nat (length inp) - s_cursor s1) s1 H1
              ltac:(lia)) as (H2 & Hc2 & _ & H2o).
  cbv zeta in H2, Hc2, H2o.
  assert (Htake : forall c, c = Z.min (Z.of_nat (length inp)) n_out ->
            take (Z.to_nat c) inp = take (Z.to_nat n_out) inp).
  { intros c ->. destruct (Z.le_ge_cases (Z.of_nat (length inp)) n_out).
    - rewrite Z.min_l by done. rewrite !take_ge; [done|lia|lia].
    - by rewrite Z.min_r by done. }
  destruct H1 as (Hc1 & Hcons1 & Hr1 & Ho1).
  destruct ((produced s1 <? n_out) && (s_cursor s1 <? Z.of_nat (length inp))) eqn:Emore.
  - apply andb_true_iff in Emore as [E1 E2]. apply Z.ltb_lt in E1, E2.
    destruct H2 as (Hc2' & Hcons2 & Hr2 & Ho2). unfold produced in *.
    cbn [w_out w_consumed]. split; [lia|]. split; [lia|].
    intros He. destruct (H2o (or_introl He)) as [_ ->].
    rewrite (H1o He eq_refl), take_take_drop.
    replace (Z.to_nat (s_cursor s1) + Z.to_nat (s_cursor _ - s_cursor s1))%nat
      with (Z.to_nat (s_cursor (process_chunk p inp n_out
                                  (Z.of_nat (length inp) - s_cursor s1) s1))) by lia.
    apply Htake. lia.
  - apply andb_false_iff in Emore. unfold produced in *.
    cbn [w_out w_consumed].
    assert (s_cursor s1 = Z.min (Z.of_nat (length inp)) n_out).
    { destruct Emore as [E|E]; apply Z.ltb_ge in E; lia. }
    split; [lia|]. split; [lia|].
    intros He. rewrite (H1o He eq_refl). by apply Htake.
Qed.

Lemma randomizer_is_rate_one_witness :
  Forall (fun t : tag => 0 <= t.1 < Z.of_nat (length [1; 2; 3; 4; 5])) [(1, 3)] /\
  0 <= 4 /\
  let w := general_work (make 0x7FFF true true) (init (make 0x7FFF true true))
             [1; 2; 3; 4; 5] [(1, 3)] 4 0 in
  Z.of_nat (length (w_out w)) = Z.min (Z.of_nat (length [1; 2; 3; 4; 5])) 4 /\
  w_consumed w = Z.of_nat (length (w_out w)) /\
  (enabled (make 0x7FFF true true) = false -> w_out w = take (Z.to_nat 4) [1; 2; 3; 4; 5]).
Proof.
  assert (H1 : Forall (fun t : tag => 0 <= t.1 < Z.of_nat (length [1; 2; 3; 4; 5]))
                      [(1, 3)]) by (repeat constructor; cbn; lia).
  assert (H2 : 0 <= 4) by lia.
  split; [exact H1|]. split; [exact H2|].
  exact (randomizer_is_rate_one (make 0x7FFF true true) (init (make 0x7FFF true true))
           [1; 2; 3; 4; 5] [(1, 3)] 4 0 H1 H2).
Defined.




Lemma xor_pn_app (a b : list Z) :
  forall lfsr,
    xor_pn lfsr (a ++ b)
    = ((xor_pn lfsr a).1 ++ (xor_pn (xor_pn lfsr a).2 b).1,
       (xor_pn (xor_pn lfsr a).2 b).2).
Proof.
  induction a as [|x a IH]; intros lfsr.
  - cbn [app xor_pn fst snd]. by destruct (xor_pn lfsr b).
  - cbn [app]. rewrite !xor_pn_cons, IH. done.
Qed.

(** A window that lies inside the frame being masked. *)
Lemma process_chunk_inside (p : params) (inp : list Z) (b : blk) (tags : list tag) :
  enabled p = true -> inp <> [] ->
  Z.of_nat (length inp) <= _frame_bytes_left b ->
  process_chunk p inp (Z.of_nat (length inp)) (Z.of_nat (length inp) - 0)
    {| s_blk := b; s_out := []; s_consumed := 0; s_cursor := 0; s_tags := tags |}
  = {| s_blk := {| _lfsr := (xor_pn (_lfsr b) inp).2;
                   _frame_bytes_left := _frame_bytes_left b - Z.of_nat (length inp) |};
       s_out := (xor_pn (_lfsr b) inp).1;
       s_consumed := Z.of_nat (length inp); s_cursor := Z.of_nat (length inp);
       s_tags := tags |}.
Proof.
  intros He Hne Hleft.
  assert (Hn : 0 < Z.of_nat (length inp)) by (destruct inp; [done|cbn [length]; lia]).
  unfold process_chunk, produced. cbn [s_out length s_cursor s_blk s_consumed s_tags].
  change (Z.of_nat 0) with 0. rewrite !Z.sub_0_r, Z.min_id, He.
  destruct (Z.leb_spec (Z.of_nat (length inp)) 0) as [|_]; [lia|]. cbn [negb orb].
  destruct (Z.leb_spec (_frame_bytes_left b) 0) as [|_]; [lia|].
  rewrite Z.min_l by lia. rewrite Z.add_0_l, Z.ltb_irrefl, slice_full.
  destruct (xor_pn (_lfsr b) inp) as [r l']. cbn [fst snd app].
  by rewrite app_nil_r.
Qed.

Lemma work_inside_frame (p : params) (b : blk) (inp : list Z) (nw : Z) :
  enabled p = true -> inp <> [] ->
  Z.of_nat (length inp) <= _frame_bytes_left b ->
  general_work p b inp [] (Z.of_nat (length inp)) nw
  = {| w_blk := {| _lfsr := (xor_pn (_lfsr b) inp).2;
                   _frame_bytes_left := _frame_bytes_left b - Z.of_nat (length inp) |};
       w_out := (xor_pn (_lfsr b) inp).1; w_tags := [];
       w_consumed := Z.of_nat (length inp) |}.
Proof.
  intros He Hne Hleft.
  assert (Hn : 0 < Z.of_nat (length inp)) by (destruct inp; [done|cbn [length]; lia]).
  unfold general_work.
  destruct (Z.eqb_spec (Z.of_nat (length inp)) 0) as [|_]; [lia|]. cbn [orb].
  unfold _consume_length_tags. rewrite filter_nil.
  cbn [sort_by_offset foldr walk_starts]. unfold produced. cbn [s_out length s_cursor].
  change (Z.of_nat 0) with 0.
  destruct (Z.ltb_spec 0 (Z.of_nat (length inp))) as [_|]; [|lia]. cbn [andb].
  by rewrite process_chunk_inside.
Qed.

Lemma work_frame_start (p : params) (b : blk) (inp : list Z) (L nw : Z) :
  enabled p = true -> inp <> [] -> Z.of_nat (length inp) <= L ->
  let lfsr0 := if restart_per_frame p then seed p else _lfsr b in
  general_work p b inp [(0, L)] (Z.of_nat (length inp)) nw
  = {| w_blk := {| _lfsr := (xor_pn lfsr0 inp).2;
                   _frame_bytes_left := L - Z.of_nat (length inp) |};
       w_out := (xor_pn lfsr0 inp).1; w_tags := [(nw, L)];
       w_consumed := Z.of_nat (length inp) |}.
Proof.
  intros He Hne HL. cbv zeta.
  assert (Hn : 0 < Z.of_nat (length inp)) by (destruct inp; [done|cbn [length]; lia]).
  unfold general_work.
  destruct (Z.eqb_spec (Z.of_nat (length inp)) 0) as [|_]; [lia|]. cbn [orb].
  unfold _consume_length_tags.
  rewrite filter_cons_True by (cbn; lia). rewrite filter_nil.
  cbn [sort_by_offset foldr insert_by_offset walk_starts s_cursor].
  rewrite Z.sub_diag. change (0 <? 0) with false. cbn [andb].
  unfold produced. cbn [s_out length s_cursor s_blk s_consumed s_tags app].
  change (Z.of_nat 0) with 0. rewrite Z.add_0_r.
  destruct (Z.ltb_spec 0 (Z.of_nat (length inp))) as [_|]; [|lia]. cbn [andb].
  by rewrite process_chunk_inside.
Qed.

(** X17. The PN sequence runs on across calls.  A frame whose first part
    arrives in one window, with the frame's length tag on its first byte,
    and whose rest arrives in the next window is masked exactly as the
    same frame arriving in one window: the outputs of the two calls, one
    after the other, are the output of the single call, and the block is
    left in the same state. *)
Theorem randomizer_frame_in_two_calls (p : params) (b0 : blk)
    (a b : list Z) (nw1 nw2 : Z) :
  enabled p = true -> a <> [] ->
  let L := Z.of_nat (length (a ++ b)) in
  let w1 := general_work p b0 a [(0, L)] (Z.of_nat (length a)) nw1 in
  let w2 := general_work p (w_blk w1) b [] (Z.of_nat (length b)) nw2 in
  let w := general_work p b0 (a ++ b) [(0, L)] L nw1 in
  w_out w1 ++ w_out w2 = w_out w /\ w_blk w2 = w_blk w /\
  w_tags w1 ++ w_tags w2 = w_tags w.
Proof.
  intros He Ha. cbv zeta.
  assert (Hab : a ++ b <> []) by (by destruct a).
  rewrite (work_frame_start p b0 (a ++ b)) by (done || lia).
  rewrite (work_frame_start p b0 a) by (done || rewrite length_app; lia).
  cbn [w_blk w_out w_tags]. rewrite xor_pn_app. cbn [fst snd].
  destruct b as [|x b].
  - cbn [xor_pn fst snd]. rewrite !app_nil_r. done.
  - rewrite work_inside_frame;
      [|done|done|cbn [_frame_bytes_left]; rewrite length_app; lia].
    cbn [w_blk w_out w_tags _lfsr _frame_bytes_left]. split; [done|].
    split; [|done]. f_equal. rewrite length_app. lia.
Qed.

Lemma randomizer_frame_in_two_calls_witness :
  enabled (make 0x7FFF true true) = true /\ [1; 2; 3] <> [] /\
  let p := make 0x7FFF true true in
  let L := Z.of_nat (length ([1; 2; 3] ++ [4; 5])) in
  let w1 := general_work p (init p) [1; 2; 3] [(0, L)] (Z.of_nat (length [1; 2; 3])) 0 in
  let w2 := general_work p (w_blk w1) [4; 5] [] (Z.of_nat (length [4; 5])) 3 in
  let w := general_work p (init p) ([1; 2; 3] ++ [4; 5]) [(0, L)] L 0 in
  w_out w1 ++ w_out w2 = w_out w /\ w_blk w2 = w_blk w /\
  w_tags w1 ++ w_tags w2 = w_tags w.
Proof.
  assert (H2 : [1; 2; 3] <> @nil Z) by discriminate.
  split; [reflexivity|]. split; [exact H2|].
  exact (randomizer_frame_in_two_calls (make 0x7FFF true true)
           (init (make 0x7FFF true true)) [1; 2; 3] [4; 5] 0 3 eq_refl H2).
Defined.

End RandomizerMore.

Section ConvEncoderMore.
Import ConvEncoder ConvEncoderCheck.

Lemma bytes_to_bits_rows (b : list Z) : _bytes_to_bits b = concat (map bits8 b).
Proof. done. Qed.

Lemma bits8_length (byte : Z) : length (bits8 byte) = 8%nat.
Proof. done. Qed.

Lemma chunks8_nil (fuel : nat) : chunks8 fuel [] = [].
Proof. by destruct fuel. Qed.

Lemma chunks8_fuel (fuel : nat) :
  forall fuel' l,
    (length l <= fuel)%nat -> (length l <= fuel')%nat ->
    chunks8 fuel l = chunks8 fuel' l.
Proof.
  induction fuel as [|fuel IH]; intros fuel' l H1 H2.
  - destruct l; [|cbn in H1; lia]. by rewrite !chunks8_nil.
  - destruct l as [|x l]; [by rewrite !chunks8_nil|].
    destruct fuel' as [|fuel']; [cbn in H2; lia|].
    cbn [chunks8]. f_equal.
    apply IH; rewrite length_drop; cbn [length] in *; lia.
Qed.

Lemma chunks8_app (u v : list Z) (k : nat) :
  forall fuel,
    length u = (8 * k)%nat -> (length (u ++ v) <= fuel)%nat ->
    chunks8 fuel (u ++ v) = chunks8 (length u) u ++ chunks8 (length v) v.
Proof.
  revert u. induction k as [|k IH]; intros u fuel Hu Hf.
  - destruct u; [|cbn in Hu; lia]. cbn [app length chunks8].
    apply chunks8_fuel; [done|lia].
  - destruct fuel as [|fuel]; [rewrite length_app in Hf; lia|].
    destruct u as [|x u]; [cbn in Hu; lia|].
    assert (Hlen : (8 <= length (x :: u))%nat) by lia.
    change (chunks8 (length (x :: u)) (x :: u))
      with (take 8 (x :: u) :: chunks8 (length u) (drop 8 (x :: u))).
    change (chunks8 (S fuel) ((x :: u) ++ v))
      with (take 8 ((x :: u) ++ v) :: chunks8 fuel (drop 8 ((x :: u) ++ v))).
    rewrite take_app_le, drop_app_le by lia. cbn [app]. f_equal.
    rewrite (IH (drop 8 (x :: u)) fuel).
    + f_equal. apply chunks8_fuel; rewrite length_drop; cbn [length] in *; lia.
    + rewrite length_drop. lia.
    + rewrite length_app, length_drop. rewrite length_app in Hf. lia.
Qed.

Lemma chunks8_rows (rows : list (list Z)) :
  forall fuel,
    Forall (fun r => length r = 8%nat) rows -> (length (concat rows) <= fuel)%nat ->
    chunks8 fuel (concat rows) = rows.
Proof.
  induction rows as [|r rows IH]; intros fuel Hr Hf; [apply chunks8_nil|].
  apply Forall_cons in Hr as [H8 Hr]. cbn [concat] in *.
  rewrite (chunks8_app r (concat rows) 1) by (done || lia).
  rewrite IH by done. rewrite H8.
  destruct r as [|x r]; [cbn in H8; lia|].
  change (chunks8 8 (x :: r)) with (take 8 (x :: r) :: chunks8 7 (drop 8 (x :: r))).
  rewrite take_ge, drop_ge, chunks8_nil by lia. done.
Qed.

Lemma bits_to_bytes_whole (bits : list Z) (k : nat) :
  length bits = (8 * k)%nat ->
  _bits_to_bytes bits = map pack8 (chunks8 (length bits) bits).
Proof.
  intros H. unfold _bits_to_bytes. cbv zeta.
  replace ((8 - length bits mod 8) mod 8)%nat with 0%nat.
  - cbn [replicate]. by rewrite app_nil_r.
  - rewrite H, Nat.mul_comm, Nat.Div0.mod_mul. done.
Qed.

Lemma pack8_bits8_checked :
  forallb (fun b => pack8 (bits8 b) =? b) (rangeZ 256) = true.
Proof. vm_compute. reflexivity. Qed.

Lemma pack8_bits8 (b : Z) : is_byte b -> pack8 (bits8 b) = b.
Proof.
  intros Hb. pose proof pack8_bits8_checked as H.
  rewrite forallb_forall in H. apply Z.eqb_eq, H, in_rangeZ. exact Hb.
Qed.

Lemma bytes_to_bits_length (b : list Z) :
  length (_bytes_to_bits b) = (8 * length b)%nat.
Proof.
  rewrite bytes_to_bits_rows. induction b as [|x b IH]; [done|].
  cbn [map concat length]. rewrite length_app, IH, bits8_length. lia.
Qed.

(** X18. Unpacking bytes into bits and packing them again is the
    identity: [_bits_to_bytes (_bytes_to_bits b) = b] for every byte
    string, most significant bit first. *)
Theorem bits_of_bytes_pack_back (b : list Z) :
  bytes_ok b -> _bits_to_bytes (_bytes_to_bits b) = b.
Proof.
  intros Hb.
  rewrite (bits_to_bytes_whole _ (length b)) by apply bytes_to_bits_length.
  rewrite bytes_to_bits_rows, chunks8_rows; [| |done].
  - rewrite map_map. induction Hb as [|x b Hx _ IH]; [done|].
    cbn [map]. by rewrite pack8_bits8, IH.
  - apply Forall_map, Forall_true. intros ?. apply bits8_length.
Qed.

Lemma bits_of_bytes_pack_back_witness :
  bytes_ok [0x1A; 0xCF; 0xFC; 0x1D] /\
  _bits_to_bytes (_bytes_to_bits [0x1A; 0xCF; 0xFC; 0x1D]) = [0x1A; 0xCF; 0xFC; 0x1D].
Proof.
  assert (H : bytes_ok [0x1A; 0xCF; 0xFC; 0x1D])
    by (repeat constructor; unfold is_byte; lia).
  split; [exact H|]. exact (bits_of_bytes_pack_back _ H).
Defined.

Lemma chunks8_length (fuel : nat) :
  forall l, (length l <= fuel)%nat ->
            length (chunks8 fuel l) = ((length l + 7) / 8)%nat.
Proof.
  induction fuel as [|fuel IH]; intros l Hf.
  - destruct l; [done|cbn in Hf; lia].
  - destruct l as [|x l]; [done|].
    change (chunks8 (S fuel) (x :: l))
      with (take 8 (x :: l) :: chunks8 fuel (drop 8 (x :: l))).
    cbn [length]. rewrite IH by (rewrite length_drop; cbn [length] in *; lia).
    rewrite length_drop. cbn [length].
    destruct (Nat.le_gt_cases 8 (S (length l))) as [H|H].
    + replace (S (length l) + 7)%nat with ((S (length l) - 8 + 7) + 1 * 8)%nat by lia.
      rewrite Nat.div_add by lia. lia.
    + replace (S (length l) - 8)%nat with 0%nat by lia.
      change ((0 + 7) / 8)%nat with 0%nat.
      assert ((S (length l) + 7) / 8 = 1)%nat; [|lia].
      replace (S (length l) + 7)%nat with ((length l) + 1 * 8)%nat by lia.
      rewrite Nat.div_add by lia. rewrite Nat.div_small by lia. done.
Qed.

Lemma bits_to_bytes_length (bits : list Z) :
  length (_bits_to_bytes bits) = ((length bits + 7) / 8)%nat.
Proof.
  unfold _bits_to_bytes. cbv zeta. rewrite length_map, chunks8_length by done.
  rewrite length_app, length_replicate.
  set (n := length bits).
  pose proof (Nat.div_mod_eq n 8) as E.
  pose proof (Nat.mod_upper_bound n 8 ltac:(lia)) as Hm.
  destruct (Nat.eq_dec (n mod 8)%nat 0%nat) as [E0|E0].
  - rewrite E0. change ((8 - 0) mod 8)%nat with 0%nat. by rewrite Nat.add_0_r.
  - rewrite (Nat.mod_small (8 - n mod 8)%nat 8%nat) by lia.
    replace (n + (8 - n mod 8) + 7)%nat with (7 + (n / 8 + 1) * 8)%nat by lia.
    rewrite Nat.div_add by lia. change (7 / 8)%nat with 0%nat.
    replace (n + 7)%nat with ((n mod 8 + 7) + (n / 8) * 8)%nat by lia.
    rewrite Nat.div_add by lia.
    assert ((n mod 8 + 7) / 8 = 1)%nat; [|lia].
    replace (n mod 8 + 7)%nat with ((n mod 8 - 1) + 1 * 8)%nat by lia.
    rewrite Nat.div_add by lia. rewrite Nat.div_small by lia. done.
Qed.

Lemma encode_loop_length (in_bits : list Z) :
  forall state, length (encode_loop state in_bits) = (2 * length in_bits)%nat.
Proof.
  induction in_bits as [|b bits IH]; intros state; [done|].
  cbn [encode_loop length]. rewrite IH. lia.
Qed.

Lemma encode_frame_length (frame : list Z) :
  length (encode_frame frame) = (2 * length frame)%nat.
Proof.
  unfold encode_frame, _conv_encode_bits.
  rewrite bits_to_bytes_length, encode_loop_length, bytes_to_bits_length.
  replace (2 * (8 * length frame) + 7)%nat with (7 + (2 * length frame) * 8)%nat by lia.
  rewrite Nat.div_add by lia. done.
Qed.

(** X19. The encoder is rate 1/2 on bytes.  A frame of [n] bytes is
    unpacked into [8 * n] bits and encoded into [16 * n] bits, a whole
    number of bytes, so [_bits_to_bytes] never pads: the encoded frame has
    exactly [2 * n] bytes, the length the block queues for the frame's
    output tag. *)
Theorem encode_frame_doubles_length (frame : list Z) :
  length (_bytes_to_bits frame) = (8 * length frame)%nat /\
  length (_conv_encode_bits (_bytes_to_bits frame)) = (16 * length frame)%nat /\
  length (encode_frame frame) = (2 * length frame)%nat.
Proof.
  split; [apply bytes_to_bits_length|]. split; [|apply encode_frame_length].
  unfold _conv_encode_bits. rewrite encode_loop_length, bytes_to_bits_length. lia.
Qed.

Lemma encode_loop_app (x y : list Z) :
  forall state,
    encode_loop state (x ++ y)
    = encode_loop state x ++ encode_loop (final_state state x) y.
Proof.
  induction x as [|b x IH]; intros state; [done|].
  cbn [app encode_loop final_state fold_left]. rewrite IH. done.
Qed.

Lemma bits_to_bytes_app (u v : list Z) (k : nat) :
  length u = (8 * k)%nat ->
  _bits_to_bytes (u ++ v) = _bits_to_bytes u ++ _bits_to_bytes v.
Proof.
  intros Hu. rewrite (bits_to_bytes_whole u k Hu).
  unfold _bits_to_bytes. cbv zeta. rewrite <- map_app. f_equal.
  assert (Hpad : ((8 - length (u ++ v) mod 8) mod 8
                  = (8 - length v mod 8) mod 8)%nat).
  { do 2 f_equal. rewrite length_app, Hu, Nat.add_comm, Nat.mul_comm.
    by rewrite Nat.Div0.mod_add. }
  rewrite Hpad, <- app_assoc. by apply (chunks8_app u _ k).
Qed.

(** X20. The encoder is causal: the encoding of a frame [a ++ b] begins
    with the encoding of [a], and what follows has twice the length of
    [b] and is the encoding of [b] from the shift register [a] left
    behind.  In particular every frame that begins with the sync marker
    begins, encoded, with the same bytes. *)
Theorem encode_frame_prefix (a b : list Z) :
  encode_frame (a ++ b)
  = encode_frame a
    ++ _bits_to_bytes (encode_loop (final_state 0 (_bytes_to_bits a)) (_bytes_to_bits b)) /\
  take (2 * length a) (encode_frame (a ++ b)) = encode_frame a.
Proof.
  assert (E : encode_frame (a ++ b)
              = encode_frame a
                ++ _bits_to_bytes (encode_loop (final_state 0 (_bytes_to_bits a))
                                               (_bytes_to_bits b))).
  { unfold encode_frame, _conv_encode_bits.
    rewrite !bytes_to_bits_rows, map_app, concat_app, <- !bytes_to_bits_rows.
    rewrite encode_loop_app.
    apply (bits_to_bytes_app _ _ (2 * length a)).
    rewrite encode_loop_length, bytes_to_bits_length. lia. }
  split; [exact E|]. rewrite E, <- (encode_frame_length a).
  by rewrite take_app_length.
Qed.

Lemma encode_loop_single (r b : Z) : exists x y, encode_loop r [b] = [x; y].
Proof. by eexists _, _. Qed.

(** The expected output bits the decoder's trellis holds for every state
    and input bit, against the bits the encoder emits: checked for every
    7-bit register and both input bits. *)
Lemma trellis_outputs_checked :
  all_from 128 0
    (fun r => all_from 2 0
       (fun b =>
          (getZ (encode_loop r [b]) 0 =? (Viterbi.trellis_entry (Z.land r 63) b).2.1)
          && (getZ (encode_loop r [b]) 1 =? (Viterbi.trellis_entry (Z.land r 63) b).2.2)))
  = true.
Proof. vm_compute. reflexivity. Qed.

(** X21. Encoder and decoder agree on the code.  Whatever its 7-bit
    shift register holds, the two bits the encoder emits for an input bit
    are the two expected bits the decoder's trellis stores for that input
    bit and the state made of the register's six low bits: the encoder's
    loop parity and the decoder's folded parity compute the same parities
    of the same register under the generators 171 and 133 (octal). *)
Theorem trellis_outputs_match_encoder (r b : Z) :
  0 <= r < 128 -> 0 <= b <= 1 ->
  encode_loop r [b]
  = [(Viterbi.trellis_entry (Z.land r 63) b).2.1;
     (Viterbi.trellis_entry (Z.land r 63) b).2.2].
Proof.
  intros Hr Hb.
  pose proof (all_from_spec _ 128 0 r trellis_outputs_checked ltac:(lia)) as H.
  cbv beta in H.
  pose proof (all_from_spec _ 2 0 b H ltac:(lia)) as H'. cbv beta in H'.
  apply andb_true_iff in H' as [H0 H1]. apply Z.eqb_eq in H0, H1.
  destruct (encode_loop_single r b) as (x & y & E). rewrite E in H0, H1 |- *.
  change (getZ [x; y] 0) with x in H0. change (getZ [x; y] 1) with y in H1.
  by rewrite H0, H1.
Qed.

Lemma trellis_outputs_match_encoder_witness :
  0 <= 0x55 < 128 /\ 0 <= 1 <= 1 /\
  encode_loop 0x55 [1]
  = [(Viterbi.trellis_entry (Z.land 0x55 63) 1).2.1;
     (Viterbi.trellis_entry (Z.land 0x55 63) 1).2.2].
Proof.
  assert (H1 : 0 <= 0x55 < 128) by lia. assert (H2 : 0 <= 1 <= 1) by lia.
  split; [exact H1|]. split; [exact H2|].
  exact (trellis_outputs_match_encoder 0x55 1 H1 H2).
Defined.

End ConvEncoderMore.

Section ConvWorkFacts.
Import ConvEncoder ConvEncoderCheck ConvWork ConvWorkSpec.

Lemma total_nonneg (lens : list Z) : Forall (fun l => 0 < l) lens -> 0 <= total lens.
Proof. unfold total. induction 1; cbn [foldr] in *; lia. Qed.

Lemma lens_tags_shift (c : Z) (lens : list Z) :
  forall a, lens_tags (a + c) lens = map (fun t : tag => (t.1 + c, t.2)) (lens_tags a lens).
Proof.
  induction lens as [|l lens IH]; intros a; [done|].
  cbn [lens_tags map fst snd]. f_equal.
  replace (a + c + l) with (a + l + c) by lia. apply IH.
Qed.

Lemma written_tags_shift (base c n : Z) (l : list tag) :
  map (fun t : tag => (base + c + t.1, t.2))
      (filter (fun t : tag => t.1 < n - c) (map (fun t : tag => (t.1 + - c, t.2)) l))
  = map (fun t : tag => (base + t.1, t.2)) (filter (fun t : tag => t.1 < n) l).
Proof.
  induction l as [|[o v] l IH]; [done|].
  cbn [map fst snd]. rewrite !filter_cons. cbn [fst snd].
  destruct (decide (o + - c < n - c)), (decide (o < n)); try lia.
  - rewrite !map_cons. f_equal; [cbn [fst snd]; f_equal; lia | exact IH].
  - exact IH.
Qed.

Lemma waiting_tags_shift (c n : Z) (l : list tag) :
  map (fun t : tag => (t.1 + - (n - c), t.2))
      (filter (fun t : tag => n - c <= t.1) (map (fun t : tag => (t.1 + - c, t.2)) l))
  = map (fun t : tag => (t.1 + - n, t.2)) (filter (fun t : tag => n <= t.1) l).
Proof.
  induction l as [|[o v] l IH]; [done|].
  cbn [map fst snd]. rewrite !filter_cons. cbn [fst snd].
  destruct (decide (n - c <= o + - c)), (decide (n <= o)); try lia.
  - rewrite !map_cons. f_equal; [cbn [fst snd]; f_equal; lia | exact IH].
  - exact IH.
Qed.

Lemma lens_tags_offsets (a : Z) (lens : list Z) :
  Forall (fun l => 0 < l) lens -> Forall (fun t : tag => a <= t.1) (lens_tags a lens).
Proof.
  intros H. revert a. induction H as [|l lens Hl _ IH]; intros a; [constructor|].
  cbn [lens_tags]. constructor; [cbn; lia|].
  eapply Forall_impl; [apply IH|]. cbn. intros; lia.
Qed.


Lemma starts_none_written (n a : Z) (l : list tag) :
  n <= a -> Forall (fun t : tag => a <= t.1) l ->
  filter (fun t : tag => t.1 < n) l = [] /\
  map (fun t : tag => (t.1 + - n, t.2)) (filter (fun t : tag => n <= t.1) l)
  = map (fun t : tag => (t.1 + - n, t.2)) l.
Proof.
  intros Hn. induction 1 as [|[o v] l Ho _ [IH1 IH2]]; [done|].
  cbn [fst] in Ho. rewrite !filter_cons. cbn [fst snd].
  destruct (decide (o < n)); [lia|]. destruct (decide (n <= o)); [|lia].
  split; [exact IH1|]. rewrite !map_cons. f_equal. exact IH2.
Qed.

Lemma map_shift_0 (l : list tag) : map (fun t : tag => (t.1 + - 0, t.2)) l = l.
Proof.
  induction l as [|[o v] l IH]; [done|]. rewrite map_cons, IH. cbn [fst snd].
  do 2 f_equal. lia.
Qed.

Lemma starts_offsets (b : blk) :
  sched_ok b -> Forall (fun t : tag => _head_remaining b <= t.1) (starts b).
Proof.
  intros (Hpos & _ & _ & _). unfold starts. apply lens_tags_offsets.
  unfold unstarted. destruct (_ =? 0); [done|].
  destruct (_pending_out_frames b); [done|]. by apply Forall_cons in Hpos as [_ ?].
Qed.

(** Nothing is written when there is no room or nothing buffered. *)
Lemma write_nothing (ow : Z) (b : blk) (out : list Z) (tags : list tag) (n : Z) :
  sched_ok b -> n = 0 ->
  (b, out, tags)
  = (b, out ++ take (Z.to_nat n) (_outbuf b),
     tags ++ map (fun t : tag => (ow + Z.of_nat (length out) + t.1, t.2))
                 (filter (fun t : tag => t.1 < n) (starts b))) /\
  starts b = map (fun t : tag => (t.1 + - n, t.2)) (filter (fun t : tag => n <= t.1) (starts b)).
Proof.
  intros Hok ->. pose proof Hok as (_ & Hhr & _).
  destruct (starts_none_written 0 _ _ Hhr (starts_offsets b Hok)) as [E1 E2].
  rewrite E1, E2, map_shift_0. cbn [Z.to_nat take map]. by rewrite !app_nil_r.
Qed.

Lemma write_loop_spec (ow : Z) (fuel : nat) :
  forall space b out tags,
    sched_ok b -> 0 <= space -> (length (_outbuf b) <= fuel)%nat ->
    let n := Z.min space (Z.of_nat (length (_outbuf b))) in
    exists b',
      write_loop fuel ow space b out tags
      = (b', out ++ take (Z.to_nat n) (_outbuf b),
         tags ++ map (fun t : tag => (ow + Z.of_nat (length out) + t.1, t.2))
                     (filter (fun t : tag => t.1 < n) (starts b))) /\
      sched_ok b' /\
      _outbuf b' = drop (Z.to_nat n) (_outbuf b) /\
      _inbuf b' = _inbuf b /\ _frame_queue b' = _frame_queue b /\
      starts b'
      = map (fun t : tag => (t.1 + - n, t.2)) (filter (fun t : tag => n <= t.1) (starts b)).
Proof.
  induction fuel as [|fuel IH]; intros space b out tags Hok Hsp Hfuel; cbv zeta.
  { destruct (write_nothing ow b out tags (Z.min space (Z.of_nat (length (_outbuf b))))
                Hok ltac:(lia)) as [E1 E2].
    exists b. cbn [write_loop]. rewrite <- E1, <- E2.
    replace (Z.to_nat _) with 0%nat by lia. done. }
  cbn [write_loop].
  destruct (Z.ltb_spec 0 space) as [Hspace|Hspace]; cbn [negb orb].
  2:{ destruct (write_nothing ow b out tags (Z.min space (Z.of_nat (length (_outbuf b))))
                  Hok ltac:(lia)) as [E1 E2].
      exists b. rewrite <- E1, <- E2. replace (Z.to_nat _) with 0%nat by lia. done. }
  destruct (Nat.eqb_spec (length (_outbuf b)) 0) as [Hempty|Hbuf].
  { destruct (write_nothing ow b out tags (Z.min space (Z.of_nat (length (_outbuf b))))
                Hok ltac:(lia)) as [E1 E2].
    exists b. rewrite <- E1, <- E2. replace (Z.to_nat _) with 0%nat by lia. done. }
  set (len := Z.of_nat (length (_outbuf b))) in *.
  set (n := Z.min space len).
  set (P := Z.of_nat (length out)).
  (* One pass from a frame with [head] bytes left, then the rest of the loop. *)
  assert (Hstep : forall head pend rest tags',
            0 < head -> len = head + total rest ->
            Forall (fun l => 0 < l) pend ->
            (0 < head - Z.min space (Z.min head len) -> pend <> []) ->
            (if head - Z.min space (Z.min head len) =? 0 then pend else tail pend) = rest ->
            exists b',
              write_loop fuel ow (space - Z.min space (Z.min head len))
                {| _inbuf := _inbuf b;
                   _outbuf := slice_from (_outbuf b) (Z.min space (Z.min head len));
                   _frame_queue := _frame_queue b;
                   _pending_out_frames := pend;
                   _head_remaining := head - Z.min space (Z.min head len) |}
                (out ++ slice_to (_outbuf b) (Z.min space (Z.min head len))) tags'
              = (b', out ++ take (Z.to_nat n) (_outbuf b),
                 tags' ++ map (fun t : tag => (ow + P + t.1, t.2))
                              (filter (fun t : tag => t.1 < n) (lens_tags head rest))) /\
              sched_ok b' /\
              _outbuf b' = drop (Z.to_nat n) (_outbuf b) /\
              _inbuf b' = _inbuf b /\ _frame_queue b' = _frame_queue b /\
              starts b'
              = map (fun t : tag => (t.1 + - n, t.2))
                    (filter (fun t : tag => n <= t.1) (lens_tags head rest))).
  { intros head pend rest tags' Hhead Hlen Hpend Hne Hrest.
    set (chunk := Z.min space (Z.min head len)) in *.
    assert (Hrestpos : Forall (fun l => 0 < l) rest).
    { rewrite <- Hrest. destruct (_ =? 0); [done|].
      destruct pend; [done|]. by apply Forall_cons in Hpend as [_ ?]. }
    pose proof (total_nonneg rest Hrestpos) as Htot.
    assert (Hchunk : 0 < chunk <= len) by (unfold chunk; lia).
    replace (slice_from (_outbuf b) chunk) with (drop (Z.to_nat chunk) (_outbuf b))
      by (rewrite <- slice_from_nat; f_equal; lia).
    replace (slice_to (_outbuf b) chunk) with (take (Z.to_nat chunk) (_outbuf b))
      by (rewrite <- slice_to_nat; f_equal; lia).
    set (b1 := {| _inbuf := _inbuf b; _outbuf := drop (Z.to_nat chunk) (_outbuf b);
                  _frame_queue := _frame_queue b; _pending_out_frames := pend;
                  _head_remaining := head - chunk |}).
    assert (Hok1 : sched_ok b1).
    { unfold sched_ok, unstarted. cbn [b1 _pending_out_frames _head_remaining _outbuf].
      rewrite Hrest, length_drop. repeat split; [done|lia|done|unfold len in *; lia]. }
    destruct (IH (space - chunk) b1 (out ++ take (Z.to_nat chunk) (_outbuf b)) tags'
                 Hok1 ltac:(lia)) as (b' & E & Hok' & Eo & Ei & Eq & Es).
    { cbn [b1 _outbuf]. rewrite length_drop. unfold len in *. lia. }
    cbv zeta in E, Eo, Es. cbn [b1 _outbuf _inbuf _frame_queue] in E, Eo, Ei, Eq, Es.
    rewrite length_drop in E, Eo, Es.
    replace (Z.min (space - chunk) (Z.of_nat (length (_outbuf b) - Z.to_nat chunk)))
      with (n - chunk) in E, Eo, Es by (unfold n, len in *; lia).
    assert (Est1 : starts b1
                   = map (fun t : tag => (t.1 + - chunk, t.2)) (lens_tags head rest)).
    { unfold starts, unstarted. cbn [b1 _pending_out_frames _head_remaining].
      rewrite Hrest. apply (lens_tags_shift (- chunk) rest head). }
    rewrite Est1 in E, Es.
    exists b'. split; [|split; [done|split; [|split; [done|split; [done|]]]]].
    - rewrite E. f_equal; [f_equal|].
      + rewrite <- app_assoc, take_take_drop. do 2 f_equal. unfold n, len in *. lia.
      + f_equal. rewrite length_app, length_take.
        replace (ow + Z.of_nat (length out + Z.to_nat chunk `min` length (_outbuf b)))
          with (ow + P + chunk) by (unfold P, len in *; lia).
        apply written_tags_shift.
    - rewrite Eo, drop_drop. f_equal. unfold n, len in *. lia.
    - rewrite Es. apply waiting_tags_shift. }
  destruct Hok as (Hpos & Hhr & Hne & Hlen). fold len in Hlen.
  destruct (Z.eqb_spec (_head_remaining b) 0) as [E0|Hhr0].
  - (* a new frame starts: its tag is added at the write head *)
    unfold starts, unstarted in *. rewrite E0 in *. cbn [Z.eqb] in *.
    destruct (_pending_out_frames b) as [|h rest] eqn:Ep.
    { cbn [total foldr] in Hlen. lia. }
    apply Forall_cons in Hpos as [Hh Hrest].
    pose proof (total_nonneg rest Hrest) as Htot.
    cbn [total foldr] in Hlen. fold (total rest) in Hlen.
    destruct (Z.leb_spec (Z.min space (Z.min h len)) 0) as [Hbad|_]; [lia|].
    destruct (Hstep h (if h - Z.min space (Z.min h len) =? 0 then tail (h :: rest)
                       else h :: rest) rest (tags ++ [(ow + P, h)]))
      as (b' & E & Hok' & Eo & Ei & Eq & Es); [lia|lia| | | |].
    + destruct (_ =? 0); [done|by constructor].
    + intros Hgt. destruct (_ =? 0) eqn:Ez; [apply Z.eqb_eq in Ez; lia|done].
    + destruct (h - Z.min space (Z.min h len) =? 0); reflexivity.
    + exists b'. cbn [lens_tags]. rewrite Z.add_0_l, !filter_cons. cbn [fst].
      destruct (decide (0 < n)) as [_|Hbad]; [|unfold n in Hbad; lia].
      destruct (decide (n <= 0)) as [Hbad|_]; [unfold n in Hbad; lia|].
      split; [|done]. rewrite E. f_equal.
      rewrite <- app_assoc. f_equal. cbn [app].
      rewrite map_cons. cbn [fst snd]. rewrite Z.add_0_r. done.
  - (* the frame at the head continues: no tag *)
    destruct (_pending_out_frames b) as [|h0 rest] eqn:Ep; [by destruct Hne; [lia|]|].
    unfold starts, unstarted in *. rewrite Ep in *.
    destruct (Z.eqb_spec (_head_remaining b) 0) as [|_]; [lia|]. cbn [tail] in *.
    apply Forall_cons in Hpos as [Hh Hrest].
    pose proof (total_nonneg rest Hrest) as Htot.
    destruct (Z.leb_spec (Z.min space (Z.min (_head_remaining b) len)) 0)
      as [Hbad|_]; [lia|].
    destruct (Hstep (_head_remaining b)
                (if _head_remaining b - Z.min space (Z.min (_head_remaining b) len) =? 0
                 then rest else h0 :: rest) rest tags)
      as (b' & E & Hok' & Eo & Ei & Eq & Es); [lia|lia| | | |].
    + destruct (_ =? 0); [done|by constructor].
    + intros Hgt. destruct (_ =? 0) eqn:Ez; [apply Z.eqb_eq in Ez; lia|done].
    + destruct (_head_remaining b - Z.min space (Z.min (_head_remaining b) len) =? 0);
        reflexivity.
    + exists b'. done.
Qed.


Lemma total_snoc (l : list Z) (x : Z) : total (l ++ [x]) = total l + x.
Proof. unfold total. induction l as [|y l IH]; cbn [app foldr]; lia. Qed.

Lemma encode_frame_length_Z (frame : list Z) :
  Z.of_nat (length (encode_frame frame)) = 2 * Z.of_nat (length frame).
Proof. rewrite encode_frame_length. lia. Qed.

Lemma process_frames_ok (fuel : nat) :
  forall b,
    sched_ok b -> Forall (fun l => 0 < l) (_frame_queue b) ->
    sched_ok (_process_frames_to_outbuf fuel b) /\
    Forall (fun l => 0 < l) (_frame_queue (_process_frames_to_outbuf fuel b)).
Proof.
  induction fuel as [|fuel IH]; intros b Hok Hq; [done|].
  cbn [_process_frames_to_outbuf].
  destruct (_frame_queue b) as [|need rest] eqn:Eq; [by rewrite Eq|].
  destruct (Z.ltb_spec (Z.of_nat (length (_inbuf b))) need) as [|Hlen]; [by rewrite Eq|].
  apply Forall_cons in Hq as [Hneed Hrest].
  apply IH; [|done].
  destruct Hok as (Hpos & Hhr & Hne & Hl).
  assert (Henc : Z.of_nat (length (encode_frame (slice_to (_inbuf b) need))) = 2 * need).
  { rewrite encode_frame_length_Z. unfold slice_to. rewrite py_bound_nonneg by lia.
    rewrite length_take. lia. }
  unfold sched_ok, unstarted in *. cbn [_pending_out_frames _head_remaining _outbuf].
  split; [|split; [done|split]].
  - apply Forall_app. split; [done|]. apply Forall_singleton. lia.
  - intros _. by destruct (_pending_out_frames b).
  - rewrite length_app, Nat2Z.inj_add, Hl.
    destruct (Z.eqb_spec (_head_remaining b) 0) as [E0|Hn0].
    + rewrite total_snoc. lia.
    + destruct (_pending_out_frames b) as [|h t]; [destruct Hne; [lia|done]|].
      cbn [app tail]. rewrite total_snoc. lia.
Qed.

Lemma ingest_ok (b : blk) (in0 : list Z) (tags : list tag) :
  sched_ok b -> Forall (fun l => 0 < l) (_frame_queue b) ->
  sched_ok (ingest b in0 tags) /\
  Forall (fun l => 0 < l) (_frame_queue (ingest b in0 tags)).
Proof.
  intros Hok Hq. unfold ingest. destruct (0 <? length in0)%nat; [|done].
  apply process_frames_ok; [exact Hok|].
  cbn [_enqueue_len_tags _frame_queue]. apply Forall_app. split; [done|].
  apply Forall_forall. intros l Hl. apply list_elem_of_fmap in Hl as ([o v] & -> & Hin).
  by apply list_elem_of_filter in Hin as [? _].
Qed.

(** X22. The encoder's [work] adds a frame's length tag when, and only
    when, it writes the frame's first byte.  From a consistent scheduling
    state, a call writes the first [n = min n_out buffered] bytes of the
    encoded stream it buffers; the tags it adds are those of the encoded
    frames that start among these [n] bytes, each at the output offset of
    the frame's first byte with the encoded length as value; the frames
    that start later keep their place for the next call, and the state
    stays consistent whatever the output space. *)
Theorem conv_work_tags_frame_starts (b : blk) (in0 : list Z) (tags : list tag)
    (n_out ow : Z) :
  sched_ok b -> Forall (fun l => 0 < l) (_frame_queue b) -> 0 <= n_out ->
  let b1 := ingest b in0 tags in
  let w := work b in0 tags n_out ow in
  let n := Z.min n_out (Z.of_nat (length (_outbuf b1))) in
  w_out w = take (Z.to_nat n) (_outbuf b1) /\
  _outbuf (w_blk w) = drop (Z.to_nat n) (_outbuf b1) /\
  w_tags w = map (fun t : tag => (ow + t.1, t.2))
                 (filter (fun t : tag => t.1 < n) (starts b1)) /\
  starts (w_blk w) = map (fun t : tag => (t.1 + - n, t.2))
                         (filter (fun t : tag => n <= t.1) (starts b1)) /\
  sched_ok (w_blk w) /\ Forall (fun l => 0 < l) (_frame_queue (w_blk w)) /\
  w_consumed w = Z.of_nat (length in0).
Proof.
  intros Hok Hq Hn. cbv zeta. unfold work.
  destruct (ingest_ok b in0 tags Hok Hq) as [Hok1 Hq1].
  set (b1 := ingest b in0 tags) in *.
  destruct (Nat.eqb_spec (length (_outbuf b1)) 0) as [E0|Hne].
  - cbn [w_out w_blk w_tags w_consumed].
    replace (Z.min n_out (Z.of_nat (length (_outbuf b1)))) with 0 by lia.
    pose proof Hok1 as (_ & Hhr & _).
    destruct (starts_none_written 0 _ _ Hhr (starts_offsets b1 Hok1)) as [E1 E2].
    rewrite E1, E2, map_shift_0. cbn [Z.to_nat take map]. rewrite drop_0. done.
  - destruct (write_loop_spec ow (length (_outbuf b1)) n_out b1 [] [] Hok1 Hn ltac:(lia))
      as (b' & E & Hok' & Eo & Ei & Eq & Es).
    cbv zeta in E, Eo, Es. rewrite E. cbn [w_out w_blk w_tags w_consumed app length].
    split; [done|]. split; [done|]. split.
    { apply map_ext. intros [o v]. cbn. f_equal. lia. }
    split; [done|]. split; [done|]. split; [by rewrite Eq|done].
Qed.


Lemma sched_ok_init : sched_ok init.
Proof. unfold sched_ok, unstarted, total. cbn. repeat split; done || lia. Qed.

Lemma conv_work_tags_frame_starts_witness :
  sched_ok init /\ Forall (fun l => 0 < l) (_frame_queue init) /\ 0 <= 3 /\
  let b1 := ingest init [0x1A; 0xCF] [(0, 2)] in
  let w := work init [0x1A; 0xCF] [(0, 2)] 3 0 in
  let n := Z.min 3 (Z.of_nat (length (_outbuf b1))) in
  w_out w = take (Z.to_nat n) (_outbuf b1) /\
  _outbuf (w_blk w) = drop (Z.to_nat n) (_outbuf b1) /\
  w_tags w = map (fun t : tag => (0 + t.1, t.2))
                 (filter (fun t : tag => t.1 < n) (starts b1)) /\
  starts (w_blk w) = map (fun t : tag => (t.1 + - n, t.2))
                         (filter (fun t : tag => n <= t.1) (starts b1)) /\
  sched_ok (w_blk w) /\ Forall (fun l => 0 < l) (_frame_queue (w_blk w)) /\
  w_consumed w = Z.of_nat (length [0x1A; 0xCF]).
Proof.
  assert (H2 : Forall (fun l => 0 < l) (_frame_queue init)) by constructor.
  assert (H3 : 0 <= 3) by lia.
  split; [exact sched_ok_init|]. split; [exact H2|]. split; [exact H3|].
  exact (conv_work_tags_frame_starts init [0x1A; 0xCF] [(0, 2)] 3 0 sched_ok_init H2 H3).
Defined.

Lemma process_whole_frames (frames : list (list Z)) :
  forall fuel b,
    Forall (fun f : list Z => f <> []) frames ->
    _inbuf b = concat frames ->
    _frame_queue b = map (fun f => Z.of_nat (length f)) frames ->
    (length frames <= fuel)%nat ->
    _process_frames_to_outbuf fuel b
    = {| _inbuf := []; _outbuf := _outbuf b ++ concat (map encode_frame frames);
         _frame_queue := [];
         _pending_out_frames :=
           _pending_out_frames b
           ++ map (fun f => Z.of_nat (length (encode_frame f))) frames;
         _head_remaining := _head_remaining b |}.
Proof.
  induction frames as [|f frames IH]; intros fuel b Hne Hin Hq Hfuel.
  - destruct b as [ib ob fq pd hr]. cbn in Hin, Hq. subst ib fq.
    cbn [map concat _outbuf _pending_out_frames _head_remaining].
    rewrite !app_nil_r. by destruct fuel.
  - destruct fuel as [|fuel]; [cbn in Hfuel; lia|].
    apply Forall_cons in Hne as [Hf Hne].
    cbn [_process_frames_to_outbuf]. rewrite Hq, Hin. cbn [map concat].
    destruct (Z.ltb_spec (Z.of_nat (length (f ++ concat frames))) (Z.of_nat (length f)))
      as [Hbad|_]; [rewrite length_app in Hbad; lia|].
    rewrite slice_to_nat, slice_from_nat, take_app_length, drop_app_length.
    rewrite IH; cbn [_inbuf _frame_queue _outbuf _pending_out_frames _head_remaining];
      [|done|done|done|cbn in Hfuel; lia].
    by rewrite <- !app_assoc.
Qed.

Lemma lens_tags_packet_tags (rows : list (list Z)) :
  forall a, lens_tags a (map (fun r => Z.of_nat (length r)) rows)
            = SppTaggerSpec.packet_tags a rows.
Proof.
  induction rows as [|r rows IH]; intros a; [done|].
  cbn [map lens_tags SppTaggerSpec.packet_tags]. by rewrite IH.
Qed.

Lemma packet_tags_values (a : Z) (rows : list (list Z)) :
  Forall (fun r : list Z => r <> []) rows ->
  map snd (filter (fun t : tag => 0 < t.2) (SppTaggerSpec.packet_tags a rows))
  = map (fun r => Z.of_nat (length r)) rows.
Proof.
  intros H. revert a. induction H as [|r rows Hr _ IH]; intros a; [done|].
  cbn [SppTaggerSpec.packet_tags]. rewrite filter_cons. cbn [snd].
  destruct (decide (0 < Z.of_nat (length r))) as [_|Hbad].
  - rewrite !map_cons. cbn [snd]. f_equal. apply IH.
  - destruct r; [done|cbn [length] in Hbad; lia].
Qed.

Lemma all_starts_written (c n : Z) (lens : list Z) :
  forall a,
    Forall (fun l => 0 < l) lens -> a + total lens <= n ->
    map (fun t : tag => (c + t.1, t.2)) (filter (fun t : tag => t.1 < n) (lens_tags a lens))
    = lens_tags (c + a) lens.
Proof.
  induction lens as [|l lens IH]; intros a Hpos Hn; [done|].
  apply Forall_cons in Hpos as [Hl Hpos].
  pose proof (total_nonneg lens Hpos) as Ht.
  unfold total in Hn. cbn [foldr] in Hn. fold (total lens) in Hn.
  cbn [lens_tags]. rewrite filter_cons. cbn [fst].
  destruct (decide (a < n)); [|lia].
  rewrite map_cons. cbn [fst snd]. f_equal.
  replace (c + a + l) with (c + (a + l)) by lia. apply IH; [done|lia].
Qed.

Lemma total_lengths (rows : list (list Z)) :
  total (map (fun r => Z.of_nat (length r)) rows) = Z.of_nat (length (concat rows)).
Proof.
  unfold total. induction rows as [|r rows IH]; [done|].
  cbn [map foldr concat]. rewrite length_app, IH. lia.
Qed.

Lemma sched_ok_empty (b : blk) :
  sched_ok b -> _outbuf b = [] ->
  _pending_out_frames b = [] /\ _head_remaining b = 0.
Proof.
  intros (Hpos & Hhr & Hne & Hl) E. rewrite E in Hl. cbn [length] in Hl.
  unfold unstarted in Hl.
  destruct (Z.eqb_spec (_head_remaining b) 0) as [E0|Hn0].
  - split; [|done]. destruct (_pending_out_frames b) as [|h t]; [done|].
    apply Forall_cons in Hpos as [Hh Ht]. pose proof (total_nonneg t Ht).
    unfold total in *. cbn [foldr] in Hl. lia.
  - destruct (_pending_out_frames b) as [|h t]; [destruct Hne; [lia|done]|].
    apply Forall_cons in Hpos as [Hh Ht]. pose proof (total_nonneg t Ht).
    cbn [tail] in Hl. lia.
Qed.

(** X23. Whole frames, tagged on their first byte and given room, come
    out encoded and tagged on their first byte.  From the initial state,
    one call on a window made of non-empty frames, each with its length
    tag at its first byte, and with room for twice the input, writes the
    encoded frames one after the other, tags each at the offset of its
    first encoded byte with twice the frame's length, and leaves all
    buffers empty. *)
Theorem conv_work_whole_frames (frames : list (list Z)) (n_out ow : Z) :
  Forall (fun f : list Z => f <> []) frames ->
  2 * Z.of_nat (length (concat frames)) <= n_out ->
  work init (concat frames) (SppTaggerSpec.packet_tags 0 frames) n_out ow
  = {| w_blk := init;
       w_out := concat (map encode_frame frames);
       w_tags := SppTaggerSpec.packet_tags ow (map encode_frame frames);
       w_consumed := Z.of_nat (length (concat frames)) |}.
Proof.
  intros Hne Hroom.
  destruct frames as [|f0 frames0]; [done|].
  assert (Hin : (0 < length (concat (f0 :: frames0)))%nat).
  { pose proof Hne as Hne'. apply Forall_cons in Hne' as [H0 _]. cbn [concat].
    rewrite length_app. destruct f0; [done|cbn [length]; lia]. }
  remember (f0 :: frames0) as frames eqn:Ef. clear Ef f0 frames0.
  assert (Hlen : Z.of_nat (length (concat (map encode_frame frames)))
                 = 2 * Z.of_nat (length (concat frames))).
  { clear. induction frames as [|f fs IH]; [done|].
    cbn [map concat]. rewrite !length_app, !Nat2Z.inj_add, IH, encode_frame_length_Z. lia. }
  assert (Eing : ingest init (concat frames) (SppTaggerSpec.packet_tags 0 frames)
                 = {| _inbuf := []; _outbuf := concat (map encode_frame frames);
                      _frame_queue := [];
                      _pending_out_frames :=
                        map (fun f => Z.of_nat (length (encode_frame f))) frames;
                      _head_remaining := 0 |}).
  { unfold ingest. destruct (Nat.ltb_spec 0 (length (concat frames))); [|lia].
    cbv zeta. unfold _enqueue_len_tags.
    cbn [_frame_queue _inbuf init app _outbuf _pending_out_frames _head_remaining].
    rewrite packet_tags_values by done.
    rewrite (process_whole_frames frames); cbn [_inbuf _frame_queue _outbuf
      _pending_out_frames _head_remaining app]; try done.
    by rewrite length_map. }
  unfold work. rewrite Eing. cbn [_outbuf].
  set (b1 := {| _inbuf := []; _outbuf := _; _frame_queue := [];
                _pending_out_frames := _; _head_remaining := 0 |}).
  assert (Hpos : Forall (fun l => 0 < l)
                        (map (fun f => Z.of_nat (length (encode_frame f))) frames)).
  { apply Forall_map. eapply Forall_impl; [exact Hne|]. intros f Hf. cbn.
    rewrite encode_frame_length_Z. destruct f; [done|cbn [length]; lia]. }
  assert (Hpend : map (fun f => Z.of_nat (length (encode_frame f))) frames
                  = map (fun r => Z.of_nat (length r)) (map encode_frame frames))
    by (by rewrite map_map).
  assert (Hok1 : sched_ok b1).
  { unfold sched_ok, unstarted. cbn [b1 _pending_out_frames _head_remaining _outbuf Z.eqb].
    repeat split; [done|lia|lia|]. rewrite Hpend, total_lengths. lia. }
  destruct (Nat.eqb_spec (length (concat (map encode_frame frames))) 0) as [E0|_]; [lia|].
  destruct (write_loop_spec ow (length (_outbuf b1)) n_out b1 [] [] Hok1 ltac:(lia)
              ltac:(lia)) as (b' & E & Hok' & Eo & Ei & Eq & Es).
  cbv zeta in E, Eo, Es. cbn [b1 _outbuf] in E, Eo.
  change (length (_outbuf b1)) with (length (concat (map encode_frame frames))).
  rewrite E. cbn [app length].
  replace (Z.min n_out (Z.of_nat (length (concat (map encode_frame frames)))))
    with (Z.of_nat (length (concat (map encode_frame frames)))) in * by lia.
  rewrite Nat2Z.id in *. rewrite drop_all in Eo.
  destruct (sched_ok_empty b' Hok' Eo) as [Ep Eh].
  assert (Eb : b' = init).
  { destruct b' as [ib ob fq pd hr].
    cbn [_inbuf _outbuf _frame_queue _pending_out_frames _head_remaining b1] in *.
    by subst. }
  rewrite Eb, firstn_all. f_equal.
  unfold starts, unstarted. cbn [b1 _head_remaining _pending_out_frames Z.eqb].
  rewrite (all_starts_written (ow + Z.of_nat 0)); [|done|].
  - rewrite Hpend, lens_tags_packet_tags. do 2 f_equal. cbn. lia.
  - rewrite Hpend, total_lengths. lia.
Qed.


Lemma conv_work_whole_frames_witness :
  Forall (fun f : list Z => f <> []) [[0x1A; 0xCF]; [0xFC]] /\
  2 * Z.of_nat (length (concat [[0x1A; 0xCF]; [0xFC]])) <= 6 /\
  work init (concat [[0x1A; 0xCF]; [0xFC]])
       (SppTaggerSpec.packet_tags 0 [[0x1A; 0xCF]; [0xFC]]) 6 100
  = {| w_blk := init;
       w_out := concat (map encode_frame [[0x1A; 0xCF]; [0xFC]]);
       w_tags := SppTaggerSpec.packet_tags 100 (map encode_frame [[0x1A; 0xCF]; [0xFC]]);
       w_consumed := Z.of_nat (length (concat [[0x1A; 0xCF]; [0xFC]])) |}.
Proof.
  assert (H1 : Forall (fun f : list Z => f <> []) [[0x1A; 0xCF]; [0xFC]])
    by (repeat constructor; discriminate).
  assert (H2 : 2 * Z.of_nat (length (concat [[0x1A; 0xCF]; [0xFC]])) <= 6) by (cbn; lia).
  split; [exact H1|]. split; [exact H2|].
  exact (conv_work_whole_frames [[0x1A; 0xCF]; [0xFC]] 6 100 H1 H2).
Defined.

End ConvWorkFacts.

Section ViterbiMore.
Import Viterbi.

Lemma pair_ind (P : list Z -> Prop) :
  P [] -> (forall x, P [x]) -> (forall x y l, P l -> P (x :: y :: l)) ->
  forall l, P l.
Proof.
  intros H0 H1 H2 l. cut (P l /\ forall x, P (x :: l)); [tauto|].
  induction l as [|y l [IH1 IH2]]; [by split|]. split; [apply IH2|].
  intros x. by apply H2.
Qed.

Lemma forward_rows_length (trellis : list ((Z * (Z * Z)) * (Z * (Z * Z)))) (softs : list Z) :
  forall pm rows,
    length (forward trellis softs pm rows).2 = (length rows + length softs / 2)%nat.
Proof.
  induction softs as [| |r0 r1 rest IH] using pair_ind; intros pm rows.
  - cbn [forward snd length]. change (0 / 2)%nat with 0%nat. lia.
  - cbn [forward snd length]. change (1 / 2)%nat with 0%nat. lia.
  - cbn [forward]. rewrite IH, length_app. cbn [length].
    replace (S (S (length rest))) with (length rest + 1 * 2)%nat by lia.
    rewrite Nat.div_add by lia. lia.
Qed.

Lemma traceback_length (rows : list (list Z * list Z)) :
  forall s bits, length (traceback rows s bits) = (length rows + length bits)%nat.
Proof.
  induction rows as [|[prev dec] rows IH]; intros s bits; [done|].
  cbn [traceback]. rewrite IH. cbn [length]. lia.
Qed.

(** X24. The decoder returns one byte for every 16 soft values.  For any
    number of soft values, [_viterbi_soft_decode] returns
    [ceil(floor(n / 2) / 8)] bytes: an odd last soft value is dropped and
    the decoded bits are padded to whole bytes; for a frame of [16 * L]
    soft values this is [L], the length [work] then announces. *)
Theorem viterbi_decode_length (soft_bits : list Z) :
  length (_viterbi_soft_decode soft_bits) = ((length soft_bits / 2 + 7) / 8)%nat /\
  forall L, length soft_bits = (16 * L)%nat ->
            length (_viterbi_soft_decode soft_bits) = L.
Proof.
  assert (H : length (_viterbi_soft_decode soft_bits)
              = ((length soft_bits / 2 + 7) / 8)%nat).
  { unfold _viterbi_soft_decode, decode.
    set (softs := if Nat.odd (length soft_bits) then _ else soft_bits).
    assert (Hs : (length softs / 2 = length soft_bits / 2)%nat).
    { unfold softs. destruct (Nat.odd (length soft_bits)) eqn:Eodd; [|done].
      unfold slice_to, py_bound. cbn [Z.ltb Z.compare].
      rewrite length_take.
      apply Nat.odd_spec in Eodd as [k Ek]. rewrite Ek.
      replace (Z.to_nat (Z.max 0 (Z.of_nat (2 * k + 1) + -1)) `min` (2 * k + 1))%nat
        with (0 + k * 2)%nat by lia.
      replace (2 * k + 1)%nat with (1 + k * 2)%nat by lia.
      rewrite !Nat.div_add by lia. done. }
    pose proof (forward_rows_length _trellis softs
                  (<[0%nat:=0]> (replicate NSTATES BIG)) []) as Hf.
    destruct (forward _ _ _ _) as [pm rows]. cbn [snd length] in Hf.
    rewrite bits_to_bytes_length, traceback_length, length_rev, Hf, Hs.
    cbn [length]. by rewrite Nat.add_0_r. }
  split; [exact H|]. intros L HL. rewrite H, HL.
  replace (16 * L)%nat with (0 + (8 * L) * 2)%nat by lia.
  rewrite Nat.div_add by lia. change (0 / 2)%nat with 0%nat.
  replace (0 + 8 * L + 7)%nat with (7 + L * 8)%nat by lia.
  rewrite Nat.div_add by lia. done.
Qed.

End ViterbiMore.

Section RsMore.
Import RsEncoder RsEncoderSpec.

Lemma make_inv (I0 tm_len0 : Z) (p : params) :
  make I0 tm_len0 = Ok p -> I p = I0 /\ tm_len p = tm_len0 /\ tm_len0 = 223 * I0.
Proof.
  unfold make. destruct (Z.eqb_spec tm_len0 (K * I0)) as [E|]; [|done].
  cbn [negb]. intros [= <-]. cbn [I tm_len]. unfold K in E. done.
Qed.

Lemma rs_branches_encode (p : params) (i : nat) (tm : list Z) :
  I p = Z.of_nat i -> (1 <= i)%nat -> length tm = (223 * i)%nat ->
  encode_branches (map (branch_of p tm) (seq 0 (Z.to_nat (I p))))
  = Ok (map (fun br => br ++ parity_of br)
            (map (branch_of p tm) (seq 0 (Z.to_nat (I p))))).
Proof.
  intros HI Hi Hlen. apply encode_branches_ok.
  apply Forall_map, Forall_forall. intros j Hj. cbn.
  apply elem_of_seq in Hj. rewrite HI, Nat2Z.id in Hj.
  rewrite (branch_of_sub_sequence p tm i j) by (done || lia).
  apply sub_sequence_length.
Qed.

(** X25. The RS stage never raises and never emits part of a codeblock.
    For a block made with interleave depth [I >= 1] and input length
    [223 * I], every call returns normally, and it either produces and
    consumes nothing (no input, no output space, no tag, a tag value or a
    window below [223 * I], or too little room), or consumes the bytes in
    front of the first tag without producing, or consumes exactly
    [223 * I] bytes and produces exactly [255 * I] bytes with one tag of
    value [255 * I] at the output head. *)
Theorem rs_work_all_or_nothing (I0 : Z) (p : params) (inp : list Z)
    (tags : list tag) (n_out nw : Z) :
  1 <= I0 -> make I0 (223 * I0) = Ok p ->
  exists w,
    general_work p inp tags n_out nw = Ok w /\
    (w = nothing \/
     (w_out w = [] /\ w_tags w = [] /\ 0 < w_consumed w /\
      exists L rest, tags = (w_consumed w, L) :: rest) \/
     (Z.of_nat (length (w_out w)) = 255 * I0 /\ w_tags w = [(nw, 255 * I0)] /\
      w_consumed w = 223 * I0 /\ 255 * I0 <= n_out /\
      223 * I0 <= Z.of_nat (length inp) /\
      exists rel L rest, tags = (rel, L) :: rest /\ rel <= 0 /\ 223 * I0 <= L)).
Proof.
  intros HI0 Hmake. apply make_inv in Hmake as (HI & Htm & _).
  unfold general_work. rewrite Htm.
  destruct ((Z.of_nat (length inp) =? 0) || (n_out =? 0)); [exists nothing; by split; [|left]|].
  destruct tags as [|[rel L] rest]; [exists nothing; by split; [|left]|].
  destruct (Z.ltb_spec 0 rel) as [Hrel|Hrel].
  { eexists. split; [reflexivity|]. right. left. cbn [w_out w_tags w_consumed].
    repeat split; try done. by exists L, rest. }
  destruct (Z.ltb_spec L (223 * I0)) as [|HL]; cbn [orb]; [exists nothing; by split; [|left]|].
  destruct (Z.ltb_spec (Z.of_nat (length inp)) (223 * I0)) as [|Hin];
    [exists nothing; by split; [|left]|].
  set (i := Z.to_nat I0).
  assert (HIi : I p = Z.of_nat i) by (unfold i; lia).
  assert (Hlen : length (slice_to inp (223 * I0)) = (223 * i)%nat).
  { unfold slice_to. rewrite py_bound_nonneg by lia. rewrite length_take. unfold i. lia. }
  rewrite (rs_branches_encode p i) by (done || unfold i; lia).
  cbn [mbind result_bind]. rewrite HI.
  destruct (Z.ltb_spec n_out (N * I0)) as [|Hroom]; [exists nothing; by split; [|left]|].
  eexists. split; [reflexivity|]. right. right. cbn [w_out w_tags w_consumed].
  destruct (multiplex_spec p (map (fun br => br ++ parity_of br)
                                  (map (branch_of p (slice_to inp (223 * I0)))
                                       (seq 0 (Z.to_nat I0)))) i HIi) as [Hm _].
  rewrite Hm. unfold N in *. unfold i.
  split; [lia|]. split; [done|]. split; [done|]. split; [lia|]. split; [lia|].
  by exists rel, L, rest.
Qed.

Lemma rs_work_all_or_nothing_witness :
  1 <= 1 /\ make 1 (223 * 1) = Ok params1 /\
  exists w,
    general_work params1 [1; 2; 3] [(2, 223)] 255 0 = Ok w /\
    (w = nothing \/
     (w_out w = [] /\ w_tags w = [] /\ 0 < w_consumed w /\
      exists L rest, [(2, 223)] = (w_consumed w, L) :: rest) \/
     (Z.of_nat (length (w_out w)) = 255 * 1 /\ w_tags w = [(0, 255 * 1)] /\
      w_consumed w = 223 * 1 /\ 255 * 1 <= 255 /\
      223 * 1 <= Z.of_nat (length [1; 2; 3]) /\
      exists rel L rest, [(2, 223)] = (rel, L) :: rest /\ rel <= 0 /\ 223 * 1 <= L)).
Proof.
  assert (H1 : 1 <= 1) by lia.
  assert (H2 : make 1 (223 * 1) = Ok params1) by reflexivity.
  split; [exact H1|]. split; [exact H2|].
  exact (rs_work_all_or_nothing 1 params1 [1; 2; 3] [(2, 223)] 255 0 H1 H2).
Defined.

(** The exponent and logarithm tables [_gf_init] builds are inverse to
    each other, and the exponent table repeats with period 255. *)
Lemma gf_tables_inverse_checked :
  all_from 255 1 (fun a => getZ gf_exp (getZ gf_log a) =? a)
  && all_from 255 0 (fun i => getZ gf_log (getZ gf_exp i) =? i)
  && all_from 255 0 (fun i => getZ gf_exp (i + 255) =? getZ gf_exp i)
  = true.
Proof. vm_compute. reflexivity. Qed.

(** X26. The block's GF(256) is the field of the primitive polynomial
    0x11D.  For all bytes [a] and [b] the table-driven [_gf_mul a b] is a
    byte and equals the shift-and-add product modulo
    x^8 + x^4 + x^3 + x^2 + 1; and the tables of [_gf_init] are inverse to
    each other: [gf_exp[gf_log[a]] = a] for every non-zero byte,
    [gf_log[gf_exp[i]] = i] and [gf_exp[i + 255] = gf_exp[i]] for every
    exponent below 255. *)
Theorem gf256_arithmetic (a b : Z) :
  is_byte a -> is_byte b ->
  _gf_mul a b = gf_mul_ref a b /\ is_byte (_gf_mul a b) /\
  (a <> 0 -> getZ gf_exp (getZ gf_log a) = a) /\
  (a < 255 -> getZ gf_log (getZ gf_exp a) = a /\
              getZ gf_exp (a + 255) = getZ gf_exp a).
Proof.
  intros Ha Hb. pose proof gf_tables_inverse_checked as H.
  rewrite !andb_true_iff in H. destruct H as [[H1 H2] H3].
  split; [by apply gf_mul_is_field_product|]. split; [by apply gf_mul_byte|].
  unfold is_byte in Ha. split.
  - intros Hne. apply Z.eqb_eq.
    apply (all_from_spec _ 255 1 a H1). lia.
  - intros Hlt. split; apply Z.eqb_eq.
    + apply (all_from_spec _ 255 0 a H2). lia.
    + apply (all_from_spec _ 255 0 a H3). lia.
Qed.

Lemma gf256_arithmetic_witness :
  is_byte 0x53 /\ is_byte 0xCA /\
  _gf_mul 0x53 0xCA = gf_mul_ref 0x53 0xCA /\ is_byte (_gf_mul 0x53 0xCA) /\
  (0x53 <> 0 -> getZ gf_exp (getZ gf_log 0x53) = 0x53) /\
  (0x53 < 255 -> getZ gf_log (getZ gf_exp 0x53) = 0x53 /\
                 getZ gf_exp (0x53 + 255) = getZ gf_exp 0x53).
Proof.
  assert (H1 : is_byte 0x53) by (unfold is_byte; lia).
  assert (H2 : is_byte 0xCA) by (unfold is_byte; lia).
  split; [exact H1|]. split; [exact H2|].
  exact (gf256_arithmetic 0x53 0xCA H1 H2).
Defined.

End RsMore.
